(** * PokerBirds: the hand-lifecycle engine of [PokerGame.js]

    A shallow embedding of the class [PokerGame] and the properties the
    specification states about it.

    Conventions of the embedding.
    - Monetary values are JavaScript numbers holding cents.  They are modelled
      as exact rationals ([Q]): the engine adds, subtracts, compares and takes
      remainders of amounts, divides a pot by its winners at showdown and a
      buy-in by 20 in the setters.  Binary64 computes the same values on
      whole numbers of cents and on quotients that are whole.  NaN, the
      infinities and the rounding of other quotients are not modelled: the
      statements that depend on a quotient carry the hypothesis that it is
      whole, and the arguments of the setters range over finite numbers.
    - Seat indices, counters and player ids are naturals; the action round
      starts at -1 and is an integer.
    - [this.players] is an array indexed by position, and
      [addPlayerToPosition] can leave empty seats in it.  [Section Engine]
      models the engine on a table whose seats are all occupied, as a
      [list Player]: an index outside of the list reads [undefined], and a
      property access on [undefined] raises a [TypeError].  [Module Sparse]
      models the methods that look at the seats one by one on any table,
      empty seats included; the two agree on a table without empty seats
      ([Section FullTable]).
    - A method is a function from the game to an outcome and the game it
      leaves behind.  A [throw] keeps whatever was mutated before it.
    - [console.error] and [console.warn] are not modelled. *)

From Stdlib Require Import List String DecimalString ZArith QArith Lia Lqa
  Bool Arith Permutation.
Import ListNotations.

Set Implicit Arguments.

Close Scope Q_scope.
Local Open Scope nat_scope.
Local Open Scope string_scope.
Local Open Scope list_scope.

(** ** JavaScript numbers *)

(** Result of a JavaScript division: finite, or one of the three values a
    division by zero gives. *)
Inductive number : Type :=
| Num (q : Q)
| PosInfinity
| NegInfinity
| NaN.

Definition Qlt_bool (a b : Q) : bool := negb (Qle_bool b a).

(** [a / n] for a count [n] (an array length).  The quotient is the exact
    one; binary64 gives the same value where [n] divides [a], which is what
    the statements about a division assume. *)
Definition js_div (a : Q) (n : nat) : number :=
  match n with
  | O => if Qlt_bool 0 a then PosInfinity
         else if Qlt_bool a 0 then NegInfinity else NaN
  | S _ => Num (a / inject_Z (Z.of_nat n))
  end.

(** Truncation toward zero. *)
Definition Qtrunc (q : Q) : Z := Z.quot (Qnum q) (Zpos (Qden q)).

(** [a % b]: the remainder has the sign of the dividend; [None] is NaN. *)
Definition js_rem (a b : Q) : option Q :=
  if Qeq_bool b 0 then None
  else Some (a - b * inject_Z (Qtrunc (a / b)))%Q.

(** [a % b !== 0] (NaN is different from 0). *)
Definition rem_nonzero (a b : Q) : bool :=
  match js_rem a b with
  | None => true
  | Some r => negb (Qeq_bool r 0)
  end.

(** Sum of a list of amounts, as [reduce((acc, x) => acc + x, 0)]. *)
Definition Qsum (l : list Q) : Q := fold_left Qplus l 0%Q.

(** ** Errors and outcomes *)

Inductive error : Type :=
| NotInitialized
    (* throwIfNotInitialized: Haven't initialized buyIn=..., smallBlind=..., bigBlind=... *)
| Error (msg : string)
    (* new Error(msg), msg a fixed text *)
| CurrentPlayerCannot (id : nat) (what : string)
    (* Current player (id: ${id}) cannot ${what} *)
| CurrentPlayerCannotRaiseBy (id : nat) (amount : Q)
    (* Current player (id: ${id}) cannot raise by ${amount} *)
| IllegalArgument (playerAction : string)
    (* Illegal argument: result=${JSON.stringify(result)} *)
| TypeError.
    (* a property of undefined was read or written *)

Inductive outcome (A : Type) : Type :=
| Ret (a : A)
| Throw (e : error).
Arguments Ret {A} a.
Arguments Throw {A} e.

(** A card: [[value, suit]]. *)
Definition Card : Type := nat * string.

(** Modelled from the spec: constants.js is not among the sources.  Every
    player is dealt two hole cards. *)
Definition NUM_CARDS_PER_PLAYER : nat := 2.

(** Modelled from the spec: constants.js is not among the sources.  The
    action-round enum is {uninitialized, pre-flop, flop, turn, river}, indexed
    as the constructor's comment says: -1 = uninitialized, 0 = pre-flop,
    1 = flop, 2 = turn, 3 = river; any other index reads undefined. *)
Definition ACTION_ROUNDS (r : Z) : option string :=
  if Z.eqb r (-1) then Some "uninitialized"
  else if Z.eqb r 0 then Some "pre-flop"
  else if Z.eqb r 1 then Some "flop"
  else if Z.eqb r 2 then Some "turn"
  else if Z.eqb r 3 then Some "river"
  else None.

Section Engine.

(** The collaborators that are not part of [PokerGame.js]. *)

(** HandRanker ([utils.js]): the rank objects it builds, the rank of seven
    cards, and the subset of a collection of ranks tied for best. *)
Variable HandRank : Type.

(** ** Data model *)

(** A rank object after [showdownRank.playerIndex = idx]. *)
Record ShowdownRank : Type := mkShowdownRank {
  rank : HandRank;
  playerIndex : nat
}.

Record Player : Type := mkPlayer {
  id : nat;
  cards : list (option Card);
  stack : Q;
  potCommitment : Q;
  inGame : bool;
  isAllIn : bool;
  allowRaise : bool;
  actionState : string;
  showdownRank : option ShowdownRank
}.

Record Pot : Type := mkPot {
  open : bool;
  prevARsAmount : Q;
  currARAmount : Q;
  playerCommitment : Q;
  history : list (nat * Q);
  (* a Set of player ids, in insertion order *)
  potentialWinners : list nat;
  winHandRanks : list ShowdownRank
}.

(** The fields of [PokerGame].  [this.winHandRanks] is only ever assigned
    [null] and is left out. *)
Record Game : Type := mkGame {
  initialized : bool;
  buyIn : Q;
  smallBlind : Q;
  bigBlind : Q;
  players : list Player;
  dealerIdx : nat;
  smallBlindIdx : nat;
  bigBlindIdx : nat;
  turnIdx : nat;
  numTurnIncrements : nat;
  pots : list Pot;
  actionRound : Z;
  board : list (option Card);
  deck : list Card;
  minRaise : Q;
  previousBet : Q;
  allowCheck : bool
}.

Variable bestHandRank : list (option Card) -> HandRank.
Variable pickBestHandRanks : list (option ShowdownRank) -> list ShowdownRank.

(** [constants.js]: the largest buy-in. *)
Variable MAX_BUYIN_IN_CENTS : Q.

(** [Player.js]: the methods that apply an accepted action.  Each is called on
    the player object at a seat and may change that player, the pots and the
    betting variables of the game it belongs to. *)
Variable Player_allIn : nat -> Game -> outcome unit * Game.
Variable Player_call : nat -> Game -> outcome unit * Game.
Variable Player_raise : Q -> nat -> Game -> outcome unit * Game.
Variable Player_fold : nat -> Game -> outcome unit * Game.
Variable Player_check : nat -> Game -> outcome unit * Game.

(** [Pot.js]: the eligible set a pot is constructed with. *)
Variable Pot_initialPotentialWinners : Game -> list nat.

(** [randDeckIdx]: the index [Math.floor(Math.random() * this.deck.length)]
    picks in a deck.  Every draw shortens the deck, so within a deal no deck
    is drawn from twice and a function of the deck describes any run. *)
Variable randDeckIdx : list Card -> nat.

(** ** Field updates *)

Definition set_stack (v : Q) (p : Player) : Player :=
  mkPlayer (id p) (cards p) v (potCommitment p) (inGame p) (isAllIn p)
           (allowRaise p) (actionState p) (showdownRank p).

Definition set_showdownRank (v : option ShowdownRank) (p : Player) : Player :=
  mkPlayer (id p) (cards p) (stack p) (potCommitment p) (inGame p) (isAllIn p)
           (allowRaise p) (actionState p) v.

Definition set_actionState (v : string) (p : Player) : Player :=
  mkPlayer (id p) (cards p) (stack p) (potCommitment p) (inGame p) (isAllIn p)
           (allowRaise p) v (showdownRank p).

Definition set_winHandRanks (v : list ShowdownRank) (p : Pot) : Pot :=
  mkPot (open p) (prevARsAmount p) (currARAmount p) (playerCommitment p)
        (history p) (potentialWinners p) v.

Definition set_buyIn (v : Q) (g : Game) : Game :=
  mkGame (initialized g) v (smallBlind g) (bigBlind g) (players g)
         (dealerIdx g) (smallBlindIdx g) (bigBlindIdx g) (turnIdx g)
         (numTurnIncrements g) (pots g) (actionRound g) (board g) (deck g)
         (minRaise g) (previousBet g) (allowCheck g).

Definition set_smallBlind (v : Q) (g : Game) : Game :=
  mkGame (initialized g) (buyIn g) v (bigBlind g) (players g)
         (dealerIdx g) (smallBlindIdx g) (bigBlindIdx g) (turnIdx g)
         (numTurnIncrements g) (pots g) (actionRound g) (board g) (deck g)
         (minRaise g) (previousBet g) (allowCheck g).

Definition set_bigBlind (v : Q) (g : Game) : Game :=
  mkGame (initialized g) (buyIn g) (smallBlind g) v (players g)
         (dealerIdx g) (smallBlindIdx g) (bigBlindIdx g) (turnIdx g)
         (numTurnIncrements g) (pots g) (actionRound g) (board g) (deck g)
         (minRaise g) (previousBet g) (allowCheck g).

Definition set_initialized (v : bool) (g : Game) : Game :=
  mkGame v (buyIn g) (smallBlind g) (bigBlind g) (players g)
         (dealerIdx g) (smallBlindIdx g) (bigBlindIdx g) (turnIdx g)
         (numTurnIncrements g) (pots g) (actionRound g) (board g) (deck g)
         (minRaise g) (previousBet g) (allowCheck g).

Definition set_players (v : list Player) (g : Game) : Game :=
  mkGame (initialized g) (buyIn g) (smallBlind g) (bigBlind g) v
         (dealerIdx g) (smallBlindIdx g) (bigBlindIdx g) (turnIdx g)
         (numTurnIncrements g) (pots g) (actionRound g) (board g) (deck g)
         (minRaise g) (previousBet g) (allowCheck g).

Definition set_turnIdx (v : nat) (g : Game) : Game :=
  mkGame (initialized g) (buyIn g) (smallBlind g) (bigBlind g) (players g)
         (dealerIdx g) (smallBlindIdx g) (bigBlindIdx g) v
         (numTurnIncrements g) (pots g) (actionRound g) (board g) (deck g)
         (minRaise g) (previousBet g) (allowCheck g).

Definition set_numTurnIncrements (v : nat) (g : Game) : Game :=
  mkGame (initialized g) (buyIn g) (smallBlind g) (bigBlind g) (players g)
         (dealerIdx g) (smallBlindIdx g) (bigBlindIdx g) (turnIdx g)
         v (pots g) (actionRound g) (board g) (deck g)
         (minRaise g) (previousBet g) (allowCheck g).

Definition set_pots (v : list Pot) (g : Game) : Game :=
  mkGame (initialized g) (buyIn g) (smallBlind g) (bigBlind g) (players g)
         (dealerIdx g) (smallBlindIdx g) (bigBlindIdx g) (turnIdx g)
         (numTurnIncrements g) v (actionRound g) (board g) (deck g)
         (minRaise g) (previousBet g) (allowCheck g).

Definition set_actionRound (v : Z) (g : Game) : Game :=
  mkGame (initialized g) (buyIn g) (smallBlind g) (bigBlind g) (players g)
         (dealerIdx g) (smallBlindIdx g) (bigBlindIdx g) (turnIdx g)
         (numTurnIncrements g) (pots g) v (board g) (deck g)
         (minRaise g) (previousBet g) (allowCheck g).

Definition set_dealerIdx (v : nat) (g : Game) : Game :=
  mkGame (initialized g) (buyIn g) (smallBlind g) (bigBlind g) (players g)
         v (smallBlindIdx g) (bigBlindIdx g) (turnIdx g)
         (numTurnIncrements g) (pots g) (actionRound g) (board g) (deck g)
         (minRaise g) (previousBet g) (allowCheck g).

Definition set_smallBlindIdx (v : nat) (g : Game) : Game :=
  mkGame (initialized g) (buyIn g) (smallBlind g) (bigBlind g) (players g)
         (dealerIdx g) v (bigBlindIdx g) (turnIdx g)
         (numTurnIncrements g) (pots g) (actionRound g) (board g) (deck g)
         (minRaise g) (previousBet g) (allowCheck g).

Definition set_bigBlindIdx (v : nat) (g : Game) : Game :=
  mkGame (initialized g) (buyIn g) (smallBlind g) (bigBlind g) (players g)
         (dealerIdx g) (smallBlindIdx g) v (turnIdx g)
         (numTurnIncrements g) (pots g) (actionRound g) (board g) (deck g)
         (minRaise g) (previousBet g) (allowCheck g).

Definition set_board (v : list (option Card)) (g : Game) : Game :=
  mkGame (initialized g) (buyIn g) (smallBlind g) (bigBlind g) (players g)
         (dealerIdx g) (smallBlindIdx g) (bigBlindIdx g) (turnIdx g)
         (numTurnIncrements g) (pots g) (actionRound g) v (deck g)
         (minRaise g) (previousBet g) (allowCheck g).

Definition set_deck (v : list Card) (g : Game) : Game :=
  mkGame (initialized g) (buyIn g) (smallBlind g) (bigBlind g) (players g)
         (dealerIdx g) (smallBlindIdx g) (bigBlindIdx g) (turnIdx g)
         (numTurnIncrements g) (pots g) (actionRound g) (board g) v
         (minRaise g) (previousBet g) (allowCheck g).

Definition set_minRaise (v : Q) (g : Game) : Game :=
  mkGame (initialized g) (buyIn g) (smallBlind g) (bigBlind g) (players g)
         (dealerIdx g) (smallBlindIdx g) (bigBlindIdx g) (turnIdx g)
         (numTurnIncrements g) (pots g) (actionRound g) (board g) (deck g)
         v (previousBet g) (allowCheck g).

Definition set_previousBet (v : Q) (g : Game) : Game :=
  mkGame (initialized g) (buyIn g) (smallBlind g) (bigBlind g) (players g)
         (dealerIdx g) (smallBlindIdx g) (bigBlindIdx g) (turnIdx g)
         (numTurnIncrements g) (pots g) (actionRound g) (board g) (deck g)
         (minRaise g) v (allowCheck g).

Definition set_allowCheck (v : bool) (g : Game) : Game :=
  mkGame (initialized g) (buyIn g) (smallBlind g) (bigBlind g) (players g)
         (dealerIdx g) (smallBlindIdx g) (bigBlindIdx g) (turnIdx g)
         (numTurnIncrements g) (pots g) (actionRound g) (board g) (deck g)
         (minRaise g) (previousBet g) v.

(** The betting variables [refreshAndIncActionRound] resets together. *)
Definition set_betting (prev minr : Q) (chk : bool) (g : Game) : Game :=
  mkGame (initialized g) (buyIn g) (smallBlind g) (bigBlind g) (players g)
         (dealerIdx g) (smallBlindIdx g) (bigBlindIdx g) (turnIdx g)
         (numTurnIncrements g) (pots g) (actionRound g) (board g) (deck g)
         minr prev chk.

(** [arr[i] = f(arr[i])] for an index inside the array. *)
Fixpoint update_nth {A : Type} (i : nat) (f : A -> A) (l : list A) : list A :=
  match l, i with
  | [], _ => []
  | x :: r, O => f x :: r
  | x :: r, S j => x :: update_nth j f r
  end.

(** ** The method monad: state, with exceptions that keep the state *)

Definition M (A : Type) : Type := Game -> outcome A * Game.

Definition ret {A : Type} (a : A) : M A := fun g => (Ret a, g).

Definition throw {A : Type} (e : error) : M A := fun g => (Throw e, g).

Definition bind {A B : Type} (m : M A) (k : A -> M B) : M B :=
  fun g =>
    match m g with
    | (Ret a, g') => k a g'
    | (Throw e, g') => (Throw e, g')
    end.

Definition get : M Game := fun g => (Ret g, g).

Definition modify (f : Game -> Game) : M unit := fun g => (Ret tt, f g).

(** A computation that only reads the game. *)
Definition read {A : Type} (f : Game -> outcome A) : M A := fun g => (f g, g).

Notation "x <- m ;; k" := (bind m (fun x => k))
  (at level 61, m at next level, right associativity).
Notation "m ;;; k" := (bind m (fun _ => k))
  (at level 61, right associativity).

(** [arr.forEach(body)] for a body that may throw. *)
Fixpoint forEachM {A : Type} (body : A -> M unit) (l : list A) : M unit :=
  match l with
  | [] => ret tt
  | x :: r => body x ;;; forEachM body r
  end.

(** ** Getters *)

Definition totalPlayers (g : Game) : nat := List.length (players g).

Definition count_if {A : Type} (f : A -> bool) (l : list A) : nat :=
  fold_left (fun acc x => if f x then acc + 1 else acc) l 0.

Definition numPlayersInGame (g : Game) : nat := count_if inGame (players g).

(** [this.players[this.turnIdx]]; [None] is undefined. *)
Definition currentPlayer (g : Game) : option Player :=
  nth_error (players g) (turnIdx g).

Definition actionRoundStr (g : Game) : option string :=
  ACTION_ROUNDS (actionRound g).

Definition allInPlayersCounter (g : Game) : nat := count_if isAllIn (players g).

Definition throwIfNotInitialized : M unit :=
  fun g => if initialized g then (Ret tt, g) else (Throw NotInitialized, g).

(** ** Setup *)

Definition setBuyIn (val : Q) : Game -> bool * Game :=
  fun g =>
    if Qlt_bool val 1 || Qlt_bool MAX_BUYIN_IN_CENTS val then (false, g)
    else (true, set_buyIn val g).

Definition setSmallBlind (val : Q) : Game -> bool * Game :=
  fun g =>
    if Qle_bool val 0 then (false, g)
    else if Qeq_bool (buyIn g) (-1) then (false, g)
    else if Qlt_bool (buyIn g / 20) val then (false, g)
    else (true, set_bigBlind (-1) (set_smallBlind val g)).

Definition setBigBlind (val : Q) : Game -> bool * Game :=
  fun g =>
    if Qeq_bool (smallBlind g) (-1) then (false, g)
    else if Qlt_bool val (smallBlind g) then (false, g)
    else if rem_nonzero val (smallBlind g) then (false, g)
    else if Qlt_bool (buyIn g / 20) val then (false, g)
    else (true, set_initialized true (set_bigBlind val g)).

(** ** Turn order *)

(** With no seat at all the source computes [turnIdx % 0], which is NaN; the
    model keeps the incremented index there, and [Sparse.incrementTurn]
    holds the NaN. *)
Definition incrementTurn : M unit :=
  throwIfNotInitialized ;;;
  modify (fun g => set_numTurnIncrements (numTurnIncrements g + 1) g) ;;;
  modify (fun g => set_turnIdx (turnIdx g + 1) g) ;;;
  modify (fun g => set_turnIdx (turnIdx g mod totalPlayers g) g).

(** The [for] loop of [incrementTurnToNextPlayerInGame]: [n] iterations
    remain, [skipped] has been collected so far.  The array holds references
    to player objects; a reference is modelled by the seat it points to. *)
Fixpoint skipLoop (n : nat) (skipped : list nat) : M (list nat) :=
  match n with
  | O => ret skipped
  | S k =>
      g <- get ;;
      match currentPlayer g with
      | None => throw TypeError
      | Some p =>
          if negb (inGame p) || isAllIn p
          then incrementTurn ;;; skipLoop k (skipped ++ [turnIdx g])
          else ret skipped
      end
  end.

Definition incrementTurnToNextPlayerInGame : M (list nat) :=
  throwIfNotInitialized ;;;
  incrementTurn ;;;
  g <- get ;;
  skipLoop (totalPlayers g) [].

(** ** Legality of the action a seat submits *)

Definition canCurrentPlayerCheck (g : Game) : outcome bool :=
  if initialized g then Ret (allowCheck g) else Throw NotInitialized.

(** The [for] loop of [canCurrentPlayerCall]. *)
Definition raiseCounter (g : Game) : nat :=
  count_if (fun p => String.eqb (actionState p) "raise"
                     || String.eqb (actionState p) "SB") (players g).

Definition canCurrentPlayerCall (g : Game) : outcome bool :=
  if initialized g then
    if Nat.eqb (raiseCounter g) 0 then Ret false
    else
      match currentPlayer g with
      | None => Throw TypeError
      | Some p =>
          if String.eqb (actionState p) "SB"
             && Qeq_bool (smallBlind g) (bigBlind g)
          then Ret false else Ret true
      end
  else Throw NotInitialized.

Definition canCurrentPlayerRaise (g : Game) : outcome bool :=
  if initialized g then
    match currentPlayer g with
    | None => Throw TypeError
    | Some p => Ret (allowRaise p)
    end
  else Throw NotInitialized.

Definition canCurrentPlayerRaiseBy (cents : Q) (g : Game) : outcome bool :=
  if initialized g then
    match currentPlayer g with
    | None => Throw TypeError
    | Some p =>
        if negb (allowRaise p) then Ret false
        else if Qeq_bool cents (stack p) then Ret true
        else if rem_nonzero cents (smallBlind g)
                || Qlt_bool cents (previousBet g + minRaise g)
                || Qlt_bool (stack p + potCommitment p) cents
        then Ret false
        else Ret true
    end
  else Throw NotInitialized.

(** The argument of [callCurrentPlayerAction]. *)
Record ActionResult : Type := mkActionResult {
  playerAction : string;
  raiseAmount : Q
}.

(** [if (!cond) throw e], for a condition that may itself throw. *)
Definition unless (cond : Game -> outcome bool) (e : Game -> outcome unit)
  : M unit :=
  fun g =>
    match cond g with
    | Ret true => (Ret tt, g)
    | Ret false => (e g, g)
    | Throw x => (Throw x, g)
    end.

(** [this.currentPlayer.inGame]. *)
Definition currentPlayerInGame (g : Game) : outcome bool :=
  match currentPlayer g with
  | None => Throw TypeError
  | Some p => Ret (inGame p)
  end.

(** An error message that interpolates [this.currentPlayer.id]. *)
Definition cannot (what : string) (g : Game) : outcome unit :=
  match currentPlayer g with
  | None => Throw TypeError
  | Some p => Throw (CurrentPlayerCannot (id p) what)
  end.

Definition cannotRaiseBy (amount : Q) (g : Game) : outcome unit :=
  match currentPlayer g with
  | None => Throw TypeError
  | Some p => Throw (CurrentPlayerCannotRaiseBy (id p) amount)
  end.

(** A method of [this.currentPlayer]. *)
Definition onCurrentPlayer (method : nat -> Game -> outcome unit * Game)
  : M unit :=
  fun g =>
    match currentPlayer g with
    | None => (Throw TypeError, g)
    | Some _ => method (turnIdx g) g
    end.

Definition callCurrentPlayerAction (result : ActionResult) : M unit :=
  let a := playerAction result in
  if String.eqb a "all-in" then
    unless currentPlayerInGame (cannot "fold bcz player not in game.") ;;;
    onCurrentPlayer Player_allIn
  else if String.eqb a "call" then
    unless canCurrentPlayerCall (cannot "call") ;;;
    onCurrentPlayer Player_call
  else if String.eqb a "raise" then
    unless canCurrentPlayerRaise (cannot "raise") ;;;
    unless (canCurrentPlayerRaiseBy (raiseAmount result))
           (cannotRaiseBy (raiseAmount result)) ;;;
    onCurrentPlayer (Player_raise (raiseAmount result))
  else if String.eqb a "fold" then
    unless currentPlayerInGame (cannot "fold bcz player not in game.") ;;;
    onCurrentPlayer Player_fold
  else if String.eqb a "check" then
    unless canCurrentPlayerCheck (cannot "check") ;;;
    onCurrentPlayer Player_check
  else throw (IllegalArgument a).

(** ** Pots *)

(** Modelled from the spec: Pot.js is not among the sources.  A player id is
    in the pot's potential-winners set ([hasPlayerInPotentialWinners] and
    [playerIdxInPotentialWinners]). *)
Definition playerIdxInPotentialWinners (i : nat) (pot : Pot) : bool :=
  existsb (Nat.eqb i) (potentialWinners pot).

(** Modelled from the spec: Pot.js is not among the sources.  The pot's
    eligible-player set contains an all-in player. *)
Definition hasAllInPlayer (g : Game) (pot : Pot) : bool :=
  existsb (fun i => match nth_error (players g) i with
                    | Some p => isAllIn p
                    | None => false
                    end) (potentialWinners pot).

(** Modelled from the spec: Pot.js is not among the sources.  [new Pot(game)]
    is an empty open pot. *)
Definition newPot (g : Game) : Pot :=
  mkPot true 0%Q 0%Q 0%Q [] (Pot_initialPotentialWinners g) [].

Definition resetPots : M unit :=
  modify (fun g => set_pots [newPot g] g).

(** [new PokerGame()]. *)
Definition constructor : Game :=
  let this := mkGame false (-1)%Q (-1)%Q (-1)%Q [] 0 0 0 0 0 [] (-1)%Z
                     [None; None; None; None; None] [] 0%Q 0%Q false in
  set_pots [newPot this] this.

(** ** Round-end detection *)

Definition noRaiseScenarioCounter (g : Game) : nat :=
  count_if
    (fun player =>
       if isAllIn player
          && (String.eqb (actionState player) "call"
              || String.eqb (actionState player) " ")
       then true
       else if String.eqb (actionState player) "call" && negb (isAllIn player)
       then forallb (playerIdxInPotentialWinners (id player))
                    (filter open (pots g))
       else if String.eqb (actionState player) "check"
       then forallb (fun p => String.eqb (actionState p) "check")
                    (filter inGame (players g))
       else false)
    (filter inGame (players g)).

Definition raiseScenarioCounter (g : Game) : nat :=
  count_if (fun player => String.eqb (actionState player) "raise")
           (filter inGame (players g)).

(** [this.players[i].actionState === tag]. *)
Definition actionStateIs (i : nat) (tag : string) (g : Game) : outcome bool :=
  match nth_error (players g) i with
  | None => Throw TypeError
  | Some p => Ret (String.eqb (actionState p) tag)
  end.

Definition isActionRound (event : string) (g : Game) : bool :=
  match actionRoundStr g with
  | Some s => String.eqb s event
  | None => false
  end.

Definition preFlopActionRoundEnded (g : Game) : outcome bool :=
  if isActionRound "pre-flop" g then
    if Qeq_bool (smallBlind g) (bigBlind g) then
      if forallb (fun player => String.eqb (actionState player) "call")
                 (filter (fun player =>
                            inGame player
                            && negb (Nat.eqb (id player) (bigBlindIdx g))
                            && negb (Nat.eqb (id player) (smallBlindIdx g)))
                         (players g))
      then
        match actionStateIs (smallBlindIdx g) "check" g with
        | Throw e => Throw e
        | Ret false => Ret false
        | Ret true => actionStateIs (bigBlindIdx g) "check" g
        end
      else Ret false
    else
      if forallb (fun player => String.eqb (actionState player) "call")
                 (filter (fun player =>
                            inGame player
                            && negb (Nat.eqb (id player) (bigBlindIdx g)))
                         (players g))
      then actionStateIs (bigBlindIdx g) "check" g
      else Ret false
  else Ret false.

Definition actionRoundEnded (g : Game) : outcome bool :=
  match preFlopActionRoundEnded g with
  | Throw e => Throw e
  | Ret true => Ret true
  | Ret false =>
      if Nat.eqb (noRaiseScenarioCounter g) (numPlayersInGame g) then Ret true
      else if Nat.eqb (raiseScenarioCounter g) 1 then
        match currentPlayer g with
        | None => Throw TypeError
        | Some p => Ret (String.eqb (actionState p) "raise")
        end
      else Ret false
  end.

Definition actionRoundEndedViaAllInScenario (g : Game) : outcome bool :=
  if initialized g then
    if Nat.eqb (allInPlayersCounter g) (numPlayersInGame g) then Ret true
    else if Z.eqb (Z.of_nat (allInPlayersCounter g))
                  (Z.of_nat (numPlayersInGame g) - 1)
    then
      match find (fun player => inGame player && negb (isAllIn player))
                 (players g) with
      | Some player =>
          Ret (forallb (playerIdxInPotentialWinners (id player)) (pots g))
      | None =>
          (* [player.id] is read once per pot *)
          match pots g with
          | [] => Ret true
          | _ :: _ => Throw TypeError
          end
      end
    else Ret false
  else Throw NotInitialized.

Definition dealerRoundEnded (g : Game) : bool :=
  let outOfGame :=
    count_if (fun player => String.eqb (actionState player) "fold"
                            || String.eqb (actionState player) "")
             (players g) in
  Z.eqb (Z.of_nat outOfGame) (Z.of_nat (totalPlayers g) - 1).

(** ** Pot organization *)

(** The condition under which [organizePotsAfterRoundEnded] goes on, with
    JavaScript's left-to-right evaluation of its guard. *)
Definition roundEnded (g : Game) : outcome bool :=
  if dealerRoundEnded g then Ret true
  else
    match actionRoundEndedViaAllInScenario g with
    | Throw e => Throw e
    | Ret true => Ret true
    | Ret false => actionRoundEnded g
    end.

(** The body of the [forEach] over the open pots. *)
Definition organizePot (g : Game) (pot : Pot) : Pot :=
  mkPot (if hasAllInPlayer g pot then false else open pot)
        (prevARsAmount pot + currARAmount pot)%Q
        0%Q
        0%Q
        []
        (potentialWinners pot)
        (winHandRanks pot).

Definition organizePotsAfterRoundEnded : M unit :=
  unless roundEnded
         (fun _ => Throw (Error "Round has not ended. Cannot organize pots.")) ;;;
  modify (fun g =>
            set_pots (map (fun pot => if open pot then organizePot g pot
                                      else pot) (pots g)) g).

(** ** Fold-out settlement *)

(** What the fold-out settlement returns: [{ winnerIdx, winnings }]. *)
Record DealerRoundInfo : Type := mkDealerRoundInfo {
  winnerIdx : nat;
  winnings : Q
}.

(** Index of the first element [find] would return. *)
Fixpoint findIndex {A : Type} (f : A -> bool) (l : list A) : option nat :=
  match l with
  | [] => None
  | x :: r => if f x then Some 0
              else match findIndex f r with
                   | Some i => Some (S i)
                   | None => None
                   end
  end.

(** [this.players[i].stack += amount]. *)
Definition addToStack (i : nat) (amount : Q) : M unit :=
  fun g =>
    match nth_error (players g) i with
    | None => (Throw TypeError, g)
    | Some _ =>
        (Ret tt,
         set_players
           (update_nth i (fun p => set_stack (stack p + amount)%Q p) (players g))
           g)
    end.

(** [this.pots.reduce((acc, pot) => acc + pot.prevARsAmount, 0)]. *)
Definition carriedAmount (l : list Pot) : Q :=
  fold_left (fun acc pot => (acc + prevARsAmount pot)%Q) l 0%Q.

Definition getDealerRoundInfoAndAssignWinnings : M DealerRoundInfo :=
  throwIfNotInitialized ;;;
  g <- get ;;
  if negb (dealerRoundEnded g) then throw (Error "Dealer round hasn't ended.")
  else
    let total := carriedAmount (pots g) in
    match findIndex inGame (players g), find inGame (players g) with
    | Some i, Some winner =>
        addToStack i total ;;;
        resetPots ;;;
        ret (mkDealerRoundInfo (id winner) total)
    | _, _ => throw TypeError
    end.

(** ** Action-round guards *)

Definition validateInActionRound (event : string) (errMsg : option string)
  : M unit :=
  throwIfNotInitialized ;;;
  g <- get ;;
  if negb (isActionRound event g)
  then throw (Error (match errMsg with
                     | Some m => m
                     | None => ("Cannot " ++ event ++ " at this point in the game.")%string
                     end))
  else ret tt.

Definition validateNotInActionRound (event : string) (errMsg : option string)
  : M unit :=
  throwIfNotInitialized ;;;
  g <- get ;;
  if isActionRound event g
  then throw (Error (match errMsg with
                     | Some m => m
                     | None => ("Cannot " ++ event ++ " at this point in the game.")%string
                     end))
  else ret tt.

(** ** Starting the next action round *)

Definition refreshAndIncActionRound : M (list nat) :=
  validateNotInActionRound "river"
    (Some ("Cannot refresh and increment action round consecutively more than 4"
           ++ "times without calling refreshDealerRound.")%string) ;;;
  validateNotInActionRound "uninitialized"
    (Some "Must call refreshDealerRound before calling refreshAndIncActionRound.") ;;;
  modify (fun g =>
            set_players
              (map (fun player =>
                      mkPlayer (id player) (cards player) (stack player) 0%Q
                               (inGame player) (isAllIn player) true ""
                               (showdownRank player))
                   (players g)) g) ;;;
  modify (fun g => set_betting 0%Q (bigBlind g) true g) ;;;
  modify (fun g => set_turnIdx (dealerIdx g) g) ;;;
  skipped <- incrementTurnToNextPlayerInGame ;;
  modify (fun g =>
            set_players
              (map (fun player => if inGame player
                                  then set_actionState " " player
                                  else player)
                   (players g)) g) ;;;
  modify (fun g => set_actionRound (actionRound g + 1)%Z g) ;;;
  ret skipped.

(** ** Showdown settlement *)

(** One entry of the array the showdown returns: [{ winnings, winners }]. *)
Record PotShowdownInfo : Type := mkPotShowdownInfo {
  potWinnings : number;
  winners : list nat
}.

(** [arr.map((x, idx) => f(idx, x))], counting from [k]. *)
Fixpoint mapi_from {A B : Type} (k : nat) (f : nat -> A -> B) (l : list A)
  : list B :=
  match l with
  | [] => []
  | x :: r => f k x :: mapi_from (S k) f r
  end.

(** The first [forEach]: every player in the game gets a rank. *)
Definition assignShowdownRanks : M unit :=
  modify (fun g =>
            set_players
              (mapi_from 0
                 (fun idx player =>
                    if inGame player
                    then set_showdownRank
                           (Some (mkShowdownRank
                                    (bestHandRank (board g ++ cards player))
                                    idx))
                           player
                    else player)
                 (players g)) g).

(** [ids.map((pIdx) => this.players[pIdx].showdownRank)]. *)
Fixpoint potShowdownRanks (g : Game) (ids : list nat)
  : outcome (list (option ShowdownRank)) :=
  match ids with
  | [] => Ret []
  | pIdx :: r =>
      match nth_error (players g) pIdx with
      | None => Throw TypeError
      | Some p =>
          match potShowdownRanks g r with
          | Throw e => Throw e
          | Ret l => Ret (showdownRank p :: l)
          end
      end
  end.

(** The second [forEach], at the pot of index [k]. *)
Definition assignWinHandRanks (k : nat) : M unit :=
  fun g =>
    match nth_error (pots g) k with
    | None => (Ret tt, g)
    | Some pot =>
        match potShowdownRanks g (potentialWinners pot) with
        | Throw e => (Throw e, g)
        | Ret ranks =>
            (Ret tt,
             set_pots (update_nth k (set_winHandRanks (pickBestHandRanks ranks))
                                  (pots g)) g)
        end
    end.

(** The third [forEach], at one pot: the share, and the credit of every
    winner.  The result object is returned for [result.push]. *)
Definition settlePot (pot : Pot) : M PotShowdownInfo :=
  let share := js_div (prevARsAmount pot) (List.length (winHandRanks pot)) in
  forEachM (fun r =>
              match share with
              | Num q => addToStack (playerIndex r) q
              | _ => ret tt (* no winner: this body is never entered *)
              end)
           (winHandRanks pot) ;;;
  ret (mkPotShowdownInfo share (map (@playerIndex) (winHandRanks pot))).

Fixpoint settlePots (l : list Pot) (result : list PotShowdownInfo)
  : M (list PotShowdownInfo) :=
  match l with
  | [] => ret result
  | pot :: r =>
      info <- settlePot pot ;;
      settlePots r (result ++ [info])
  end.

Definition getShowdownInfoAndAssignWinnings : M (list PotShowdownInfo) :=
  validateInActionRound "river" None ;;;
  _ <- read actionRoundEndedViaAllInScenario ;;
  assignShowdownRanks ;;;
  g <- get ;;
  forEachM assignWinHandRanks (seq 0 (List.length (pots g))) ;;;
  g <- get ;;
  result <- settlePots (pots g) [] ;;
  resetPots ;;;
  ret result.

(** ** Starting the next dealer round *)

(** [buildDeck]: values 2 to 14 in the four suits. *)
Definition buildDeck : M unit :=
  modify (set_deck
            (flat_map (fun i => [(i, "♠"); (i, "♣"); (i, "♦"); (i, "♥")])
                      (seq 2 13))).

(** [arr.splice(i, 1)]. *)
Fixpoint splice1 {A : Type} (i : nat) (l : list A) : list A :=
  match l, i with
  | [], _ => []
  | _ :: r, O => r
  | x :: r, S j => x :: splice1 j r
  end.

Definition set_card (k : nat) (c : option Card) (p : Player) : Player :=
  mkPlayer (id p) (update_nth k (fun _ => c) (cards p)) (stack p)
           (potCommitment p) (inGame p) (isAllIn p) (allowRaise p)
           (actionState p) (showdownRank p).

(** The body of the inner loop of [dealCards], for the player at seat [i]. *)
Definition dealCard (i k : nat) : M unit :=
  modify (fun g =>
            let randInt := randDeckIdx (deck g) in
            set_deck (splice1 randInt (deck g))
              (set_players
                 (update_nth i (set_card k (nth_error (deck g) randInt))
                             (players g)) g)).

(** The seats [this.players.filter((player) => player.inGame)] keeps. *)
Definition seatsInGame (g : Game) : list nat :=
  filter (fun i => match nth_error (players g) i with
                   | Some p => inGame p
                   | None => false
                   end)
         (seq 0 (totalPlayers g)).

Definition dealCards : M unit :=
  g <- get ;;
  forEachM (fun i => forEachM (dealCard i) (seq 0 NUM_CARDS_PER_PLAYER))
           (seatsInGame g).

(** [this.currentPlayer.actionState = tag]. *)
Definition setCurrentPlayerActionState (tag : string) : M unit :=
  fun g =>
    match currentPlayer g with
    | None => (Throw TypeError, g)
    | Some _ =>
        (Ret tt,
         set_players (update_nth (turnIdx g) (set_actionState tag) (players g))
                     g)
    end.

(** [this.currentPlayer.id]. *)
Definition currentPlayerId (g : Game) : outcome nat :=
  match currentPlayer g with
  | None => Throw TypeError
  | Some p => Ret (id p)
  end.

Definition postBlinds : M unit :=
  throwIfNotInitialized ;;;
  modify (set_minRaise 0%Q) ;;;
  modify (set_previousBet 0%Q) ;;;
  g <- get ;;
  onCurrentPlayer (Player_raise (smallBlind g)) ;;;
  setCurrentPlayerActionState "SB" ;;;
  i <- read currentPlayerId ;;
  modify (set_smallBlindIdx i) ;;;
  _ <- incrementTurnToNextPlayerInGame ;;
  modify (set_minRaise 0%Q) ;;;
  modify (set_previousBet 0%Q) ;;;
  g <- get ;;
  onCurrentPlayer (Player_raise (bigBlind g)) ;;;
  setCurrentPlayerActionState "BB" ;;;
  i <- read currentPlayerId ;;
  modify (set_bigBlindIdx i) ;;;
  _ <- incrementTurnToNextPlayerInGame ;;
  modify (fun g => set_minRaise (bigBlind g) g) ;;;
  modify (fun g => set_previousBet (bigBlind g) g) ;;;
  modify (set_allowCheck false).

(** The loop of [refreshDealerRound] that moves the dealer button, with [n]
    iterations left. *)
Fixpoint advanceDealer (n : nat) : M unit :=
  match n with
  | O => ret tt
  | S k =>
      modify (fun g => set_dealerIdx (dealerIdx g + 1) g) ;;;
      modify (fun g => set_dealerIdx (dealerIdx g mod totalPlayers g) g) ;;;
      g <- get ;;
      match nth_error (players g) (dealerIdx g) with
      | None => throw TypeError
      | Some p => if inGame p then ret tt else advanceDealer k
      end
  end.

(** Returns [gameEnded]. *)
Definition refreshDealerRound : M bool :=
  throwIfNotInitialized ;;;
  modify (set_actionRound 0%Z) ;;;
  resetPots ;;;
  modify (fun g =>
            set_players
              (map (fun player =>
                      mkPlayer (id player) [None; None] (stack player) 0%Q
                               (negb (Qeq_bool (stack player) 0
                                      || Qlt_bool (stack player) (bigBlind g)))
                               false true "" None)
                   (players g)) g) ;;;
  modify (set_board [None; None; None; None; None]) ;;;
  buildDeck ;;;
  dealCards ;;;
  g <- get ;;
  if Nat.leb (numPlayersInGame g) 1 then ret true
  else
    advanceDealer (totalPlayers g) ;;;
    modify (fun g => set_turnIdx (dealerIdx g) g) ;;;
    _ <- incrementTurnToNextPlayerInGame ;;
    postBlinds ;;;
    g <- get ;;
    match currentPlayer g with
    | None => throw TypeError
    | Some p =>
        (if String.eqb (actionState p) "SB"
            && Qeq_bool (smallBlind g) (bigBlind g)
         then modify (set_allowCheck true) else ret tt) ;;;
        ret false
    end.

(** ** The pre-flop option to check *)

Definition currentNonRaiseActionStates (g : Game) : nat :=
  count_if (fun player => negb (String.eqb (actionState player) "raise"))
           (players g).

Definition preflopAllowCheckForSBAndOrBB : M unit :=
  validateInActionRound "pre-flop" None ;;;
  g <- get ;;
  match currentPlayer g with
  | None => throw TypeError
  | Some p =>
      (if String.eqb (actionState p) "SB"
          && Qeq_bool (smallBlind g) (bigBlind g)
          && Nat.eqb (currentNonRaiseActionStates g) (totalPlayers g)
       then modify (set_allowCheck true) else ret tt) ;;;
      g <- get ;;
      match currentPlayer g with
      | None => throw TypeError
      | Some p =>
          if String.eqb (actionState p) "BB"
             && negb (Qeq_bool (smallBlind g) (bigBlind g))
             && Nat.eqb (currentNonRaiseActionStates g) (totalPlayers g)
          then modify (set_allowCheck true) else ret tt
      end
  end.

(** ** How the action round ended *)

(** Returns the [scenario] field of the object the source returns. *)
Definition getActionRoundInfo : M string :=
  throwIfNotInitialized ;;;
  ended <- read actionRoundEnded ;;
  if negb ended then throw (Error "Action round hasn't ended.")
  else
    pre <- read preFlopActionRoundEnded ;;
    g <- get ;;
    if pre || Nat.eqb (noRaiseScenarioCounter g) (numPlayersInGame g)
    then ret "no-raise"
    else ret "raise".

(** ** Burning a card *)

Definition burn : M unit :=
  validateNotInActionRound "pre-flop" None ;;;
  modify (fun g => set_deck (splice1 (randDeckIdx (deck g)) (deck g)) g).

End Engine.

(** * Seating with empty seats

    [addPlayerToPosition] writes [this.players[pos]] at any free index, so
    the array can have empty seats below its length: seating players at
    positions 0 and 2 leaves position 1 empty.  [Section Engine] describes
    the engine on a table whose seats are all occupied.  This module
    describes, on any table, the methods that look at the seats one by one:
    a seat is a player object or empty; [forEach], [filter], [reduce] and
    [every] skip the empty seats; [find] and [this.players[i]] read
    [undefined] there, and a property access on [undefined] raises a
    [TypeError]; [length] counts every seat.  The turn pointer is a number
    that becomes NaN when the table has no seat at all. *)

Module Sparse.

(** A seat index held in a JavaScript number: [i % 0] is NaN, and NaN stays
    NaN under [++] and [%]. *)
Inductive index : Type :=
| Idx (i : nat)
| NaNIdx.

(** [x++]. *)
Definition index_succ (x : index) : index :=
  match x with
  | Idx i => Idx (i + 1)
  | NaNIdx => NaNIdx
  end.

(** [x % n] for an array length [n]. *)
Definition index_mod (x : index) (n : nat) : index :=
  match x, n with
  | Idx _, O => NaNIdx
  | Idx i, S _ => Idx (i mod n)
  | NaNIdx, _ => NaNIdx
  end.

Section Table.

Variable HandRank : Type.

(** [constants.js]: the largest number of seats. *)
Variable MAX_PLAYERS_PER_GAME : nat.

(** A seat of [this.players]: a player object, or empty. *)
Definition Seat : Type := option (Player HandRank).

(** The fields of [PokerGame], as in [Section Engine], with seats that can
    be empty. *)
Record Game : Type := mkGame {
  initialized : bool;
  buyIn : Q;
  smallBlind : Q;
  bigBlind : Q;
  players : list Seat;
  dealerIdx : nat;
  smallBlindIdx : nat;
  bigBlindIdx : nat;
  turnIdx : index;
  numTurnIncrements : nat;
  pots : list (Pot HandRank);
  actionRound : Z;
  board : list (option Card);
  deck : list Card;
  minRaise : Q;
  previousBet : Q;
  allowCheck : bool
}.

(** ** Field updates *)

Definition set_players (v : list Seat) (g : Game) : Game :=
  mkGame (initialized g) (buyIn g) (smallBlind g) (bigBlind g) v
         (dealerIdx g) (smallBlindIdx g) (bigBlindIdx g) (turnIdx g)
         (numTurnIncrements g) (pots g) (actionRound g) (board g) (deck g)
         (minRaise g) (previousBet g) (allowCheck g).

Definition set_dealerIdx (v : nat) (g : Game) : Game :=
  mkGame (initialized g) (buyIn g) (smallBlind g) (bigBlind g) (players g)
         v (smallBlindIdx g) (bigBlindIdx g) (turnIdx g)
         (numTurnIncrements g) (pots g) (actionRound g) (board g) (deck g)
         (minRaise g) (previousBet g) (allowCheck g).

Definition set_turnIdx (v : index) (g : Game) : Game :=
  mkGame (initialized g) (buyIn g) (smallBlind g) (bigBlind g) (players g)
         (dealerIdx g) (smallBlindIdx g) (bigBlindIdx g) v
         (numTurnIncrements g) (pots g) (actionRound g) (board g) (deck g)
         (minRaise g) (previousBet g) (allowCheck g).

Definition set_numTurnIncrements (v : nat) (g : Game) : Game :=
  mkGame (initialized g) (buyIn g) (smallBlind g) (bigBlind g) (players g)
         (dealerIdx g) (smallBlindIdx g) (bigBlindIdx g) (turnIdx g)
         v (pots g) (actionRound g) (board g) (deck g)
         (minRaise g) (previousBet g) (allowCheck g).

Definition set_actionRound (v : Z) (g : Game) : Game :=
  mkGame (initialized g) (buyIn g) (smallBlind g) (bigBlind g) (players g)
         (dealerIdx g) (smallBlindIdx g) (bigBlindIdx g) (turnIdx g)
         (numTurnIncrements g) (pots g) v (board g) (deck g)
         (minRaise g) (previousBet g) (allowCheck g).

Definition set_allowCheck (v : bool) (g : Game) : Game :=
  mkGame (initialized g) (buyIn g) (smallBlind g) (bigBlind g) (players g)
         (dealerIdx g) (smallBlindIdx g) (bigBlindIdx g) (turnIdx g)
         (numTurnIncrements g) (pots g) (actionRound g) (board g) (deck g)
         (minRaise g) (previousBet g) v.

(** The betting variables [refreshAndIncActionRound] resets together. *)
Definition set_betting (prev minr : Q) (chk : bool) (g : Game) : Game :=
  mkGame (initialized g) (buyIn g) (smallBlind g) (bigBlind g) (players g)
         (dealerIdx g) (smallBlindIdx g) (bigBlindIdx g) (turnIdx g)
         (numTurnIncrements g) (pots g) (actionRound g) (board g) (deck g)
         minr prev chk.

(** ** The method monad *)

Definition M (A : Type) : Type := Game -> outcome A * Game.

Definition ret {A : Type} (a : A) : M A := fun g => (Ret a, g).

Definition throw {A : Type} (e : error) : M A := fun g => (Throw e, g).

Definition bind {A B : Type} (m : M A) (k : A -> M B) : M B :=
  fun g =>
    match m g with
    | (Ret a, g') => k a g'
    | (Throw e, g') => (Throw e, g')
    end.

Definition get : M Game := fun g => (Ret g, g).

Definition modify (f : Game -> Game) : M unit := fun g => (Ret tt, f g).

Notation "x <- m ;; k" := (bind m (fun x => k))
  (at level 61, m at next level, right associativity).
Notation "m ;;; k" := (bind m (fun _ => k))
  (at level 61, right associativity).

(** ** Reading the seats *)

Definition totalPlayers (g : Game) : nat := List.length (players g).

(** The player objects of an array of seats, in index order: what
    [forEach], [filter], [reduce] and [every] visit. *)
Fixpoint occupants (l : list Seat) : list (Player HandRank) :=
  match l with
  | [] => []
  | Some p :: r => p :: occupants r
  | None :: r => occupants r
  end.

(** [this.players[i]]; [None] is undefined: an empty seat, or an index
    outside of the array. *)
Definition seatAt (g : Game) (i : nat) : option (Player HandRank) :=
  match nth_error (players g) i with
  | Some s => s
  | None => None
  end.

Definition numPlayersInGame (g : Game) : nat :=
  count_if (@inGame HandRank) (occupants (players g)).

Definition currentPlayer (g : Game) : option (Player HandRank) :=
  match turnIdx g with
  | Idx i => seatAt g i
  | NaNIdx => None
  end.

Definition allInPlayersCounter (g : Game) : nat :=
  count_if (@isAllIn HandRank) (occupants (players g)).

Definition throwIfNotInitialized : M unit :=
  fun g => if initialized g then (Ret tt, g) else (Throw NotInitialized, g).

(** ** Seating *)

(** [arr[pos] = player]: a position past the end lengthens the array and
    leaves the positions in between empty. *)
Fixpoint assign (pos : nat) (player : Player HandRank) (l : list Seat)
  : list Seat :=
  match pos, l with
  | O, [] => [Some player]
  | O, _ :: r => Some player :: r
  | S k, [] => None :: assign k player []
  | S k, s :: r => s :: assign k player r
  end.

(** [`${n}`] for a count or a position. *)
Definition decimal (n : nat) : string :=
  NilEmpty.string_of_uint (Nat.to_uint n).

Definition addPlayerToPosition (player : Player HandRank) (pos : nat)
  : M unit :=
  g <- get ;;
  match seatAt g pos with
  | Some _ =>
      throw (Error ("Cannot add player. Player already sitting at position "
                    ++ decimal pos ++ ".")%string)
  | None =>
      if Nat.eqb (totalPlayers g) MAX_PLAYERS_PER_GAME
      then throw (Error ("Cannot add player. Already have max players ("
                         ++ decimal MAX_PLAYERS_PER_GAME ++ ").")%string)
      else modify (fun g => set_players (assign pos player (players g)) g)
  end.

(** ** Turn order *)

Definition incrementTurn : M unit :=
  throwIfNotInitialized ;;;
  modify (fun g => set_numTurnIncrements (numTurnIncrements g + 1) g) ;;;
  modify (fun g => set_turnIdx (index_succ (turnIdx g)) g) ;;;
  modify (fun g => set_turnIdx (index_mod (turnIdx g) (totalPlayers g)) g).

(** The [for] loop of [incrementTurnToNextPlayerInGame]: [n] iterations
    remain.  A skipped player object is modelled by the seat it sits at. *)
Fixpoint skipLoop (n : nat) (skipped : list nat) : M (list nat) :=
  match n with
  | O => ret skipped
  | S k =>
      g <- get ;;
      match turnIdx g, currentPlayer g with
      | Idx t, Some p =>
          if negb (inGame p) || isAllIn p
          then incrementTurn ;;; skipLoop k (skipped ++ [t])
          else ret skipped
      | _, _ => throw TypeError
      end
  end.

Definition incrementTurnToNextPlayerInGame : M (list nat) :=
  throwIfNotInitialized ;;;
  incrementTurn ;;;
  g <- get ;;
  skipLoop (totalPlayers g) [].

(** The loop of [refreshDealerRound] that moves the dealer button, with [n]
    iterations left.  The loop runs at most [totalPlayers] times, so its body
    is only entered on a table with a seat and [%] never divides by zero. *)
Fixpoint advanceDealer (n : nat) : M unit :=
  match n with
  | O => ret tt
  | S k =>
      modify (fun g => set_dealerIdx (dealerIdx g + 1) g) ;;;
      modify (fun g => set_dealerIdx (dealerIdx g mod totalPlayers g) g) ;;;
      g <- get ;;
      match seatAt g (dealerIdx g) with
      | None => throw TypeError
      | Some p => if inGame p then ret tt else advanceDealer k
      end
  end.

(** ** Legality of a call *)

(** The [for] loop of [canCurrentPlayerCall]: [this.players[i].actionState]
    is read at every index below the length. *)
Fixpoint raiseCounter (l : list Seat) (counter : nat) : outcome nat :=
  match l with
  | [] => Ret counter
  | None :: _ => Throw TypeError
  | Some p :: r =>
      raiseCounter r (if String.eqb (actionState p) "raise"
                         || String.eqb (actionState p) "SB"
                      then counter + 1 else counter)
  end.

Definition canCurrentPlayerCall (g : Game) : outcome bool :=
  if initialized g then
    match raiseCounter (players g) 0 with
    | Throw e => Throw e
    | Ret counter =>
        if Nat.eqb counter 0 then Ret false
        else
          match currentPlayer g with
          | None => Throw TypeError
          | Some p =>
              if String.eqb (actionState p) "SB"
                 && Qeq_bool (smallBlind g) (bigBlind g)
              then Ret false else Ret true
          end
    end
  else Throw NotInitialized.

(** ** Action-round guards *)

Definition isActionRound (event : string) (g : Game) : bool :=
  match ACTION_ROUNDS (actionRound g) with
  | Some s => String.eqb s event
  | None => false
  end.

Definition validateInActionRound (event : string) (errMsg : option string)
  : M unit :=
  throwIfNotInitialized ;;;
  g <- get ;;
  if negb (isActionRound event g)
  then throw (Error (match errMsg with
                     | Some m => m
                     | None => ("Cannot " ++ event ++ " at this point in the game.")%string
                     end))
  else ret tt.

Definition validateNotInActionRound (event : string) (errMsg : option string)
  : M unit :=
  throwIfNotInitialized ;;;
  g <- get ;;
  if isActionRound event g
  then throw (Error (match errMsg with
                     | Some m => m
                     | None => ("Cannot " ++ event ++ " at this point in the game.")%string
                     end))
  else ret tt.

(** ** The pre-flop option to check *)

Definition currentNonRaiseActionStates (g : Game) : nat :=
  count_if (fun player => negb (String.eqb (actionState player) "raise"))
           (occupants (players g)).

Definition preflopAllowCheckForSBAndOrBB : M unit :=
  validateInActionRound "pre-flop" None ;;;
  g <- get ;;
  match currentPlayer g with
  | None => throw TypeError
  | Some p =>
      (if String.eqb (actionState p) "SB"
          && Qeq_bool (smallBlind g) (bigBlind g)
          && Nat.eqb (currentNonRaiseActionStates g) (totalPlayers g)
       then modify (set_allowCheck true) else ret tt) ;;;
      g <- get ;;
      match currentPlayer g with
      | None => throw TypeError
      | Some p =>
          if String.eqb (actionState p) "BB"
             && negb (Qeq_bool (smallBlind g) (bigBlind g))
             && Nat.eqb (currentNonRaiseActionStates g) (totalPlayers g)
          then modify (set_allowCheck true) else ret tt
      end
  end.

(** ** Round-end detection *)

Definition noRaiseScenarioCounter (g : Game) : nat :=
  count_if
    (fun player =>
       if isAllIn player
          && (String.eqb (actionState player) "call"
              || String.eqb (actionState player) " ")
       then true
       else if String.eqb (actionState player) "call" && negb (isAllIn player)
       then forallb (playerIdxInPotentialWinners (id player))
                    (filter (@open HandRank) (pots g))
       else if String.eqb (actionState player) "check"
       then forallb (fun p => String.eqb (actionState p) "check")
                    (filter (@inGame HandRank) (occupants (players g)))
       else false)
    (filter (@inGame HandRank) (occupants (players g))).

Definition raiseScenarioCounter (g : Game) : nat :=
  count_if (fun player => String.eqb (actionState player) "raise")
           (filter (@inGame HandRank) (occupants (players g))).

(** [this.players[i].actionState === tag]. *)
Definition actionStateIs (i : nat) (tag : string) (g : Game) : outcome bool :=
  match seatAt g i with
  | None => Throw TypeError
  | Some p => Ret (String.eqb (actionState p) tag)
  end.

Definition preFlopActionRoundEnded (g : Game) : outcome bool :=
  if isActionRound "pre-flop" g then
    if Qeq_bool (smallBlind g) (bigBlind g) then
      if forallb (fun player => String.eqb (actionState player) "call")
                 (filter (fun player =>
                            inGame player
                            && negb (Nat.eqb (id player) (bigBlindIdx g))
                            && negb (Nat.eqb (id player) (smallBlindIdx g)))
                         (occupants (players g)))
      then
        match actionStateIs (smallBlindIdx g) "check" g with
        | Throw e => Throw e
        | Ret false => Ret false
        | Ret true => actionStateIs (bigBlindIdx g) "check" g
        end
      else Ret false
    else
      if forallb (fun player => String.eqb (actionState player) "call")
                 (filter (fun player =>
                            inGame player
                            && negb (Nat.eqb (id player) (bigBlindIdx g)))
                         (occupants (players g)))
      then actionStateIs (bigBlindIdx g) "check" g
      else Ret false
  else Ret false.

Definition actionRoundEnded (g : Game) : outcome bool :=
  match preFlopActionRoundEnded g with
  | Throw e => Throw e
  | Ret true => Ret true
  | Ret false =>
      if Nat.eqb (noRaiseScenarioCounter g) (numPlayersInGame g) then Ret true
      else if Nat.eqb (raiseScenarioCounter g) 1 then
        match currentPlayer g with
        | None => Throw TypeError
        | Some p => Ret (String.eqb (actionState p) "raise")
        end
      else Ret false
  end.

(** [this.players.find(f)] for a callback that reads a property of its
    argument: every index below the length is visited, and an empty seat is
    passed as [undefined]. *)
Fixpoint find (f : Player HandRank -> bool) (l : list Seat)
  : outcome (option (Player HandRank)) :=
  match l with
  | [] => Ret None
  | None :: _ => Throw TypeError
  | Some p :: r => if f p then Ret (Some p) else find f r
  end.

Definition actionRoundEndedViaAllInScenario (g : Game) : outcome bool :=
  if initialized g then
    if Nat.eqb (allInPlayersCounter g) (numPlayersInGame g) then Ret true
    else if Z.eqb (Z.of_nat (allInPlayersCounter g))
                  (Z.of_nat (numPlayersInGame g) - 1)
    then
      match find (fun player => inGame player && negb (isAllIn player))
                 (players g) with
      | Throw e => Throw e
      | Ret (Some player) =>
          Ret (forallb (playerIdxInPotentialWinners (id player)) (pots g))
      | Ret None =>
          (* [player.id] is read once per pot *)
          match pots g with
          | [] => Ret true
          | _ :: _ => Throw TypeError
          end
      end
    else Ret false
  else Throw NotInitialized.

Definition dealerRoundEnded (g : Game) : bool :=
  let outOfGame :=
    count_if (fun player => String.eqb (actionState player) "fold"
                            || String.eqb (actionState player) "")
             (occupants (players g)) in
  Z.eqb (Z.of_nat outOfGame) (Z.of_nat (totalPlayers g) - 1).

(** ** Starting the next action round *)

Definition refreshAndIncActionRound : M (list nat) :=
  validateNotInActionRound "river"
    (Some ("Cannot refresh and increment action round consecutively more than 4"
           ++ "times without calling refreshDealerRound.")%string) ;;;
  validateNotInActionRound "uninitialized"
    (Some "Must call refreshDealerRound before calling refreshAndIncActionRound.") ;;;
  modify (fun g =>
            set_players
              (map (option_map
                      (fun player =>
                         mkPlayer (id player) (cards player) (stack player) 0%Q
                                  (inGame player) (isAllIn player) true ""
                                  (showdownRank player)))
                   (players g)) g) ;;;
  modify (fun g => set_betting 0%Q (bigBlind g) true g) ;;;
  modify (fun g => set_turnIdx (Idx (dealerIdx g)) g) ;;;
  skipped <- incrementTurnToNextPlayerInGame ;;
  modify (fun g =>
            set_players
              (map (option_map
                      (fun player => if inGame player
                                     then set_actionState " " player
                                     else player))
                   (players g)) g) ;;;
  modify (fun g => set_actionRound (actionRound g + 1)%Z g) ;;;
  ret skipped.

(** ** What a seat is to the loops *)

(** An occupied seat that can still bet: in the hand and not all-in. *)
Definition activeSeat (g : Game) (i : nat) : bool :=
  match seatAt g i with
  | Some p => inGame p && negb (isAllIn p)
  | None => false
  end.

(** An occupied seat the turn passes over: out of the hand or all-in. *)
Definition passedSeat (g : Game) (i : nat) : bool :=
  match seatAt g i with
  | Some p => negb (inGame p) || isAllIn p
  | None => false
  end.

(** An occupied seat that is in the hand. *)
Definition inHandSeat (g : Game) (i : nat) : bool :=
  match seatAt g i with
  | Some p => inGame p
  | None => false
  end.

(** An occupied seat that is out of the hand. *)
Definition outOfHandSeat (g : Game) (i : nat) : bool :=
  match seatAt g i with
  | Some p => negb (inGame p)
  | None => false
  end.

(** No seat below the length is empty. *)
Definition noEmptySeat (g : Game) : bool :=
  forallb (fun s : Seat => match s with Some _ => true | None => false end)
          (players g).

(** The game after the turn pointer moved to seat [t] in [c] more
    increments. *)
Definition turned (g : Game) (t c : nat) : Game :=
  set_turnIdx (Idx t) (set_numTurnIncrements (numTurnIncrements g + c) g).

End Table.

End Sparse.

(** The table of [Section Engine] among the tables with empty seats: every
    seat is occupied and the turn pointer is a seat index. *)
Definition fullTable {HandRank : Type} (g : Game HandRank)
  : Sparse.Game HandRank :=
  Sparse.mkGame (initialized g) (buyIn g) (smallBlind g) (bigBlind g)
                (map Some (players g)) (dealerIdx g) (smallBlindIdx g)
                (bigBlindIdx g) (Sparse.Idx (turnIdx g)) (numTurnIncrements g)
                (pots g) (actionRound g) (board g) (deck g) (minRaise g)
                (previousBet g) (allowCheck g).

(** * A concrete table

    Collaborators and game states used to run the engine on concrete inputs:
    a high-card hand ranker, a player that keeps its chips in the first pot,
    and a few tables. *)

Module Demo.

(** The rank of seven cards: the highest card value present. *)
Definition bestHandRank (sevenCards : list (option Card)) : nat :=
  fold_left (fun best c => match c with
                           | Some (v, _) => Nat.max best v
                           | None => best
                           end) sevenCards 0.

(** The ranks tied for the highest value, in the order given. *)
Definition pickBestHandRanks (ranks : list (option (ShowdownRank nat)))
  : list (ShowdownRank nat) :=
  let present := flat_map (fun r => match r with
                                    | Some x => [x]
                                    | None => []
                                    end) ranks in
  let best := fold_left Nat.max (map (@rank nat) present) 0 in
  filter (fun r => Nat.eqb (rank r) best) present.

Definition MAX_BUYIN_IN_CENTS : Q := 100000000%Q.

(** A fresh pot is open to every seat in the hand. *)
Definition initialPotentialWinners (g : Game nat) : list nat :=
  map (@id nat) (filter (@inGame nat) (players g)).

Definition updatePlayer (i : nat) (f : Player nat -> Player nat) (g : Game nat)
  : Game nat :=
  set_players (update_nth i f (players g)) g.

(** Seat [i] moves [a] cents from its stack to the first pot. *)
Definition commit (a : Q) (i : nat) (g : Game nat) : Game nat :=
  match nth_error (players g) i, pots g with
  | Some _, pot :: rest =>
      set_pots
        (mkPot (open pot) (prevARsAmount pot) (currARAmount pot + a)%Q
               (playerCommitment pot) (history pot) (potentialWinners pot)
               (winHandRanks pot) :: rest)
        (updatePlayer i
           (fun p => mkPlayer (id p) (cards p) (stack p - a)%Q
                              (potCommitment p + a)%Q (inGame p) (isAllIn p)
                              (allowRaise p) (actionState p) (showdownRank p))
           g)
  | _, _ => g
  end.

Definition stackAt (i : nat) (g : Game nat) : Q :=
  match nth_error (players g) i with
  | Some p => stack p
  | None => 0%Q
  end.

Definition commitmentAt (i : nat) (g : Game nat) : Q :=
  match nth_error (players g) i with
  | Some p => potCommitment p
  | None => 0%Q
  end.

Definition Player_check (i : nat) (g : Game nat) : outcome unit * Game nat :=
  (Ret tt, updatePlayer i (set_actionState "check") g).

Definition Player_fold (i : nat) (g : Game nat) : outcome unit * Game nat :=
  (Ret tt,
   updatePlayer i
     (fun p => mkPlayer (id p) (cards p) (stack p) (potCommitment p) false
                        (isAllIn p) (allowRaise p) "fold" (showdownRank p))
     g).

Definition Player_call (i : nat) (g : Game nat) : outcome unit * Game nat :=
  let owed := (previousBet g - commitmentAt i g)%Q in
  let a := if Qle_bool owed (stackAt i g) then owed else stackAt i g in
  (Ret tt, updatePlayer i (set_actionState "call") (commit a i g)).

Definition Player_raise (cents : Q) (i : nat) (g : Game nat)
  : outcome unit * Game nat :=
  let g1 := commit (cents - commitmentAt i g)%Q i g in
  (Ret tt,
   set_betting cents (cents - previousBet g)%Q false
     (updatePlayer i (set_actionState "raise") g1)).

Definition Player_allIn (i : nat) (g : Game nat) : outcome unit * Game nat :=
  (Ret tt,
   updatePlayer i
     (fun p => mkPlayer (id p) (cards p) (stack p) (potCommitment p) (inGame p)
                        true (allowRaise p) "call" (showdownRank p))
     (commit (stackAt i g) i g)).

(** A seat holding no cards. *)
Definition seat (i : nat) (chips committed : Q) (inHand allIn : bool)
           (tag : string) : Player nat :=
  mkPlayer i [None; None] chips committed inHand allIn true tag None.

(** A seat holding two cards. *)
Definition hand (i : nat) (chips : Q) (c1 c2 : Card) (tag : string)
  : Player nat :=
  mkPlayer i [Some c1; Some c2] chips 0%Q true false true tag None.

Definition pot (isOpen : bool) (carried current : Q) (eligible : list nat)
  : Pot nat :=
  mkPot isOpen carried current 0%Q [] eligible [].

(** An initialized table: buy-in 100.00, blinds 1.00 and 2.00, previous bet
    and minimum raise 2.00, five board cards. *)
Definition table (seats : list (Player nat)) (ledger : list (Pot nat))
           (round : Z) (turn : nat) : Game nat :=
  mkGame true 10000%Q 100%Q 200%Q seats 0 1 2 turn 0 ledger round
         [Some (2, "s"); Some (5, "h"); Some (7, "d"); Some (9, "c"); Some (3, "s")]
         [] 200%Q 200%Q false.

(** A new game after [setBuyIn(10000)], [setSmallBlind(100)] and
    [setBigBlind(200)]. *)
Definition configured : Game nat :=
  snd (setBigBlind 200
         (snd (setSmallBlind 100
                 (snd (setBuyIn MAX_BUYIN_IN_CENTS 10000
                                (constructor initialPotentialWinners)))))).

(** A table before its first hand, as the constructor, the three setters and
    two seatings leave it: nothing bet, no round yet. *)
Definition seated : Game nat :=
  mkGame true 10000%Q 100%Q 200%Q
         [seat 0 10000 0 true false ""; seat 1 10000 0 true false ""]
         0 0 0 0 0 [pot true 0 0 []] (-1)
         [None; None; None; None; None] [] 0%Q 0%Q false.

(** Pre-flop, blinds posted by seats 1 and 2, and seats 3, 0 and 1 have
    folded, seat 1 last: the 3.00 of blinds are this round's commitments and
    the turn pointer is still on seat 1. *)
Definition foldedOut : Game nat :=
  table [seat 0 10000 0 false false "fold";
         seat 1 9900 100 false false "fold";
         seat 2 9800 200 true false "BB";
         seat 3 10000 0 false false "fold"]
        [pot true 0 300 [2]] 0 1.

(** The same table once its pot has been organized. *)
Definition foldedOutOrganized : Game nat :=
  table [seat 0 10000 0 false false "fold";
         seat 1 9900 100 false false "fold";
         seat 2 9800 200 true false "BB";
         seat 3 10000 0 false false "fold"]
        [pot true 300 0 [2]] 0 1.

(** Seat 0 is all-in and seat 1 is not; the closed pot is open to seat 0
    only, the open pot to both. *)
Definition sidePot : Game nat :=
  table [seat 0 0 1000 true true "call"; seat 1 8500 1500 true false "raise"]
        [pot false 2000 0 [0]; pot true 0 500 [0; 1]] 1 0.

(** River, 4.00 carried over from the earlier rounds; seat 0 has raised to
    2.00 and seat 1, holding the turn, has not answered yet. *)
Definition riverBetting : Game nat :=
  table [hand 0 9600 (14, "h") (4, "c") "raise";
         hand 1 9800 (13, "d") (6, "s") " "]
        [pot true 400 200 [0; 1]] 3 1.

(** River, betting over (both seats checked), 6.00 carried over; seat 0
    holds the ace. *)
Definition riverShowdown : Game nat :=
  table [hand 0 9700 (14, "h") (4, "c") "check";
         hand 1 9700 (13, "d") (6, "s") "check"]
        [pot true 600 0 [0; 1]] 3 0.


(** Flop, betting over: both seats called a bet of 2.00. *)
Definition flopCalled : Game nat :=
  table [seat 0 9600 200 true false "call"; seat 1 9600 200 true false "raise"]
        [pot true 400 400 [0; 1]] 1 1.

(** The draw that always takes the top card of the deck. *)
Definition randDeckIdx (deck : list Card) : nat := 0.

(** Between two hands: the pot has been paid out to seat 2. *)
Definition afterHand : Game nat :=
  table [seat 0 10000 0 false false "fold";
         seat 1 9900 100 false false "fold";
         seat 2 10100 200 true false "BB";
         seat 3 10000 0 false false "fold"]
        [pot true 0 0 [2]] 0 1.

(** Four seats; seat 1 has folded, seat 2 is all-in; seat 0 holds the turn. *)
Definition fourSeats : Game nat :=
  table [seat 0 9800 200 true false "raise";
         seat 1 9900 100 false false "fold";
         seat 2 0 10000 true true "call";
         seat 3 10000 0 true false ""]
        [pot true 0 10300 [0; 2; 3]] 0 0.

End Demo.

(** * Concrete tables with empty seats *)

Module SparseDemo.

(** Modelled from the spec: constants.js is not among the sources.  The
    capacity is a maximum seat count; nine seats are taken here. *)
Definition MAX_PLAYERS_PER_GAME : nat := 9.

(** A player with 100.00 that is in the hand and has bet nothing. *)
Definition newcomer (i : nat) : Player nat :=
  Demo.seat i 10000 0 true false "".

(** The table [addPlayerToPosition(player, pos)] leaves behind. *)
Definition seatPlayer (player : Player nat) (pos : nat) (g : Sparse.Game nat)
  : Sparse.Game nat :=
  snd (Sparse.addPlayerToPosition MAX_PLAYERS_PER_GAME player pos g).

(** The configured game of [Demo] after [addPlayerToPosition(p0, 0)] and
    [addPlayerToPosition(p2, 2)]: seat 1 is empty. *)
Definition gap : Sparse.Game nat :=
  seatPlayer (newcomer 2) 2 (seatPlayer (newcomer 0) 0 (fullTable Demo.configured)).

(** The configured game of [Demo] after [addPlayerToPosition] at positions
    0, 1 and 3: seat 2 is empty. *)
Definition seatTwoFree : Sparse.Game nat :=
  seatPlayer (newcomer 3) 3
    (seatPlayer (newcomer 1) 1
       (seatPlayer (newcomer 0) 0 (fullTable Demo.configured))).

(** That table where [refreshDealerRound] calls
    [incrementTurnToNextPlayerInGame]: the three players are in the hand,
    the dealer loop has moved the button from seat 0 to seat 1 and the turn
    has been set to the dealer.  The cards and the deck, which the advance
    does not read, are left as they were. *)
Definition seatTwoFreeDealt : Sparse.Game nat :=
  Sparse.set_turnIdx (Sparse.Idx 1)
    (Sparse.set_actionRound 0%Z
       (snd (Sparse.advanceDealer 4 seatTwoFree))).

(** The configured game of [Demo] after [addPlayerToPosition(p1, 1)] alone:
    seat 0 is empty. *)
Definition lateSeat : Sparse.Game nat :=
  seatPlayer (newcomer 1) 1 (fullTable Demo.configured).

(** An initialized table: buy-in 100.00, blinds 1.00 and 2.00, previous bet
    and minimum raise 2.00, five board cards. *)
Definition table (seats : list (Sparse.Seat nat)) (ledger : list (Pot nat))
           (round : Z) (dealer turn : nat) : Sparse.Game nat :=
  Sparse.mkGame true 10000%Q 100%Q 200%Q seats dealer 1 2 (Sparse.Idx turn) 0
                ledger round
                [Some (2, "s"); Some (5, "h"); Some (7, "d"); Some (9, "c");
                 Some (3, "s")]
                [] 200%Q 200%Q false.

(** Seat 0 is empty and seat 1 is the only seat in the hand; the pot is open
    to [eligible]. *)
Definition oneSeatTaken (eligible : list nat) : Sparse.Game nat :=
  table [None; Some (newcomer 1)] [Demo.pot true 0 0 eligible] 0 0 0.

(** Flop, betting over, seat 1 between the two players is empty; the dealer
    is seat 0. *)
Definition flopGap : Sparse.Game nat :=
  table [Some (Demo.seat 0 9600 200 true false "call"); None;
         Some (Demo.seat 2 9600 200 true false "raise")]
        [Demo.pot true 400 400 [0; 2]] 1 0 2.

(** Flop, betting over: seat 0 is empty, seat 1 is in the hand and seat 2
    has folded; the dealer is seat 0. *)
Definition flopOneLeft : Sparse.Game nat :=
  table [None;
         Some (Demo.seat 1 9600 200 true false "raise");
         Some (Demo.seat 2 9800 200 false false "fold")]
        [Demo.pot true 400 400 [1]] 1 0 1.

(** Pre-flop, blinds of 1.00 and 2.00 posted by seats 1 and 2, seat 0 has
    called and the turn is back on the big blind. *)
Definition preflopOption : Sparse.Game nat :=
  table [Some (Demo.seat 0 9800 200 true false "call");
         Some (Demo.seat 1 9800 200 true false "call");
         Some (Demo.seat 2 9800 200 true false "BB")]
        [Demo.pot true 0 600 [0; 1; 2]] 0 0 2.

(** The same with an empty seat 3 below the length of the table: a fourth
    seat 4 is taken by a player that is out of the hand. *)
Definition preflopOptionGap : Sparse.Game nat :=
  table [Some (Demo.seat 0 9800 200 true false "call");
         Some (Demo.seat 1 9800 200 true false "call");
         Some (Demo.seat 2 9800 200 true false "BB");
         None;
         Some (Demo.seat 4 10000 0 false false "")]
        [Demo.pot true 0 600 [0; 1; 2]] 0 0 2.

(** Seat 0 is empty; seat 1 has called. *)
Definition oneCaller : Sparse.Game nat :=
  table [None; Some (Demo.seat 1 9800 200 true false "call")]
        [Demo.pot true 0 200 [1]] 0 0 1.

End SparseDemo.

(** * Properties *)

Section TurnOrder.

Context {HandRank : Type}.
Implicit Types (g : Game HandRank) (p : Player HandRank).

(** The game after the turn pointer moved to [t] in [c] more increments. *)
Definition turned g (t c : nat) : Game HandRank :=
  set_turnIdx t (set_numTurnIncrements (numTurnIncrements g + c) g).

Lemma incrementTurn_eq g :
  initialized g = true ->
  incrementTurn g
  = (Ret tt, turned g ((turnIdx g + 1) mod totalPlayers g) 1).
Proof.
  intros Hi. unfold incrementTurn, bind, throwIfNotInitialized, modify.
  rewrite Hi. reflexivity.
Qed.

Lemma first_true (f : nat -> bool) :
  forall k0, f k0 = true ->
  exists k, k <= k0 /\ f k = true /\ forall j, j < k -> f j = false.
Proof.
  intros k0. revert f. induction k0 as [|k0 IH]; intros f Hf.
  - exists 0. repeat split; [lia | assumption | intros j Hj; lia].
  - destruct (f 0) eqn:H0.
    + exists 0. repeat split; [lia | assumption | intros j Hj; lia].
    + destruct (IH (fun j => f (S j)) Hf) as (k & Hk & Hfk & Hlt).
      exists (S k). repeat split; [lia | assumption |].
      intros [|j] Hj; [assumption | apply Hlt; lia].
Qed.

Lemma incrementTurn_players g : players (snd (incrementTurn g)) = players g.
Proof.
  unfold incrementTurn, bind, throwIfNotInitialized, modify.
  destruct (initialized g); reflexivity.
Qed.

(** Advancing the turn touches the turn pointer and its counter only. *)
Lemma incrementTurn_frame g :
  exists t c, snd (incrementTurn g) = set_turnIdx t (set_numTurnIncrements c g).
Proof.
  unfold incrementTurn, bind, throwIfNotInitialized, modify.
  destruct (initialized g) eqn:Hi.
  - eexists _, _. reflexivity.
  - exists (turnIdx g), (numTurnIncrements g). destruct g; reflexivity.
Qed.

Lemma skipLoop_frame :
  forall m acc g,
  exists t c, snd (skipLoop m acc g) = set_turnIdx t (set_numTurnIncrements c g).
Proof.
  induction m as [|m IH]; intros acc g.
  - exists (turnIdx g), (numTurnIncrements g). destruct g; reflexivity.
  - cbn [skipLoop]. unfold bind at 1. unfold get.
    destruct (currentPlayer g) as [p|];
      [|exists (turnIdx g), (numTurnIncrements g); destruct g; reflexivity].
    destruct (negb (inGame p) || isAllIn p);
      [|exists (turnIdx g), (numTurnIncrements g); destruct g; reflexivity].
    unfold bind. destruct (incrementTurn_frame g) as (t & c & Hf).
    destruct (incrementTurn g) as [[[]|e] g1]; cbn [snd] in Hf; subst g1.
    + destruct (IH (acc ++ [turnIdx g])
                   (set_turnIdx t (set_numTurnIncrements c g)))
        as (t' & c' & Hf').
      rewrite Hf'. exists t', c'. reflexivity.
    + exists t, c. reflexivity.
Qed.

Lemma incrementTurnToNextPlayerInGame_frame g :
  exists t c,
    snd (incrementTurnToNextPlayerInGame g)
    = set_turnIdx t (set_numTurnIncrements c g).
Proof.
  unfold incrementTurnToNextPlayerInGame, bind.
  unfold throwIfNotInitialized at 1.
  destruct (initialized g);
    [|exists (turnIdx g), (numTurnIncrements g); destruct g; reflexivity].
  destruct (incrementTurn_frame g) as (t & c & Hf).
  destruct (incrementTurn g) as [[[]|e] g1]; cbn [snd] in Hf; subst g1.
  - unfold get.
    destruct (skipLoop_frame
                (totalPlayers (set_turnIdx t (set_numTurnIncrements c g))) []
                (set_turnIdx t (set_numTurnIncrements c g)))
      as (t' & c' & Hf').
    rewrite Hf'. exists t', c'. reflexivity.
  - exists t, c. reflexivity.
Qed.

End TurnOrder.

(** ** Arithmetic of amounts *)

Lemma Qlt_bool_iff (a b : Q) : Qlt_bool a b = true <-> (a < b)%Q.
Proof.
  unfold Qlt_bool. rewrite negb_true_iff. split.
  - intros H. apply Qnot_le_lt. intros Hle. apply Qle_bool_iff in Hle.
    congruence.
  - intros H. destruct (Qle_bool b a) eqn:E; [|reflexivity].
    apply Qle_bool_iff in E. exfalso. apply (Qlt_not_le _ _ H E).
Qed.

Lemma Qlt_bool_false_iff (a b : Q) : Qlt_bool a b = false <-> (b <= a)%Q.
Proof.
  unfold Qlt_bool. rewrite negb_false_iff. apply Qle_bool_iff.
Qed.

Lemma Qeq_bool_false_iff (a b : Q) : Qeq_bool a b = false <-> ~ (a == b)%Q.
Proof.
  rewrite <- Qeq_bool_iff. destruct (Qeq_bool a b); split; congruence.
Qed.

Lemma Qtrunc_inject (q : Q) (k : Z) : (q == inject_Z k)%Q -> Qtrunc q = k.
Proof.
  unfold Qeq, Qtrunc. cbn. intros H. rewrite Z.mul_1_r in H. rewrite H.
  apply Z.quot_mul. discriminate.
Qed.

(** [a] is a whole multiple of [b]. *)
Definition multipleOf (b a : Q) : Prop :=
  exists k : Z, (a == inject_Z k * b)%Q.

Lemma rem_nonzero_false (a b : Q) :
  ~ (b == 0)%Q -> (rem_nonzero a b = false <-> multipleOf b a).
Proof.
  intros Hb. unfold rem_nonzero, js_rem.
  destruct (Qeq_bool b 0) eqn:E; [apply Qeq_bool_iff in E; contradiction|].
  rewrite negb_false_iff, Qeq_bool_iff. split.
  - intros H. exists (Qtrunc (a / b)). lra.
  - intros [k Hk]. assert (Hq : (a / b == inject_Z k)%Q).
    { rewrite Hk. field. exact Hb. }
    apply Qtrunc_inject in Hq. rewrite Hq. lra.
Qed.

Section Setup.

Context {HandRank : Type}.
Variable MAX_BUYIN_IN_CENTS : Q.
Implicit Types (g : Game HandRank).

(** The small blind is unset or positive, and positive once the game is
    initialized. *)
Definition smallBlindSet g : Prop :=
  ((smallBlind g == -1)%Q \/ (0 < smallBlind g)%Q)
  /\ (initialized g = true -> (0 < smallBlind g)%Q).

Lemma constructor_smallBlindSet (Pw : Game HandRank -> list nat) :
  smallBlindSet (constructor Pw).
Proof.
  split; [left; reflexivity | discriminate].
Qed.

(** The three setters keep it so. *)
Lemma setters_smallBlindSet g (val : Q) :
  smallBlindSet g ->
  smallBlindSet (snd (setBuyIn MAX_BUYIN_IN_CENTS val g))
  /\ smallBlindSet (snd (setSmallBlind val g))
  /\ smallBlindSet (snd (setBigBlind val g)).
Proof.
  intros [Hset Hinit]. split; [|split].
  - unfold setBuyIn.
    destruct (Qlt_bool val 1 || Qlt_bool MAX_BUYIN_IN_CENTS val);
      split; assumption.
  - unfold setSmallBlind.
    destruct (Qle_bool val 0) eqn:Epos; [split; assumption|].
    destruct (Qeq_bool (buyIn g) (-1)); [split; assumption|].
    destruct (Qlt_bool (buyIn g / 20) val); [split; assumption|].
    assert (Hpos : (0 < val)%Q).
    { apply Qlt_bool_iff. unfold Qlt_bool. rewrite Epos. reflexivity. }
    split; [right; exact Hpos | intros _; exact Hpos].
  - unfold setBigBlind.
    destruct (Qeq_bool (smallBlind g) (-1)) eqn:Eunset; [split; assumption|].
    destruct (Qlt_bool val (smallBlind g)); [split; assumption|].
    destruct (rem_nonzero val (smallBlind g)); [split; assumption|].
    destruct (Qlt_bool (buyIn g / 20) val); [split; assumption|].
    apply Qeq_bool_false_iff in Eunset.
    split; [exact Hset|]. intros _. destruct Hset as [H|H];
      [contradiction | exact H].
Qed.

End Setup.

Section Legality.

Context {HandRank : Type}.
Implicit Types (g : Game HandRank) (p : Player HandRank).

(** The legality of raise-by as the specification words it: the amount is a
    positive multiple of the small blind. *)
Definition spec_raiseByLegal g p (cents : Q) : Prop :=
  allowRaise p = true
  /\ ((cents == stack p)%Q
      \/ ((0 < cents)%Q /\ multipleOf (smallBlind g) cents
          /\ (previousBet g + minRaise g <= cents)%Q
          /\ (cents <= stack p + potCommitment p)%Q)).

(** The legality of raise-by as the source decides it: the remainder of the
    amount by the small blind is zero. *)
Definition raiseByLegal g p (cents : Q) : Prop :=
  allowRaise p = true
  /\ ((cents == stack p)%Q
      \/ (multipleOf (smallBlind g) cents
          /\ (previousBet g + minRaise g <= cents)%Q
          /\ (cents <= stack p + potCommitment p)%Q)).

Lemma canCurrentPlayerRaiseBy_iff g p cents :
  initialized g = true ->
  currentPlayer g = Some p ->
  (0 < smallBlind g)%Q ->
  exists b, canCurrentPlayerRaiseBy cents g = Ret b
            /\ (b = true <-> raiseByLegal g p cents).
Proof.
  intros Hi Hp Hsb. unfold canCurrentPlayerRaiseBy, raiseByLegal.
  rewrite Hi, Hp.
  assert (Hnz : ~ (smallBlind g == 0)%Q) by lra.
  destruct (allowRaise p); cbn [negb].
  2:{ exists false. split; [reflexivity|]. split; [discriminate|].
      intros [H _]; discriminate. }
  destruct (Qeq_bool cents (stack p)) eqn:Eall.
  { exists true. split; [reflexivity|]. split; [|reflexivity].
    intros _. split; [reflexivity|]. left. apply Qeq_bool_iff; assumption. }
  apply Qeq_bool_false_iff in Eall.
  destruct (rem_nonzero cents (smallBlind g)) eqn:Erem; cbn [orb].
  { exists false. split; [reflexivity|]. split; [discriminate|].
    intros [_ [H|(Hm & _)]]; [contradiction|].
    apply (rem_nonzero_false cents Hnz) in Hm. congruence. }
  apply (rem_nonzero_false cents Hnz) in Erem.
  destruct (Qlt_bool cents (previousBet g + minRaise g)) eqn:Emin; cbn [orb].
  { exists false. split; [reflexivity|]. split; [discriminate|].
    apply Qlt_bool_iff in Emin.
    intros [_ [H|(_ & H & _)]]; [contradiction | lra]. }
  apply Qlt_bool_false_iff in Emin.
  destruct (Qlt_bool (stack p + potCommitment p) cents) eqn:Emax.
  { exists false. split; [reflexivity|]. split; [discriminate|].
    apply Qlt_bool_iff in Emax.
    intros [_ [H|(_ & _ & H)]]; [contradiction | lra]. }
  apply Qlt_bool_false_iff in Emax.
  exists true. split; [reflexivity|]. split; [|reflexivity].
  intros _. split; [reflexivity|]. right. repeat split; assumption.
Qed.

(** C3, amended.  For the player holding the turn in an initialized game,
    [canCurrentPlayerRaiseBy(amount)] returns true iff the raise-eligibility
    flag is set and either the amount equals the player's stack, or the
    amount is a whole multiple of the small blind (zero included), at least
    previousBet + minRaise and at most stack + commitment.  With
    previousBet = 200, minRaise = 200 and smallBlind = 100, a raise to 300 is
    refused unless 300 is the whole stack, a raise to 400 that the player can
    cover is accepted, and a raise of the whole stack is accepted whatever
    the minimum raise and the small blind. *)
Theorem canCurrentPlayerRaiseBy_legality g p cents :
  initialized g = true ->
  currentPlayer g = Some p ->
  (0 < smallBlind g)%Q ->
  (exists b, canCurrentPlayerRaiseBy cents g = Ret b
             /\ (b = true <-> raiseByLegal g p cents))
  /\ ((previousBet g == 200)%Q -> (minRaise g == 200)%Q ->
      (smallBlind g == 100)%Q ->
      (~ (stack p == 300)%Q -> canCurrentPlayerRaiseBy 300 g = Ret false)
      /\ (allowRaise p = true -> (400 <= stack p + potCommitment p)%Q ->
          canCurrentPlayerRaiseBy 400 g = Ret true))
  /\ (allowRaise p = true -> canCurrentPlayerRaiseBy (stack p) g = Ret true).
Proof.
  intros Hi Hp Hsb. split; [apply canCurrentPlayerRaiseBy_iff; assumption|].
  split.
  - intros Hprev Hmin Hsmall. split.
    + intros Hne.
      destruct (@canCurrentPlayerRaiseBy_iff g p 300%Q Hi Hp Hsb) as ([|] & Hr & Hb);
        [|exact Hr].
      destruct (proj1 Hb eq_refl) as [_ [H|(_ & H & _)]].
      * exfalso. apply Hne. symmetry. exact H.
      * exfalso. lra.
    + intros Hallow Hcover.
      destruct (@canCurrentPlayerRaiseBy_iff g p 400%Q Hi Hp Hsb) as ([|] & Hr & Hb);
        [exact Hr|].
      assert (Hl : raiseByLegal g p 400).
      { split; [assumption|]. right. repeat split; [|lra|lra].
        exists 4%Z. rewrite Hsmall. reflexivity. }
      apply Hb in Hl. discriminate.
  - intros Hallow.
    destruct (@canCurrentPlayerRaiseBy_iff g p (stack p) Hi Hp Hsb)
      as ([|] & Hr & Hb); [exact Hr|].
    assert (Hl : raiseByLegal g p (stack p)).
    { split; [assumption|]. left. reflexivity. }
    apply Hb in Hl. discriminate.
Qed.

End Legality.

(** ** Counting and searching a list *)

Lemma count_if_length {A : Type} (f : A -> bool) (l : list A) :
  count_if f l = List.length (filter f l).
Proof.
  unfold count_if.
  assert (H : forall acc,
             fold_left (fun acc x => if f x then acc + 1 else acc) l acc
             = acc + List.length (filter f l)).
  { induction l as [|x l IH]; intros acc; cbn; [lia|].
    rewrite IH. destruct (f x); cbn; lia. }
  apply H.
Qed.

Lemma count_if_ext {A : Type} (f h : A -> bool) (l : list A) :
  (forall x, In x l -> f x = h x) -> count_if f l = count_if h l.
Proof.
  intros H. rewrite !count_if_length. f_equal.
  induction l as [|x l IH]; [reflexivity|]. cbn.
  rewrite (H x (or_introl eq_refl)), IH; [reflexivity|].
  intros y Hy. apply H. right. exact Hy.
Qed.

Lemma count_if_split {A : Type} (f h : A -> bool) (l : list A) :
  count_if f l
  = count_if (fun x => f x && h x) l + count_if (fun x => f x && negb (h x)) l.
Proof.
  rewrite !count_if_length.
  induction l as [|x l IH]; [reflexivity|]. cbn.
  destruct (f x), (h x); cbn; lia.
Qed.

Lemma find_hd_filter {A : Type} (f : A -> bool) (l : list A) :
  find f l = hd_error (filter f l).
Proof.
  induction l as [|x l IH]; [reflexivity|]. cbn. destruct (f x); [reflexivity|].
  exact IH.
Qed.

Lemma find_some_count {A : Type} (f : A -> bool) (l : list A) :
  0 < count_if f l -> exists x, find f l = Some x.
Proof.
  rewrite count_if_length, find_hd_filter.
  destruct (filter f l) as [|z r]; cbn; [lia|]. intros _. exists z. reflexivity.
Qed.

Section AllInScenario.

Context {HandRank : Type}.
Implicit Types (g : Game HandRank) (p : Player HandRank) (pot : Pot HandRank).

Lemma playerIdxInPotentialWinners_In (i : nat) pot :
  playerIdxInPotentialWinners i pot = true <-> In i (potentialWinners pot).
Proof.
  unfold playerIdxInPotentialWinners. rewrite existsb_exists. split.
  - intros (x & Hx & Heq). apply Nat.eqb_eq in Heq. subst. exact Hx.
  - intros H. exists i. split; [exact H | apply Nat.eqb_refl].
Qed.

End AllInScenario.

Section PotOrganization.

Context {HandRank : Type}.
Implicit Types (g : Game HandRank) (p : Player HandRank) (pot : Pot HandRank).

Lemma count_if_le_and {A : Type} (f h : A -> bool) (l : list A) :
  count_if (fun x => f x && h x) l <= count_if h l.
Proof.
  rewrite !count_if_length. induction l as [|x l IH]; [cbn; lia|].
  cbn. destruct (f x), (h x); cbn; lia.
Qed.

(** In an initialized game the all-in detector never raises. *)
Lemma actionRoundEndedViaAllInScenario_returns g :
  initialized g = true ->
  exists b, actionRoundEndedViaAllInScenario g = Ret b.
Proof.
  intros Hi. unfold actionRoundEndedViaAllInScenario. rewrite Hi.
  destruct (Nat.eqb (allInPlayersCounter g) (numPlayersInGame g));
    [eexists; reflexivity|].
  destruct (Z.eqb_spec (Z.of_nat (allInPlayersCounter g))
                       (Z.of_nat (numPlayersInGame g) - 1)) as [Hone|_];
    [|eexists; reflexivity].
  pose proof (count_if_split (@inGame HandRank) (@isAllIn HandRank) (players g))
    as Hsplit.
  pose proof (count_if_le_and (@inGame HandRank) (@isAllIn HandRank) (players g))
    as Hle.
  unfold allInPlayersCounter, numPlayersInGame in *.
  destruct (@find_some_count _ (fun x => inGame x && negb (isAllIn x)) (players g))
    as [p Hfind]; [lia|].
  rewrite Hfind. eexists; reflexivity.
Qed.


(** The ledger [organizePotsAfterRoundEnded] leaves behind. *)
Definition organizedPots g : list (Pot HandRank) :=
  map (fun pot => if open pot then organizePot g pot else pot) (pots g).


End PotOrganization.

(** ** Sums of amounts *)

Lemma fold_left_Qplus (l : list Q) (a : Q) :
  (fold_left Qplus l a == a + Qsum l)%Q.
Proof.
  unfold Qsum. revert a. induction l as [|x l IH]; intros a; cbn.
  - ring.
  - rewrite (IH (a + x)%Q), (IH (0 + x)%Q). ring.
Qed.

Lemma Qsum_cons (x : Q) (l : list Q) : (Qsum (x :: l) == x + Qsum l)%Q.
Proof.
  unfold Qsum at 1. cbn. rewrite fold_left_Qplus. ring.
Qed.

Lemma Qsum_map_ext {A : Type} (f h : A -> Q) (l : list A) :
  (forall x, In x l -> (f x == h x)%Q) ->
  (Qsum (map f l) == Qsum (map h l))%Q.
Proof.
  induction l as [|x l IH]; intros H; [reflexivity|]. cbn [map].
  rewrite !Qsum_cons, IH, (H x (or_introl eq_refl)); [reflexivity|].
  intros y Hy. apply H. right. exact Hy.
Qed.

Lemma update_nth_length {A : Type} (i : nat) (f : A -> A) (l : list A) :
  List.length (update_nth i f l) = List.length l.
Proof.
  revert i. induction l as [|x l IH]; intros [|i]; cbn; auto.
Qed.

Lemma nth_error_update_nth {A : Type} (i j : nat) (f : A -> A) (l : list A) :
  nth_error (update_nth i f l) j
  = if Nat.eqb i j then option_map f (nth_error l j) else nth_error l j.
Proof.
  revert i j. induction l as [|x l IH]; intros [|i] [|j]; cbn; auto.
  destruct (Nat.eqb i j); reflexivity.
Qed.

(** Replacing one term of a sum changes the sum by the difference. *)
Lemma Qsum_update_nth {A : Type} (w : A -> Q) (i : nat) (f : A -> A)
      (l : list A) (x : A) :
  nth_error l i = Some x ->
  (Qsum (map w (update_nth i f l)) == Qsum (map w l) + (w (f x) - w x))%Q.
Proof.
  revert i. induction l as [|y l IH]; intros [|i]; cbn [nth_error];
    try discriminate.
  - intros [= ->]. cbn [update_nth map]. rewrite !Qsum_cons. ring.
  - intros H. cbn [update_nth map]. rewrite !Qsum_cons, (IH i H). ring.
Qed.

Lemma map_update_nth_same {A B : Type} (w : A -> B) (i : nat) (f : A -> A)
      (l : list A) :
  (forall x, w (f x) = w x) -> map w (update_nth i f l) = map w l.
Proof.
  intros H. revert i. induction l as [|y l IH]; intros [|i]; cbn; auto.
  - rewrite H. reflexivity.
  - rewrite IH. reflexivity.
Qed.

Section FoldOut.

Context {HandRank : Type}.
Variable Pot_initialPotentialWinners : Game HandRank -> list nat.
Implicit Types (g : Game HandRank) (p : Player HandRank) (pot : Pot HandRank).

Lemma findIndex_find {A : Type} (f : A -> bool) (l : list A) (i : nat) :
  findIndex f l = Some i -> nth_error l i = find f l.
Proof.
  revert i. induction l as [|x l IH]; intros i; cbn; [discriminate|].
  destruct (f x).
  - intros [= <-]. reflexivity.
  - destruct (findIndex f l) as [j|]; [|discriminate].
    intros [= <-]. cbn. apply IH. reflexivity.
Qed.

Lemma findIndex_none {A : Type} (f : A -> bool) (l : list A) :
  findIndex f l = None -> find f l = None.
Proof.
  induction l as [|x l IH]; cbn; [reflexivity|].
  destruct (f x); [discriminate|].
  destruct (findIndex f l); [discriminate|]. intros _. apply IH. reflexivity.
Qed.


(** The game after seat [i] was paid [amount] and the ledger was reset. *)
Definition paidOut g (i : nat) (amount : Q) : Game HandRank :=
  let g1 := set_players
              (update_nth i (fun p => set_stack (stack p + amount)%Q p)
                          (players g)) g in
  set_pots [newPot Pot_initialPotentialWinners g1] g1.

Lemma carriedAmount_Qsum (l : list (Pot HandRank)) :
  carriedAmount l = Qsum (map (@prevARsAmount HandRank) l).
Proof.
  unfold carriedAmount, Qsum. generalize 0%Q.
  induction l as [|x l IH]; intros a; cbn; [reflexivity|]. apply IH.
Qed.

(** The three ways [getDealerRoundInfoAndAssignWinnings] can go. *)
Lemma getDealerRoundInfoAndAssignWinnings_run g :
  (initialized g = false ->
   getDealerRoundInfoAndAssignWinnings Pot_initialPotentialWinners g
   = (Throw NotInitialized, g))
  /\ (initialized g = true -> dealerRoundEnded g = false ->
      getDealerRoundInfoAndAssignWinnings Pot_initialPotentialWinners g
      = (Throw (Error "Dealer round hasn't ended."), g))
  /\ (initialized g = true -> dealerRoundEnded g = true ->
      forall i winner,
        findIndex (@inGame HandRank) (players g) = Some i ->
        nth_error (players g) i = Some winner ->
        getDealerRoundInfoAndAssignWinnings Pot_initialPotentialWinners g
        = (Ret (mkDealerRoundInfo (id winner) (carriedAmount (pots g))),
           paidOut g i (carriedAmount (pots g)))
        /\ exists eligible,
             pots (paidOut g i (carriedAmount (pots g)))
             = [mkPot true 0%Q 0%Q 0%Q [] eligible []]).
Proof.
  unfold getDealerRoundInfoAndAssignWinnings, bind, throwIfNotInitialized, get.
  split; [|split].
  - intros Hi. rewrite Hi. reflexivity.
  - intros Hi Hd. rewrite Hi, Hd. reflexivity.
  - intros Hi Hd i winner Hidx Hw. rewrite Hi, Hd. cbn [negb].
    rewrite Hidx. rewrite <- (findIndex_find _ _ Hidx), Hw.
    unfold addToStack. rewrite Hw. split; [reflexivity|].
    eexists. reflexivity.
Qed.


End FoldOut.

Section Chips.

Context {HandRank : Type}.
Implicit Types (g : Game HandRank) (p : Player HandRank) (pot : Pot HandRank).

(** What a pot holds: carried over from earlier rounds plus committed in the
    current one. *)
Definition potAmount pot : Q := (prevARsAmount pot + currARAmount pot)%Q.

(** All the chips on the table: the stacks and the pots. *)
Definition tableChips g : Q :=
  (Qsum (map (@stack HandRank) (players g)) + Qsum (map potAmount (pots g)))%Q.

(** The pots hold nothing of the current round: it has been folded into the
    carried-over amounts. *)
Definition potsOrganized g : Prop :=
  forall pot, In pot (pots g) -> (currARAmount pot == 0)%Q.

Lemma tableChips_same_stacks_pots g g' :
  map (@stack HandRank) (players g') = map (@stack HandRank) (players g) ->
  pots g' = pots g ->
  tableChips g' = tableChips g.
Proof.
  intros Hs Hp. unfold tableChips. rewrite Hs, Hp. reflexivity.
Qed.

(** *** Pot organization *)

Lemma organizePotsAfterRoundEnded_cases g :
  (exists e, organizePotsAfterRoundEnded g = (Throw e, g))
  \/ organizePotsAfterRoundEnded g = (Ret tt, set_pots (organizedPots g) g).
Proof.
  unfold organizePotsAfterRoundEnded, bind, unless, modify.
  destruct (roundEnded g) as [[|]|e].
  - right. reflexivity.
  - left. eexists. reflexivity.
  - left. eexists. reflexivity.
Qed.

Lemma organizePotsAfterRoundEnded_chips g :
  (tableChips (snd (organizePotsAfterRoundEnded g)) == tableChips g)%Q.
Proof.
  destruct (organizePotsAfterRoundEnded_cases g) as [[e H]|H]; rewrite H;
    [reflexivity|].
  cbn [snd]. unfold tableChips. cbn [players pots set_pots].
  apply Qplus_inj_l. unfold organizedPots. rewrite map_map.
  apply Qsum_map_ext. intros pot _.
  destruct (open pot); [|reflexivity].
  unfold potAmount, organizePot. cbn. ring.
Qed.

(** *** Fold-out settlement *)

Lemma getDealerRoundInfoAndAssignWinnings_cases
      (Pw : Game HandRank -> list nat) g :
  (exists e, getDealerRoundInfoAndAssignWinnings Pw g = (Throw e, g))
  \/ (exists i winner,
        nth_error (players g) i = Some winner
        /\ getDealerRoundInfoAndAssignWinnings Pw g
           = (Ret (mkDealerRoundInfo (id winner) (carriedAmount (pots g))),
              paidOut Pw g i (carriedAmount (pots g)))).
Proof.
  destruct (getDealerRoundInfoAndAssignWinnings_run Pw g) as (Hu & Hn & Hy).
  destruct (initialized g) eqn:Hi; [|left; eexists; apply Hu; reflexivity].
  destruct (dealerRoundEnded g) eqn:Hd;
    [|left; eexists; apply Hn; reflexivity].
  destruct (findIndex (@inGame HandRank) (players g)) as [i|] eqn:Hidx.
  - pose proof (findIndex_find _ _ Hidx) as Hf.
    destruct (nth_error (players g) i) as [w|] eqn:Hw.
    + right. exists i, w. split; [exact Hw|].
      apply (Hy eq_refl eq_refl i w eq_refl Hw).
    + left. exists TypeError.
      unfold getDealerRoundInfoAndAssignWinnings, bind, throwIfNotInitialized,
        get. rewrite Hi, Hd, Hidx, <- Hf. reflexivity.
  - left. exists TypeError.
    unfold getDealerRoundInfoAndAssignWinnings, bind, throwIfNotInitialized,
      get. rewrite Hi, Hd, Hidx. reflexivity.
Qed.

Lemma getDealerRoundInfoAndAssignWinnings_chips
      (Pw : Game HandRank -> list nat) g :
  potsOrganized g ->
  (tableChips (snd (getDealerRoundInfoAndAssignWinnings Pw g))
   == tableChips g)%Q.
Proof.
  intros Horg.
  destruct (getDealerRoundInfoAndAssignWinnings_cases Pw g)
    as [[e H]|(i & w & Hw & H)]; rewrite H; [reflexivity|].
  cbn [snd]. unfold tableChips, paidOut.
  cbn [players pots set_pots set_players map newPot].
  rewrite (Qsum_update_nth (@stack HandRank) i _ _ Hw).
  cbn [stack set_stack]. rewrite Qsum_cons. unfold potAmount at 1. cbn.
  rewrite carriedAmount_Qsum.
  assert (Hp : (Qsum (map potAmount (pots g))
                == Qsum (map (@prevARsAmount HandRank) (pots g)))%Q).
  { apply Qsum_map_ext. intros pot Hpot. unfold potAmount.
    rewrite (Horg pot Hpot). ring. }
  rewrite Hp. ring.
Qed.

(** *** Starting the next action round *)

Lemma validateNotInActionRound_state (event : string) (msg : option string) g :
  snd (validateNotInActionRound event msg g) = g.
Proof.
  unfold validateNotInActionRound, bind, throwIfNotInitialized, get.
  destruct (initialized g); [|reflexivity].
  destruct (isActionRound event g); reflexivity.
Qed.

Lemma refreshAndIncActionRound_stacks_pots g :
  map (@stack HandRank) (players (snd (refreshAndIncActionRound g)))
  = map (@stack HandRank) (players g)
  /\ pots (snd (refreshAndIncActionRound g)) = pots g.
Proof.
  remember (refreshAndIncActionRound g) as run eqn:Hrun.
  unfold refreshAndIncActionRound in Hrun. unfold bind at 1 in Hrun.
  match type of Hrun with
  | context [validateNotInActionRound ?e ?m g] =>
      pose proof (validateNotInActionRound_state e m g) as H1;
      destruct (validateNotInActionRound e m g) as [[[]|x] g1]
  end; cbn [snd] in H1; subst g1; [|subst run; split; reflexivity].
  unfold bind at 1 in Hrun.
  match type of Hrun with
  | context [validateNotInActionRound ?e ?m g] =>
      pose proof (validateNotInActionRound_state e m g) as H1;
      destruct (validateNotInActionRound e m g) as [[[]|x] g1]
  end; cbn [snd] in H1; subst g1; [|subst run; split; reflexivity].
  unfold bind at 1 in Hrun. unfold modify at 1 in Hrun.
  unfold bind at 1 in Hrun. unfold modify at 1 in Hrun.
  unfold bind at 1 in Hrun. unfold modify at 1 in Hrun.
  unfold bind at 1 in Hrun.
  match type of Hrun with
  | context [incrementTurnToNextPlayerInGame ?g3] =>
      destruct (incrementTurnToNextPlayerInGame_frame g3) as (t & c & Hf);
      destruct (incrementTurnToNextPlayerInGame g3) as [[skipped|x] g4]
  end; cbn [snd] in Hf; subst g4; subst run.
  - unfold bind, modify, ret. cbn [snd players pots set_players set_turnIdx
      set_numTurnIncrements set_betting set_actionRound].
    split; [|reflexivity].
    rewrite !map_map. apply map_ext. intros p.
    destruct (inGame p); reflexivity.
  - cbn [snd players pots set_players set_turnIdx set_numTurnIncrements
      set_betting]. split; [|reflexivity].
    rewrite map_map. reflexivity.
Qed.

Lemma refreshAndIncActionRound_chips g :
  (tableChips (snd (refreshAndIncActionRound g)) == tableChips g)%Q.
Proof.
  destruct (refreshAndIncActionRound_stacks_pots g) as [Hs Hp].
  rewrite (tableChips_same_stacks_pots _ _ Hs Hp). reflexivity.
Qed.

End Chips.

Section Actions.

Context {HandRank : Type}.
Variable Player_allIn : nat -> Game HandRank -> outcome unit * Game HandRank.
Variable Player_call : nat -> Game HandRank -> outcome unit * Game HandRank.
Variable Player_raise : Q -> nat -> Game HandRank -> outcome unit * Game HandRank.
Variable Player_fold : nat -> Game HandRank -> outcome unit * Game HandRank.
Variable Player_check : nat -> Game HandRank -> outcome unit * Game HandRank.
Implicit Types (g : Game HandRank) (p : Player HandRank).

Local Notation "'act'" :=
  (callCurrentPlayerAction Player_allIn Player_call Player_raise Player_fold
                           Player_check).

(** The legality condition of a submitted action. *)
Definition actionLegal (result : ActionResult) g : outcome bool :=
  let a := playerAction result in
  if String.eqb a "all-in" then currentPlayerInGame g
  else if String.eqb a "call" then canCurrentPlayerCall g
  else if String.eqb a "raise" then
    match canCurrentPlayerRaise g with
    | Ret true => canCurrentPlayerRaiseBy (raiseAmount result) g
    | other => other
    end
  else if String.eqb a "fold" then currentPlayerInGame g
  else if String.eqb a "check" then canCurrentPlayerCheck g
  else Ret false.

(** The error names the seat [i]. *)
Definition errorNamesSeat (e : error) (i : nat) : Prop :=
  match e with
  | CurrentPlayerCannot j _ => j = i
  | CurrentPlayerCannotRaiseBy j _ => j = i
  | _ => False
  end.

(** A submitted action that fails its legality check is refused with an error
    that names the seat holding the turn, and the game is left as it was. *)
Lemma callCurrentPlayerAction_illegal_atomic (result : ActionResult) g p :
  currentPlayer g = Some p ->
  In (playerAction result) ["all-in"; "call"; "raise"; "fold"; "check"] ->
  actionLegal result g = Ret false ->
  exists e, act result g = (Throw e, g) /\ errorNamesSeat e (id p).
Proof.
  intros Hp Hin Hl. unfold actionLegal in Hl.
  unfold callCurrentPlayerAction, bind, unless, cannot, cannotRaiseBy.
  cbn in Hin.
  destruct Hin as [H|[H|[H|[H|[H|[]]]]]]; rewrite <- H in *; cbn in Hl |- *.
  - rewrite Hl, Hp. eexists. split; reflexivity.
  - rewrite Hl, Hp. eexists. split; reflexivity.
  - destruct (canCurrentPlayerRaise g) as [[|]|e]; try discriminate.
    + rewrite Hl, Hp. eexists. split; reflexivity.
    + rewrite Hp. eexists. split; reflexivity.
  - rewrite Hl, Hp. eexists. split; reflexivity.
  - rewrite Hl, Hp. eexists. split; reflexivity.
Qed.

(** X7.  An action whose name is none of all-in, call, raise, fold and
    check is refused as an illegal argument, whoever holds the turn, and the
    game is left as it was. *)
Lemma callCurrentPlayerAction_unknown (result : ActionResult) g :
  ~ In (playerAction result) ["all-in"; "call"; "raise"; "fold"; "check"] ->
  act result g = (Throw (IllegalArgument (playerAction result)), g).
Proof.
  intros Hn. unfold callCurrentPlayerAction. cbn in Hn.
  repeat match goal with
         | |- context [String.eqb ?a ?b] =>
             destruct (String.eqb_spec a b) as [E|_];
             [exfalso; apply Hn; rewrite E; tauto|]
         end.
  reflexivity.
Qed.

(** A player method that moves chips without creating or destroying any. *)
Definition conserving
           (method : nat -> Game HandRank -> outcome unit * Game HandRank)
  : Prop :=
  forall i g, (tableChips (snd (method i g)) == tableChips g)%Q.

Lemma unless_state (cond : Game HandRank -> outcome bool)
      (e : Game HandRank -> outcome unit) g :
  snd (unless cond e g) = g.
Proof.
  unfold unless. destruct (cond g) as [[|]|x]; reflexivity.
Qed.

Lemma guarded_method_chips (cond : Game HandRank -> outcome bool)
      (e : Game HandRank -> outcome unit)
      (method : nat -> Game HandRank -> outcome unit * Game HandRank) g :
  conserving method ->
  (tableChips (snd (bind (unless cond e) (fun _ => onCurrentPlayer method) g))
   == tableChips g)%Q.
Proof.
  intros Hm. unfold bind. pose proof (unless_state cond e g) as Hu.
  destruct (unless cond e g) as [[[]|x] g1]; cbn [snd] in Hu; subst g1;
    [|reflexivity].
  unfold onCurrentPlayer. destruct (currentPlayer g); [apply Hm|reflexivity].
Qed.

Lemma callCurrentPlayerAction_chips (result : ActionResult) g :
  conserving Player_allIn -> conserving Player_call ->
  (forall cents, conserving (Player_raise cents)) ->
  conserving Player_fold -> conserving Player_check ->
  (tableChips (snd (act result g)) == tableChips g)%Q.
Proof.
  intros Ha Hc Hr Hf Hk. unfold callCurrentPlayerAction.
  destruct (String.eqb (playerAction result) "all-in");
    [apply guarded_method_chips; assumption|].
  destruct (String.eqb (playerAction result) "call");
    [apply guarded_method_chips; assumption|].
  destruct (String.eqb (playerAction result) "raise").
  { unfold bind at 1.
    pose proof (unless_state (@canCurrentPlayerRaise HandRank)
                             (cannot "raise") g) as Hu.
    destruct (unless (@canCurrentPlayerRaise HandRank) (cannot "raise") g)
      as [[[]|x] g1];
      cbn [snd] in Hu; subst g1; [|reflexivity].
    apply guarded_method_chips. apply Hr. }
  destruct (String.eqb (playerAction result) "fold");
    [apply guarded_method_chips; assumption|].
  destruct (String.eqb (playerAction result) "check");
    [apply guarded_method_chips; assumption|].
  reflexivity.
Qed.

End Actions.

Section DealerRound.

Context {HandRank : Type}.
Variable Player_raise : Q -> nat -> Game HandRank -> outcome unit * Game HandRank.
Variable Pot_initialPotentialWinners : Game HandRank -> list nat.
Variable randDeckIdx : list Card -> nat.
Implicit Types (g : Game HandRank) (p : Player HandRank).

(** A method that leaves the chips on the table as they are, however it
    ends. *)
Definition keepsChips {A : Type} (m : M HandRank A) : Prop :=
  forall g, (tableChips (snd (m g)) == tableChips g)%Q.

Lemma keepsChips_ret {A : Type} (a : A) : keepsChips (ret a).
Proof. intros g. reflexivity. Qed.

Lemma keepsChips_throw {A : Type} (e : error) : keepsChips (@throw HandRank A e).
Proof. intros g. reflexivity. Qed.

Lemma keepsChips_get : keepsChips (@get HandRank).
Proof. intros g. reflexivity. Qed.

Lemma keepsChips_read {A : Type} (f : Game HandRank -> outcome A) :
  keepsChips (read f).
Proof. intros g. reflexivity. Qed.

Lemma keepsChips_bind {A B : Type} (m : M HandRank A) (k : A -> M HandRank B) :
  keepsChips m -> (forall a, keepsChips (k a)) -> keepsChips (bind m k).
Proof.
  intros Hm Hk g. unfold bind. specialize (Hm g).
  destruct (m g) as [[a|e] g1]; cbn [snd] in *; [|exact Hm].
  rewrite (Hk a g1). exact Hm.
Qed.

Lemma keepsChips_modify (f : Game HandRank -> Game HandRank) :
  (forall g, map (@stack HandRank) (players (f g))
             = map (@stack HandRank) (players g)
             /\ pots (f g) = pots g) ->
  keepsChips (modify f).
Proof.
  intros H g. cbn [modify snd]. destruct (H g) as [Hs Hp].
  rewrite (tableChips_same_stacks_pots _ _ Hs Hp). reflexivity.
Qed.

Lemma keepsChips_forEachM {A : Type} (body : A -> M HandRank unit)
      (l : list A) :
  (forall x, keepsChips (body x)) -> keepsChips (forEachM body l).
Proof.
  intros H. induction l as [|x l IH]; cbn [forEachM].
  - apply keepsChips_ret.
  - apply keepsChips_bind; [apply H | intros _; exact IH].
Qed.

Lemma keepsChips_throwIfNotInitialized :
  keepsChips (@throwIfNotInitialized HandRank).
Proof.
  intros g. unfold throwIfNotInitialized. destruct (initialized g); reflexivity.
Qed.

Lemma keepsChips_incrementTurnToNextPlayerInGame :
  keepsChips (@incrementTurnToNextPlayerInGame HandRank).
Proof.
  intros g. destruct (incrementTurnToNextPlayerInGame_frame g) as (t & c & H).
  rewrite H. reflexivity.
Qed.

Lemma keepsChips_onCurrentPlayer
      (method : nat -> Game HandRank -> outcome unit * Game HandRank) :
  conserving method -> keepsChips (onCurrentPlayer method).
Proof.
  intros H g. unfold onCurrentPlayer.
  destruct (currentPlayer g); [apply H | reflexivity].
Qed.

Lemma keepsChips_setCurrentPlayerActionState (tag : string) :
  keepsChips (@setCurrentPlayerActionState HandRank tag).
Proof.
  intros g. unfold setCurrentPlayerActionState.
  destruct (currentPlayer g); [|reflexivity]. cbn [snd].
  rewrite (@tableChips_same_stacks_pots _ g
             (set_players (update_nth (turnIdx g) (set_actionState tag)
                                      (players g)) g));
    [reflexivity| |reflexivity].
  cbn [players set_players]. apply map_update_nth_same. reflexivity.
Qed.

Lemma keepsChips_advanceDealer (n : nat) :
  keepsChips (@advanceDealer HandRank n).
Proof.
  induction n as [|n IH]; cbn [advanceDealer]; [apply keepsChips_ret|].
  apply keepsChips_bind;
    [apply keepsChips_modify; intros ?; split; reflexivity | intros _].
  apply keepsChips_bind;
    [apply keepsChips_modify; intros ?; split; reflexivity | intros _].
  apply keepsChips_bind; [apply keepsChips_get | intros g].
  destruct (nth_error (players g) (dealerIdx g)) as [p|];
    [|apply keepsChips_throw].
  destruct (inGame p); [apply keepsChips_ret | exact IH].
Qed.

Lemma keepsChips_dealCards : keepsChips (dealCards randDeckIdx).
Proof.
  unfold dealCards. apply keepsChips_bind; [apply keepsChips_get | intros g].
  apply keepsChips_forEachM. intros i. apply keepsChips_forEachM. intros k.
  apply keepsChips_modify. intros g1. split; [|reflexivity].
  cbn [players set_players set_deck]. apply map_update_nth_same. reflexivity.
Qed.

(** Walks through a sequence of steps, each of which keeps the chips. *)
Ltac keeps_chips_steps :=
  repeat first
    [ apply keepsChips_throwIfNotInitialized
    | apply keepsChips_get
    | apply keepsChips_read
    | apply keepsChips_incrementTurnToNextPlayerInGame
    | apply keepsChips_setCurrentPlayerActionState
    | apply keepsChips_advanceDealer
    | apply keepsChips_dealCards
    | apply keepsChips_onCurrentPlayer; solve [auto]
    | apply keepsChips_modify; intros ?; split;
      [cbn [players set_players set_board set_deck]; try rewrite map_map;
       reflexivity | reflexivity]
    | assumption
    | apply keepsChips_bind; [|intros ?] ].

Lemma keepsChips_postBlinds :
  (forall cents, conserving (Player_raise cents)) ->
  keepsChips (postBlinds Player_raise).
Proof.
  intros Hr. unfold postBlinds. keeps_chips_steps.
Qed.

(** The pots hold nothing at all. *)
Definition potsEmpty g : Prop := (Qsum (map potAmount (pots g)) == 0)%Q.

Lemma refreshDealerRound_chips g :
  (forall cents, conserving (Player_raise cents)) ->
  potsEmpty g ->
  (tableChips (snd (refreshDealerRound Player_raise Pot_initialPotentialWinners
                                       randDeckIdx g))
   == tableChips g)%Q.
Proof.
  intros Hr Hempty. unfold refreshDealerRound.
  unfold bind at 1. unfold throwIfNotInitialized at 1.
  destruct (initialized g); [|reflexivity].
  unfold bind at 1. unfold modify at 1.
  unfold bind at 1. unfold resetPots at 1. unfold modify at 1.
  match goal with
  | |- (tableChips (snd (?rest ?g2)) == _)%Q =>
      assert (Hrest : keepsChips rest);
      [|rewrite (Hrest g2)]
  end.
  - pose proof (keepsChips_postBlinds Hr) as Hblinds.
    keeps_chips_steps.
    destruct (Nat.leb (numPlayersInGame _) 1); [apply keepsChips_ret|].
    keeps_chips_steps.
    match goal with
    | |- keepsChips (match currentPlayer ?x with _ => _ end) =>
        destruct (currentPlayer x) as [p|]; [|apply keepsChips_throw]
    end.
    apply keepsChips_bind; [|intros ?; apply keepsChips_ret].
    destruct (String.eqb (actionState p) "SB" && Qeq_bool _ _);
      [apply keepsChips_modify; intros ?; split; reflexivity
      |apply keepsChips_ret].
  - unfold tableChips, potsEmpty in *.
    cbn [players pots set_pots set_actionRound map newPot].
    rewrite Hempty, Qsum_cons. unfold potAmount, newPot.
    cbn [prevARsAmount currARAmount]. change (Qsum []) with 0%Q. ring.
Qed.

End DealerRound.

Section Showdown.

Context {HandRank : Type}.
Variable bestHandRank : list (option Card) -> HandRank.
Variable pickBestHandRanks :
  list (option (ShowdownRank HandRank)) -> list (ShowdownRank HandRank).
Variable Pot_initialPotentialWinners : Game HandRank -> list nat.
Implicit Types (g : Game HandRank) (p : Player HandRank) (pot : Pot HandRank).

Local Notation "'showdown'" :=
  (getShowdownInfoAndAssignWinnings bestHandRank pickBestHandRanks
                                    Pot_initialPotentialWinners).

Lemma isActionRound_river g :
  isActionRound "river" g = true <-> actionRound g = 3%Z.
Proof.
  unfold isActionRound, actionRoundStr, ACTION_ROUNDS. split.
  - repeat match goal with
           | |- context [Z.eqb (actionRound g) ?k] =>
               destruct (Z.eqb_spec (actionRound g) k); try (cbn; discriminate)
           end.
    intros _. assumption.
  - intros ->. reflexivity.
Qed.

(** The guard of the showdown: initialization and the river, nothing else. *)
Lemma getShowdownInfoAndAssignWinnings_guard g :
  (initialized g = false -> showdown g = (Throw NotInitialized, g))
  /\ (initialized g = true -> actionRound g <> 3%Z ->
      showdown g = (Throw (Error "Cannot river at this point in the game."), g))
  /\ (initialized g = true -> actionRound g = 3%Z ->
      validateInActionRound "river" None g = (Ret tt, g)).
Proof.
  unfold getShowdownInfoAndAssignWinnings, validateInActionRound, bind,
    throwIfNotInitialized, get.
  split; [|split].
  - intros Hi. rewrite Hi. reflexivity.
  - intros Hi Hr. rewrite Hi.
    destruct (isActionRound "river" g) eqn:E.
    + apply isActionRound_river in E. contradiction.
    + reflexivity.
  - intros Hi Hr. rewrite Hi. apply isActionRound_river in Hr. rewrite Hr.
    reflexivity.
Qed.

(** *** What the showdown computes *)

(** The game after every seat in the hand got its rank. *)
Definition ranked g : Game HandRank := snd (assignShowdownRanks bestHandRank g).

(** The ranks that win a pot, read in the game [g]. *)
Definition potWinningRanks g pot : list (ShowdownRank HandRank) :=
  match potShowdownRanks g (potentialWinners pot) with
  | Ret ranks => pickBestHandRanks ranks
  | Throw _ => []
  end.

(** The ledger once every pot knows its winning ranks. *)
Definition decidedPots g : list (Pot HandRank) :=
  map (fun pot => set_winHandRanks (potWinningRanks (ranked g) pot) pot)
      (pots g).

(** Every eligible id of every pot is a seat, and so is every winner. *)
Definition showdownSeated g : Prop :=
  Forall (fun pot =>
            Forall (fun i => i < totalPlayers g) (potentialWinners pot)
            /\ Forall (fun r => playerIndex r < totalPlayers g)
                      (potWinningRanks (ranked g) pot))
         (pots g).

(** The exact quotient of a pot's carried-over amount by its winners. *)
Definition potShare pot : Q :=
  (prevARsAmount pot / inject_Z (Z.of_nat (List.length (winHandRanks pot))))%Q.

(** The players after each winning rank of a list was paid [q]. *)
Definition credit (wins : list (ShowdownRank HandRank)) (q : Q)
           (ps : list (Player HandRank)) : list (Player HandRank) :=
  fold_left (fun ps r =>
               update_nth (playerIndex r)
                          (fun p => set_stack (stack p + q)%Q p) ps)
            wins ps.

(** The players after every pot of a decided ledger was paid out. *)
Definition settledPlayers (l : list (Pot HandRank))
           (ps : list (Player HandRank)) : list (Player HandRank) :=
  fold_left (fun ps pot => credit (winHandRanks pot) (potShare pot) ps) l ps.

(** What [result.push] receives for a pot of a decided ledger. *)
Definition potInfo pot : PotShowdownInfo :=
  mkPotShowdownInfo
    (js_div (prevARsAmount pot) (List.length (winHandRanks pot)))
    (map (@playerIndex HandRank) (winHandRanks pot)).

(** The game the showdown leaves behind. *)
Definition settled g : Game HandRank :=
  let g3 := set_players
              (settledPlayers (decidedPots g) (players (ranked g)))
              (set_pots (decidedPots g) (ranked g)) in
  set_pots [newPot Pot_initialPotentialWinners g3] g3.

Lemma ranked_length g : List.length (players (ranked g)) = totalPlayers g.
Proof.
  unfold ranked, assignShowdownRanks, modify, totalPlayers.
  cbn [snd players set_players]. generalize 0.
  induction (players g) as [|x l IH]; intros k; cbn; [reflexivity|].
  rewrite IH. reflexivity.
Qed.

Lemma ranked_pots g : pots (ranked g) = pots g.
Proof. reflexivity. Qed.

Lemma potShowdownRanks_players g g' ids :
  players g = players g' -> potShowdownRanks g ids = potShowdownRanks g' ids.
Proof.
  intros H. induction ids as [|i ids IH]; cbn; [reflexivity|].
  rewrite H, IH. reflexivity.
Qed.

Lemma potShowdownRanks_seated g ids :
  Forall (fun i => i < List.length (players g)) ids ->
  exists ranks, potShowdownRanks g ids = Ret ranks.
Proof.
  induction 1 as [|i ids Hi _ IH]; cbn; [eexists; reflexivity|].
  destruct (nth_error (players g) i) as [p|] eqn:E.
  - destruct IH as [ranks ->]. eexists; reflexivity.
  - apply nth_error_None in E. lia.
Qed.

Lemma update_nth_app_here {A : Type} (f : A -> A) (l1 : list A) (x : A)
      (l2 : list A) :
  update_nth (List.length l1) f (l1 ++ x :: l2) = l1 ++ f x :: l2.
Proof.
  induction l1 as [|y l1 IH]; cbn; [reflexivity|]. rewrite IH. reflexivity.
Qed.

(** The second loop, from the pot at position [length done] on. *)
Lemma assignWinHandRanks_loop :
  forall (todo done : list (Pot HandRank)) g,
    pots g = done ++ todo ->
    Forall (fun pot => Forall (fun i => i < List.length (players g))
                              (potentialWinners pot)) todo ->
    forEachM (assignWinHandRanks pickBestHandRanks)
             (seq (List.length done) (List.length todo)) g
    = (Ret tt,
       set_pots (done ++ map (fun pot => set_winHandRanks (potWinningRanks g pot)
                                                          pot) todo) g).
Proof.
  induction todo as [|pot todo IH]; intros done g Hp Hs.
  - cbn. rewrite app_nil_r, <- (app_nil_r done), <- Hp.
    destruct g; reflexivity.
  - cbn [List.length seq forEachM map]. unfold bind.
    inversion Hs as [|? ? Hpot Hrest]; subst.
    unfold assignWinHandRanks at 1. rewrite Hp.
    rewrite nth_error_app2, Nat.sub_diag by lia. cbn [nth_error].
    destruct (potShowdownRanks_seated g Hpot) as [ranks Hr]. rewrite Hr.
    rewrite update_nth_app_here.
    set (g1 := set_pots _ g).
    specialize (IH (done ++ [set_winHandRanks (pickBestHandRanks ranks) pot]) g1).
    rewrite length_app in IH. cbn [List.length] in IH.
    rewrite Nat.add_1_r in IH. rewrite IH.
    + subst g1. cbn [set_pots]. f_equal. unfold set_pots. cbn.
      f_equal. rewrite <- app_assoc. cbn [app]. f_equal. f_equal.
      * unfold potWinningRanks. rewrite Hr. reflexivity.
      * apply map_ext. intros q. unfold potWinningRanks.
        rewrite (@potShowdownRanks_players _ g (potentialWinners q));
          reflexivity.
    + subst g1. cbn [pots set_pots]. rewrite <- app_assoc. reflexivity.
    + exact Hrest.
Qed.

(** The inner loop of the third [forEach]. *)
Lemma credit_loop :
  forall (wins : list (ShowdownRank HandRank)) (q : Q) g,
    Forall (fun r => playerIndex r < List.length (players g)) wins ->
    forEachM (fun r => addToStack (playerIndex r) q) wins g
    = (Ret tt, set_players (credit wins q (players g)) g).
Proof.
  induction wins as [|r wins IH]; intros q g Hs.
  - cbn. destruct g; reflexivity.
  - inversion Hs as [|? ? Hr Hrest]; subst.
    cbn [forEachM]. unfold bind. unfold addToStack at 1.
    destruct (nth_error (players g) (playerIndex r)) as [p|] eqn:E;
      [|apply nth_error_None in E; lia].
    rewrite IH.
    + cbn [players set_players credit fold_left]. reflexivity.
    + cbn [players set_players]. rewrite update_nth_length. exact Hrest.
Qed.

Lemma credit_length wins q ps :
  List.length (credit wins q ps) = List.length ps.
Proof.
  unfold credit. revert ps. induction wins as [|r wins IH]; intros ps;
    cbn; [reflexivity|].
  rewrite IH, update_nth_length. reflexivity.
Qed.

Lemma settlePot_run pot g :
  Forall (fun r => playerIndex r < List.length (players g)) (winHandRanks pot) ->
  settlePot pot g
  = (Ret (potInfo pot),
     set_players (credit (winHandRanks pot) (potShare pot) (players g)) g).
Proof.
  intros Hs. unfold settlePot, bind, potInfo, potShare.
  destruct (winHandRanks pot) as [|r wins] eqn:Ew.
  - cbn. destruct g; reflexivity.
  - cbn [js_div List.length].
    rewrite credit_loop by exact Hs. reflexivity.
Qed.

Lemma settlePots_run :
  forall (l : list (Pot HandRank)) result g,
    Forall (fun pot => Forall (fun r => playerIndex r < List.length (players g))
                              (winHandRanks pot)) l ->
    settlePots l result g
    = (Ret (result ++ map potInfo l),
       set_players (settledPlayers l (players g)) g).
Proof.
  induction l as [|pot l IH]; intros result g Hs.
  - cbn. rewrite app_nil_r. destruct g; reflexivity.
  - inversion Hs as [|? ? Hpot Hrest]; subst.
    cbn [settlePots]. unfold bind. rewrite settlePot_run by exact Hpot.
    rewrite IH.
    + cbn [players set_players settledPlayers fold_left map].
      rewrite <- app_assoc. reflexivity.
    + cbn [players set_players].
      eapply Forall_impl; [|exact Hrest]. cbn. intros q Hq.
      eapply Forall_impl; [|exact Hq]. cbn. intros r Hr.
      rewrite credit_length. exact Hr.
Qed.

(** The whole showdown, on the river of an initialized game whose pots name
    seats only. *)
Lemma getShowdownInfoAndAssignWinnings_run g :
  initialized g = true ->
  actionRound g = 3%Z ->
  showdownSeated g ->
  showdown g = (Ret (map potInfo (decidedPots g)), settled g).
Proof.
  intros Hi Hr Hs.
  unfold getShowdownInfoAndAssignWinnings.
  unfold bind at 1.
  destruct (getShowdownInfoAndAssignWinnings_guard g) as (_ & _ & Hg).
  rewrite (Hg Hi Hr).
  unfold bind at 1. unfold read.
  destruct (actionRoundEndedViaAllInScenario_returns g Hi) as [b ->].
  unfold bind at 1.
  change (assignShowdownRanks bestHandRank g) with (Ret tt, ranked g).
  unfold bind at 1. unfold get at 1.
  unfold bind at 1.
  assert (Hloop := @assignWinHandRanks_loop (pots (ranked g)) [] (ranked g)
                     eq_refl).
  cbn [List.length app] in Hloop. rewrite Hloop; clear Hloop.
  2:{ rewrite ranked_pots. unfold showdownSeated in Hs.
      eapply Forall_impl; [|exact Hs]. cbv beta. intros pot [H _].
      eapply Forall_impl; [|exact H]. cbv beta. intros i Hlt.
      rewrite ranked_length. exact Hlt. }
  rewrite ranked_pots. fold (decidedPots g).
  unfold bind at 1. unfold get at 1. cbn [pots set_pots].
  unfold bind at 1. rewrite settlePots_run.
  - cbn [app]. reflexivity.
  - cbn [players set_pots]. unfold decidedPots. rewrite Forall_map.
    eapply Forall_impl; [|exact Hs]. cbv beta. intros pot [_ H].
    cbn [winHandRanks set_winHandRanks].
    eapply Forall_impl; [|exact H]. cbv beta. intros r Hlt.
    rewrite ranked_length. exact Hlt.
Qed.

(** *** Who is paid what *)


Lemma inject_Z_succ (n : nat) :
  (inject_Z (Z.of_nat (S n)) == inject_Z (Z.of_nat n) + 1)%Q.
Proof.
  rewrite Nat2Z.inj_succ. unfold Z.succ. rewrite inject_Z_plus. reflexivity.
Qed.





(** Every pot has a winner whose count divides the carried-over amount. *)
Definition showdownPaysOut g : Prop :=
  Forall (fun pot =>
            potWinningRanks (ranked g) pot <> []
            /\ multipleOf
                 (inject_Z (Z.of_nat (List.length
                                        (potWinningRanks (ranked g) pot))))
                 (prevARsAmount pot))
         (pots g).


(** *** The chips a showdown moves *)

Lemma credit_cons r wins q ps :
  credit (r :: wins) q ps
  = credit wins q (update_nth (playerIndex r)
                              (fun p => set_stack (stack p + q)%Q p) ps).
Proof. reflexivity. Qed.

Lemma settledPlayers_cons pot l ps :
  settledPlayers (pot :: l) ps
  = settledPlayers l (credit (winHandRanks pot) (potShare pot) ps).
Proof. reflexivity. Qed.

Lemma credit_sum :
  forall (wins : list (ShowdownRank HandRank)) (q : Q) ps,
    Forall (fun r => playerIndex r < List.length ps) wins ->
    (Qsum (map (@stack HandRank) (credit wins q ps))
     == Qsum (map (@stack HandRank) ps)
        + q * inject_Z (Z.of_nat (List.length wins)))%Q.
Proof.
  induction wins as [|r wins IH]; intros q ps Hs.
  - unfold credit. cbn [fold_left List.length].
    change (inject_Z (Z.of_nat 0)) with 0%Q. ring.
  - inversion Hs as [|? ? Hr Hrest]; subst.
    rewrite credit_cons.
    destruct (nth_error ps (playerIndex r)) as [p|] eqn:E;
      [|apply nth_error_None in E; lia].
    rewrite IH.
    + rewrite (Qsum_update_nth (@stack HandRank) _ _ _ E).
      cbn [stack set_stack List.length]. rewrite inject_Z_succ. ring.
    + rewrite update_nth_length. exact Hrest.
Qed.

Lemma settledPlayers_sum :
  forall (l : list (Pot HandRank)) ps,
    Forall (fun pot => Forall (fun r => playerIndex r < List.length ps)
                              (winHandRanks pot)) l ->
    (Qsum (map (@stack HandRank) (settledPlayers l ps))
     == Qsum (map (@stack HandRank) ps)
        + Qsum (map (fun pot =>
                       potShare pot
                       * inject_Z (Z.of_nat (List.length (winHandRanks pot))))
                    l))%Q.
Proof.
  induction l as [|pot l IH]; intros ps Hs.
  - unfold settledPlayers. cbn [fold_left map].
    change (Qsum []) with 0%Q. ring.
  - inversion Hs as [|? ? Hpot Hrest]; subst.
    rewrite settledPlayers_cons. cbn [map].
    rewrite IH.
    + rewrite (@credit_sum _ (potShare pot) ps Hpot), Qsum_cons. ring.
    + eapply Forall_impl; [|exact Hrest]. cbv beta. intros q Hq.
      eapply Forall_impl; [|exact Hq]. cbv beta. intros r Hr.
      rewrite credit_length. exact Hr.
Qed.

Lemma ranked_stacks g :
  map (@stack HandRank) (players (ranked g))
  = map (@stack HandRank) (players g).
Proof.
  unfold ranked, assignShowdownRanks, modify. cbn [snd players set_players].
  generalize 0. induction (players g) as [|x l IH]; intros k; cbn;
    [reflexivity|].
  rewrite IH. destruct (inGame x); reflexivity.
Qed.

Lemma getShowdownInfoAndAssignWinnings_chips g :
  showdownSeated g ->
  showdownPaysOut g ->
  potsOrganized g ->
  (tableChips (snd (showdown g)) == tableChips g)%Q.
Proof.
  intros Hs Hpay Horg.
  destruct (getShowdownInfoAndAssignWinnings_guard g) as (Hu & Hn & _).
  destruct (initialized g) eqn:Hi; [|rewrite Hu; reflexivity].
  destruct (Z.eq_dec (actionRound g) 3) as [Hr|Hr];
    [|rewrite Hn by (reflexivity || assumption); reflexivity].
  rewrite (getShowdownInfoAndAssignWinnings_run Hi Hr Hs).
  cbn [snd]. unfold tableChips, settled.
  cbn [players pots set_pots set_players map newPot].
  rewrite settledPlayers_sum.
  2:{ unfold decidedPots. rewrite Forall_map.
      eapply Forall_impl; [|exact Hs]. cbv beta. intros pot [_ H].
      cbn [winHandRanks set_winHandRanks].
      eapply Forall_impl; [|exact H]. cbv beta. intros r Hlt.
      rewrite ranked_length. exact Hlt. }
  rewrite ranked_stacks, Qsum_cons. unfold potAmount at 1.
  cbn [prevARsAmount currARAmount]. change (Qsum []) with 0%Q.
  assert (Hsum : (Qsum (map (fun pot =>
                               potShare pot
                               * inject_Z (Z.of_nat (List.length
                                                       (winHandRanks pot))))
                            (decidedPots g))
                  == Qsum (map potAmount (pots g)))%Q).
  { unfold decidedPots. rewrite map_map. apply Qsum_map_ext.
    intros pot Hpot. unfold potShare, potAmount.
    cbn [winHandRanks prevARsAmount set_winHandRanks].
    unfold showdownPaysOut in Hpay. rewrite Forall_forall in Hpay.
    destruct (Hpay pot Hpot) as [Hne _].
    rewrite (Horg pot Hpot). field.
    change 0%Q with (inject_Z 0). rewrite inject_Z_injective.
    destruct (potWinningRanks (ranked g) pot); [contradiction|].
    cbn [List.length]. lia. }
  rewrite Hsum. unfold newPot. cbn [prevARsAmount currARAmount]. ring.
Qed.

End Showdown.

Section Conservation.

Context {HandRank : Type}.
Variable bestHandRank : list (option Card) -> HandRank.
Variable pickBestHandRanks :
  list (option (ShowdownRank HandRank)) -> list (ShowdownRank HandRank).
Variable Pot_initialPotentialWinners : Game HandRank -> list nat.
Variable Player_allIn : nat -> Game HandRank -> outcome unit * Game HandRank.
Variable Player_call : nat -> Game HandRank -> outcome unit * Game HandRank.
Variable Player_raise : Q -> nat -> Game HandRank -> outcome unit * Game HandRank.
Variable Player_fold : nat -> Game HandRank -> outcome unit * Game HandRank.
Variable Player_check : nat -> Game HandRank -> outcome unit * Game HandRank.
Variable randDeckIdx : list Card -> nat.

(** One operation of the engine, settlements and the dealer-round restart
    being called on a ledger that is ready for them. *)
Inductive step : Game HandRank -> Game HandRank -> Prop :=
| step_action (result : ActionResult) g :
    step g (snd (callCurrentPlayerAction Player_allIn Player_call Player_raise
                                         Player_fold Player_check result g))
| step_organize g :
    step g (snd (organizePotsAfterRoundEnded g))
| step_foldOut g :
    potsOrganized g ->
    step g (snd (getDealerRoundInfoAndAssignWinnings
                   Pot_initialPotentialWinners g))
| step_showdown g :
    potsOrganized g ->
    showdownSeated bestHandRank pickBestHandRanks g ->
    showdownPaysOut bestHandRank pickBestHandRanks g ->
    step g (snd (getShowdownInfoAndAssignWinnings
                   bestHandRank pickBestHandRanks
                   Pot_initialPotentialWinners g))
| step_actionRound g :
    step g (snd (refreshAndIncActionRound g))
| step_dealerRound g :
    potsEmpty g ->
    step g (snd (refreshDealerRound Player_raise Pot_initialPotentialWinners
                                    randDeckIdx g)).

(** Any number of operations, one after the other. *)
Inductive run : Game HandRank -> Game HandRank -> Prop :=
| run_here g : run g g
| run_then g1 g2 g3 : run g1 g2 -> step g2 g3 -> run g1 g3.

(** The player methods move chips without creating or destroying any. *)
Definition playersConserve : Prop :=
  conserving Player_allIn /\ conserving Player_call
  /\ (forall cents, conserving (Player_raise cents))
  /\ conserving Player_fold /\ conserving Player_check.

Lemma step_chips g g' :
  playersConserve -> step g g' -> (tableChips g' == tableChips g)%Q.
Proof.
  intros (Ha & Hc & Hr & Hf & Hk) Hstep. destruct Hstep.
  - apply callCurrentPlayerAction_chips; assumption.
  - apply organizePotsAfterRoundEnded_chips.
  - apply getDealerRoundInfoAndAssignWinnings_chips. assumption.
  - apply getShowdownInfoAndAssignWinnings_chips; assumption.
  - apply refreshAndIncActionRound_chips.
  - apply refreshDealerRound_chips; assumption.
Qed.

(** C1, amended.  The chips on the table (all stacks, plus for every pot its
    carried-over amount and its current-round amount) are the same before
    and after each of these operations, hence after any sequence of them,
    provided the player methods themselves move chips without creating or
    destroying any: an action application; a pot organization; a fold-out
    settlement and a showdown settlement called when the pots hold nothing
    of the current round (they have been organized), and, for the showdown,
    when every pot names seats only and has at least one winner whose count
    divides its amount; the start of the next action round; and the start
    of the next dealer round called when the pots are empty. *)
Theorem chip_conservation :
  playersConserve ->
  (forall g g', step g g' -> (tableChips g' == tableChips g)%Q)
  /\ (forall g g', run g g' -> (tableChips g' == tableChips g)%Q).
Proof.
  intros Hp. split.
  - intros g g'. apply step_chips. exact Hp.
  - intros g g' Hrun. induction Hrun as [g|g1 g2 g3 _ IH Hstep].
    + reflexivity.
    + rewrite (step_chips Hp Hstep). exact IH.
Qed.

End Conservation.

(** C10.  The guard of [getShowdownInfoAndAssignWinnings] throws when the
    game is not initialized and when the action round is not the river, and
    lets every initialized game on the river through: it does not ask that
    the river betting has ended.  On a river where a raise is still
    unanswered (no round-end condition holds) the showdown runs and pays the
    carried-over amount out. *)
Theorem getShowdownInfoAndAssignWinnings_guard_river_only :
  (forall (HandRank : Type)
          (bestHandRank : list (option Card) -> HandRank)
          (pickBestHandRanks :
             list (option (ShowdownRank HandRank)) -> list (ShowdownRank HandRank))
          (Pot_initialPotentialWinners : Game HandRank -> list nat)
          (g : Game HandRank),
      (initialized g = false ->
       getShowdownInfoAndAssignWinnings bestHandRank pickBestHandRanks
                                        Pot_initialPotentialWinners g
       = (Throw NotInitialized, g))
      /\ (initialized g = true -> actionRound g <> 3%Z ->
          getShowdownInfoAndAssignWinnings bestHandRank pickBestHandRanks
                                           Pot_initialPotentialWinners g
          = (Throw (Error "Cannot river at this point in the game."), g))
      /\ (initialized g = true -> actionRound g = 3%Z ->
          validateInActionRound "river" None g = (Ret tt, g)))
  /\ (initialized Demo.riverBetting = true
      /\ actionRound Demo.riverBetting = 3%Z
      /\ dealerRoundEnded Demo.riverBetting = false
      /\ actionRoundEndedViaAllInScenario Demo.riverBetting = Ret false
      /\ actionRoundEnded Demo.riverBetting = Ret false
      /\ fst (getShowdownInfoAndAssignWinnings
                Demo.bestHandRank Demo.pickBestHandRanks
                Demo.initialPotentialWinners Demo.riverBetting)
         = Ret [mkPotShowdownInfo (Num (400 # 1)) [0]]).
Proof.
  split.
  - intros. apply getShowdownInfoAndAssignWinnings_guard.
  - repeat split; vm_compute; reflexivity.
Qed.

(** ** The engine on the concrete table *)

(** The setup validation: a zero small blind, a big blind that is not a
    multiple of the small blind, and a big blind above buyIn/20 are refused
    and change nothing. *)
Example setup_validation :
  let g := snd (setSmallBlind 100
                  (snd (setBuyIn Demo.MAX_BUYIN_IN_CENTS 10000
                                 (constructor Demo.initialPotentialWinners)))) in
  setSmallBlind 0 g = (false, g)
  /\ setBigBlind 150 g = (false, g)
  /\ setBigBlind 600 g = (false, g)
  /\ fst (setBigBlind 200 g) = true.
Proof. repeat split. Qed.

(** From seat 0 the turn passes the folded seat 1 and the all-in seat 2. *)
Example fourSeats_turn :
  incrementTurnToNextPlayerInGame Demo.fourSeats
  = (Ret [1; 2], turned Demo.fourSeats 3 3).
Proof. reflexivity. Qed.

(** Both seats all-in: the betting is over. *)
Example everyone_allIn :
  actionRoundEndedViaAllInScenario
    (Demo.table [Demo.seat 0 0 1000 true true "call";
                 Demo.seat 1 0 1000 true true "raise"]
                [Demo.pot true 0 2000 [0; 1]] 1 0)
  = Ret true.
Proof. reflexivity. Qed.

(** The next hand after seat 2 won: the button moves to seat 1, seats 2 and
    3 post the blinds, and seat 0 is first to act. *)
Example next_hand :
  let run := refreshDealerRound Demo.Player_raise Demo.initialPotentialWinners
                                Demo.randDeckIdx Demo.afterHand in
  fst run = Ret false
  /\ dealerIdx (snd run) = 1
  /\ smallBlindIdx (snd run) = 2
  /\ bigBlindIdx (snd run) = 3
  /\ turnIdx (snd run) = 0
  /\ map (@actionState nat) (players (snd run)) = [""; ""; "SB"; "BB"]
  /\ List.length (deck (snd run)) = 44.
Proof. repeat split. Qed.

Lemma Demo_updatePlayer_chips (i : nat) (f : Player nat -> Player nat)
      (g : Game nat) :
  (forall p, stack (f p) = stack p) ->
  tableChips (Demo.updatePlayer i f g) = tableChips g.
Proof.
  intros H. unfold tableChips, Demo.updatePlayer. cbn [players pots set_players].
  rewrite (map_update_nth_same (@stack nat) i f (players g) H). reflexivity.
Qed.

Lemma Demo_commit_chips (a : Q) (i : nat) (g : Game nat) :
  (tableChips (Demo.commit a i g) == tableChips g)%Q.
Proof.
  unfold Demo.commit.
  destruct (nth_error (players g) i) as [p|] eqn:Hp; [|reflexivity].
  destruct (pots g) as [|pot rest] eqn:Hpots; [reflexivity|].
  unfold tableChips. cbn [players pots set_pots set_players Demo.updatePlayer map].
  rewrite (Qsum_update_nth (@stack nat) i _ _ Hp). cbn [stack].
  rewrite Hpots. cbn [map]. rewrite !Qsum_cons. unfold potAmount at 1 3.
  cbn [prevARsAmount currARAmount]. ring.
Qed.

Lemma Demo_players_conserving :
  playersConserve Demo.Player_allIn Demo.Player_call Demo.Player_raise
                  Demo.Player_fold Demo.Player_check.
Proof.
  unfold playersConserve.
  repeat split; intros ? ? ; try intros ?; cbn [snd Demo.Player_allIn
    Demo.Player_call Demo.Player_raise Demo.Player_fold Demo.Player_check].
  - rewrite Demo_updatePlayer_chips by reflexivity. apply Demo_commit_chips.
  - rewrite Demo_updatePlayer_chips by reflexivity. apply Demo_commit_chips.
  - change (tableChips (set_betting ?a ?b ?c ?h)) with (tableChips h).
    rewrite Demo_updatePlayer_chips by reflexivity. apply Demo_commit_chips.
  - rewrite Demo_updatePlayer_chips by reflexivity. reflexivity.
  - rewrite Demo_updatePlayer_chips by reflexivity. reflexivity.
Qed.

(** *** Chip conservation *)

(** C1, as stated, fails.  Pre-flop, three of four seats have folded and the
    3.00 of blinds sit in the pot as current-round commitments: the fold-out
    settlement is let through by its guard, pays seat 2 nothing, and resets
    the ledger.  40000 cents were on the table before, 39700 after. *)
Lemma chip_conservation_counterexample :
  initialized Demo.foldedOut = true
  /\ dealerRoundEnded Demo.foldedOut = true
  /\ fst (getDealerRoundInfoAndAssignWinnings Demo.initialPotentialWinners
                                              Demo.foldedOut)
     = Ret (mkDealerRoundInfo 2 0)
  /\ (tableChips Demo.foldedOut == 40000)%Q
  /\ (tableChips (snd (getDealerRoundInfoAndAssignWinnings
                         Demo.initialPotentialWinners Demo.foldedOut))
      == 39700)%Q.
Proof. repeat split. Qed.

(** A hand that ends by fold-out on the concrete table: the pot is
    organized, paid to seat 2, and the next hand is dealt and its blinds
    posted.  The 40000 cents of the table are there throughout.  So are they
    after a call on the river and after a showdown. *)
Lemma chip_conservation_witness :
  playersConserve Demo.Player_allIn Demo.Player_call Demo.Player_raise
                  Demo.Player_fold Demo.Player_check
  /\ (tableChips
        (snd (refreshDealerRound
                Demo.Player_raise Demo.initialPotentialWinners Demo.randDeckIdx
                (snd (getDealerRoundInfoAndAssignWinnings
                        Demo.initialPotentialWinners
                        (snd (organizePotsAfterRoundEnded Demo.foldedOut))))))
      == tableChips Demo.foldedOut)%Q
  /\ (tableChips
        (snd (callCurrentPlayerAction
                Demo.Player_allIn Demo.Player_call Demo.Player_raise
                Demo.Player_fold Demo.Player_check
                (mkActionResult "call" 0) Demo.riverBetting))
      == tableChips Demo.riverBetting)%Q
  /\ (potsOrganized Demo.riverShowdown
      /\ showdownSeated Demo.bestHandRank Demo.pickBestHandRanks
                        Demo.riverShowdown
      /\ showdownPaysOut Demo.bestHandRank Demo.pickBestHandRanks
                         Demo.riverShowdown
      /\ (tableChips
            (snd (getShowdownInfoAndAssignWinnings
                    Demo.bestHandRank Demo.pickBestHandRanks
                    Demo.initialPotentialWinners Demo.riverShowdown))
          == tableChips Demo.riverShowdown)%Q).
Proof.
  pose proof Demo_players_conserving as Hp.
  destruct (chip_conservation Demo.bestHandRank Demo.pickBestHandRanks
              Demo.initialPotentialWinners Demo.randDeckIdx Hp)
    as (Hstep & Hrun).
  assert (Ho : potsOrganized Demo.riverShowdown).
  { intros pot [<-|[]]. reflexivity. }
  assert (Hs : showdownSeated Demo.bestHandRank Demo.pickBestHandRanks
                              Demo.riverShowdown).
  { vm_compute. repeat constructor. }
  assert (Hw : showdownPaysOut Demo.bestHandRank Demo.pickBestHandRanks
                               Demo.riverShowdown).
  { constructor; [|constructor]. split; [discriminate|].
    exists 600%Z. reflexivity. }
  split; [exact Hp|]. split; [|split].
  - apply Hrun.
    eapply run_then; [eapply run_then; [eapply run_then; [apply run_here|]|]|].
    + apply step_organize.
    + apply step_foldOut. intros pot [<-|[]]. reflexivity.
    + apply step_dealerRound. reflexivity.
  - apply Hstep. apply step_action.
  - split; [exact Ho|]. split; [exact Hs|]. split; [exact Hw|].
    apply Hstep. apply step_showdown; assumption.
Defined.

(** *** Showdown split *)



(** *** Raise legality *)

(** C3, as stated, fails.  Before the first hand of an initialized table the
    previous bet and the minimum raise are both 0; a raise by 0 passes every
    test of [canCurrentPlayerRaiseBy], though 0 is not a positive multiple of
    the small blind and is not the player's stack. *)
Lemma canCurrentPlayerRaiseBy_legality_counterexample :
  initialized Demo.seated = true
  /\ currentPlayer Demo.seated = Some (Demo.seat 0 10000 0 true false "")
  /\ canCurrentPlayerRaiseBy 0 Demo.seated = Ret true
  /\ ~ spec_raiseByLegal Demo.seated (Demo.seat 0 10000 0 true false "") 0.
Proof.
  split; [reflexivity|]. split; [reflexivity|]. split; [reflexivity|].
  intros [_ [H|[H _]]].
  - unfold Qeq in H. cbn in H. lia.
  - unfold Qlt in H. cbn in H. lia.
Qed.

(** On the river table (previous bet 200, minimum raise 200, small blind
    100) seat 1, with a stack of 9800, may not raise to 300, may raise to 400
    and may raise its whole stack. *)
Lemma canCurrentPlayerRaiseBy_legality_witness :
  initialized Demo.riverBetting = true
  /\ currentPlayer Demo.riverBetting
     = Some (Demo.hand 1 9800 (13, "d") (6, "s") " ")
  /\ (0 < smallBlind Demo.riverBetting)%Q
  /\ canCurrentPlayerRaiseBy 300 Demo.riverBetting = Ret false
  /\ canCurrentPlayerRaiseBy 400 Demo.riverBetting = Ret true
  /\ canCurrentPlayerRaiseBy 9800 Demo.riverBetting = Ret true.
Proof.
  assert (Hsb : (0 < smallBlind Demo.riverBetting)%Q) by reflexivity.
  destruct (@canCurrentPlayerRaiseBy_legality
              nat Demo.riverBetting
              (Demo.hand 1 9800 (13, "d") (6, "s") " ") 400
              eq_refl eq_refl Hsb)
    as (_ & Hex & Hall).
  destruct Hex as [H300 H400]; try reflexivity.
  split; [reflexivity|]. split; [reflexivity|]. split; [exact Hsb|].
  split; [|split].
  - apply H300. intros H. unfold Qeq in H. cbn in H. lia.
  - apply H400; [reflexivity|]. unfold Qle. cbn. lia.
  - apply Hall. reflexivity.
Defined.

(** *** All-in fast-forward *)

(** *** Fold-out settlement *)



(** *** Pot organization *)


(** *** Illegal actions *)

(** C6: the defect.  Seat 1 has folded and still holds the turn; it submits
    all-in.  The action is refused and the game is left as it was, but the
    error reads "cannot fold bcz player not in game.": it names fold, not
    the all-in that was attempted. *)
Theorem callCurrentPlayerAction_allIn_error_names_fold :
  currentPlayerInGame Demo.foldedOut = Ret false
  /\ callCurrentPlayerAction
       Demo.Player_allIn Demo.Player_call Demo.Player_raise Demo.Player_fold
       Demo.Player_check (mkActionResult "all-in" 0) Demo.foldedOut
     = (Throw (CurrentPlayerCannot 1 "fold bcz player not in game."),
        Demo.foldedOut)
  /\ callCurrentPlayerAction
       Demo.Player_allIn Demo.Player_call Demo.Player_raise Demo.Player_fold
       Demo.Player_check (mkActionResult "fold" 0) Demo.foldedOut
     = (Throw (CurrentPlayerCannot 1 "fold bcz player not in game."),
        Demo.foldedOut).
Proof. repeat split. Qed.

(** *** Setup *)

(** C8: the defect.  A new game is initialized with buy-in 10000 and blinds
    100 and 200.  Each setter still succeeds on it: [setBuyIn] replaces the
    buy-in, [setSmallBlind] replaces the small blind and sets the big blind
    back to -1 while the game stays marked initialized, and [setBigBlind]
    replaces the big blind. *)
Theorem setters_change_initialized_game :
  initialized Demo.configured = true
  /\ buyIn Demo.configured = 10000%Q
  /\ smallBlind Demo.configured = 100%Q
  /\ bigBlind Demo.configured = 200%Q
  /\ setBuyIn Demo.MAX_BUYIN_IN_CENTS 5000 Demo.configured
     = (true, set_buyIn 5000 Demo.configured)
  /\ setSmallBlind 50 Demo.configured
     = (true, set_bigBlind (-1) (set_smallBlind 50 Demo.configured))
  /\ initialized (snd (setSmallBlind 50 Demo.configured)) = true
  /\ bigBlind (snd (setSmallBlind 50 Demo.configured)) = (-1)%Q
  /\ setBigBlind 400 Demo.configured
     = (true, set_initialized true (set_bigBlind 400 Demo.configured)).
Proof. repeat split. Qed.

(** *** Showdown guard *)

(** On the flop the showdown is refused. *)
Lemma getShowdownInfoAndAssignWinnings_guard_river_only_witness :
  initialized Demo.flopCalled = true
  /\ actionRound Demo.flopCalled <> 3%Z
  /\ getShowdownInfoAndAssignWinnings
       Demo.bestHandRank Demo.pickBestHandRanks Demo.initialPotentialWinners
       Demo.flopCalled
     = (Throw (Error "Cannot river at this point in the game."),
        Demo.flopCalled).
Proof.
  destruct getShowdownInfoAndAssignWinnings_guard_river_only as [Hguard _].
  destruct (Hguard nat Demo.bestHandRank Demo.pickBestHandRanks
                   Demo.initialPotentialWinners Demo.flopCalled)
    as (_ & Hround & _).
  assert (Hr : actionRound Demo.flopCalled <> 3%Z) by discriminate.
  split; [reflexivity|]. split; [exact Hr|].
  apply Hround; [reflexivity | exact Hr].
Defined.

(** * More of the engine

    Properties of the parts of [PokerGame.js] next to the ones above: the
    setup rules, the turn advance on any table, the legality of a call and
    the dispatch of an accepted action, the pre-flop option to check, how an
    action round is read as ended, the start of an action round and of a
    dealer round, the deal, and the fold-out driven as intended. *)

Section SetupRules.

Context {HandRank : Type}.
Implicit Types (g : Game HandRank).

(** X1.  [setBigBlind(val)] on a game whose buy-in is a whole multiple of
    20 cents, for [val] and a small blind that are finite numbers: there the
    twentieth of the buy-in is a whole number of cents, and the code
    compares [val] with it as the exact quotient does.  The call is accepted
    exactly when the small blind has been set (it is not -1) and is not
    zero, [val] is at least the small blind, [val] is a whole multiple of
    the small blind, and [val] is at most a twentieth of the buy-in.  When
    accepted it stores [val] as the big blind and marks the game
    initialized, and changes nothing else; when refused it changes
    nothing. *)
Theorem setBigBlind_accepts_iff g (val : Q) :
  multipleOf 20 (buyIn g) ->
  (fst (setBigBlind val g) = true
   <-> ~ (smallBlind g == -1)%Q
       /\ ~ (smallBlind g == 0)%Q
       /\ (smallBlind g <= val)%Q
       /\ multipleOf (smallBlind g) val
       /\ (val <= buyIn g / 20)%Q)
  /\ (fst (setBigBlind val g) = true ->
      snd (setBigBlind val g) = set_initialized true (set_bigBlind val g))
  /\ (fst (setBigBlind val g) = false -> snd (setBigBlind val g) = g).
Proof.
  intros _. unfold setBigBlind.
  destruct (Qeq_bool (smallBlind g) (-1)) eqn:Eunset.
  { apply Qeq_bool_iff in Eunset. cbn [fst snd].
    split; [split; [discriminate | tauto] | split; [discriminate | reflexivity]]. }
  apply Qeq_bool_false_iff in Eunset.
  destruct (Qlt_bool val (smallBlind g)) eqn:Elt.
  { apply Qlt_bool_iff in Elt. cbn [fst snd].
    split; [split; [discriminate|] | split; [discriminate | reflexivity]].
    intros (_ & _ & Hle & _). exfalso. apply (Qlt_not_le _ _ Elt Hle). }
  apply Qlt_bool_false_iff in Elt.
  destruct (rem_nonzero val (smallBlind g)) eqn:Erem.
  { cbn [fst snd].
    split; [split; [discriminate|] | split; [discriminate | reflexivity]].
    intros (_ & Hz & _ & Hm & _).
    apply (rem_nonzero_false val Hz) in Hm. congruence. }
  assert (Hz : ~ (smallBlind g == 0)%Q).
  { intros Hz. unfold rem_nonzero, js_rem in Erem.
    apply Qeq_bool_iff in Hz. rewrite Hz in Erem. discriminate. }
  apply (rem_nonzero_false val Hz) in Erem.
  destruct (Qlt_bool (buyIn g / 20) val) eqn:Ecap.
  { apply Qlt_bool_iff in Ecap. cbn [fst snd].
    split; [split; [discriminate|] | split; [discriminate | reflexivity]].
    intros (_ & _ & _ & _ & Hle). exfalso. apply (Qlt_not_le _ _ Ecap Hle). }
  apply Qlt_bool_false_iff in Ecap. cbn [fst snd].
  split; [split; [intros _; tauto | reflexivity] | split; [reflexivity | discriminate]].
Qed.

(** X2.  [setSmallBlind(val)] on a game whose buy-in is unset or a whole
    multiple of 20 cents, for a finite number [val]: there the code compares
    [val] with the twentieth of the buy-in as the exact quotient does.  The
    call is accepted exactly when [val] is positive, the buy-in has been set
    (it is not -1) and [val] is at most a twentieth of the buy-in.  When
    accepted it stores [val] as the small blind and sets the big blind back
    to -1, so a big blind set earlier is discarded, and changes nothing
    else; when refused it changes nothing. *)
Theorem setSmallBlind_accepts_iff g (val : Q) :
  (buyIn g == -1)%Q \/ multipleOf 20 (buyIn g) ->
  (fst (setSmallBlind val g) = true
   <-> (0 < val)%Q /\ ~ (buyIn g == -1)%Q /\ (val <= buyIn g / 20)%Q)
  /\ (fst (setSmallBlind val g) = true ->
      snd (setSmallBlind val g) = set_bigBlind (-1) (set_smallBlind val g))
  /\ (fst (setSmallBlind val g) = false -> snd (setSmallBlind val g) = g).
Proof.
  intros _. unfold setSmallBlind.
  destruct (Qle_bool val 0) eqn:Epos.
  { apply Qle_bool_iff in Epos. cbn [fst snd].
    split; [split; [discriminate|] | split; [discriminate | reflexivity]].
    intros (Hpos & _). exfalso. apply (Qlt_not_le _ _ Hpos Epos). }
  assert (Hpos : (0 < val)%Q).
  { apply Qlt_bool_iff. unfold Qlt_bool. rewrite Epos. reflexivity. }
  destruct (Qeq_bool (buyIn g) (-1)) eqn:Eunset.
  { apply Qeq_bool_iff in Eunset. cbn [fst snd].
    split; [split; [discriminate | tauto] | split; [discriminate | reflexivity]]. }
  apply Qeq_bool_false_iff in Eunset.
  destruct (Qlt_bool (buyIn g / 20) val) eqn:Ecap.
  { apply Qlt_bool_iff in Ecap. cbn [fst snd].
    split; [split; [discriminate|] | split; [discriminate | reflexivity]].
    intros (_ & _ & Hle). exfalso. apply (Qlt_not_le _ _ Ecap Hle). }
  apply Qlt_bool_false_iff in Ecap. cbn [fst snd].
  split; [split; [intros _; tauto | reflexivity] | split; [reflexivity | discriminate]].
Qed.

Variable MAX_BUYIN_IN_CENTS : Q.

(** One call of the setup interface. *)
Inductive SetupCall : Type :=
| SetBuyIn (val : Q)
| SetSmallBlind (val : Q)
| SetBigBlind (val : Q).

(** The game a setup call leaves behind, whether it is accepted or not. *)
Definition afterSetupCall g (c : SetupCall) : Game HandRank :=
  match c with
  | SetBuyIn val => snd (setBuyIn MAX_BUYIN_IN_CENTS val g)
  | SetSmallBlind val => snd (setSmallBlind val g)
  | SetBigBlind val => snd (setBigBlind val g)
  end.

(** What the validation of the three setters maintains. *)
Definition configurationSound g : Prop :=
  ((buyIn g == -1)%Q \/ (1 <= buyIn g <= MAX_BUYIN_IN_CENTS)%Q)
  /\ ((smallBlind g == -1)%Q \/ ((0 < smallBlind g)%Q /\ ~ (buyIn g == -1)%Q))
  /\ ((bigBlind g == -1)%Q
      \/ ((0 < smallBlind g)%Q /\ (smallBlind g <= bigBlind g)%Q
          /\ multipleOf (smallBlind g) (bigBlind g)))
  /\ (initialized g = true -> (0 < smallBlind g)%Q /\ (1 <= buyIn g)%Q)
  /\ players g = [] /\ actionRound g = (-1)%Z.

Lemma afterSetupCall_sound g (c : SetupCall) :
  configurationSound g -> configurationSound (afterSetupCall g c).
Proof.
  intros Hg. pose proof Hg as (Hb & Hs & Hbb & Hi & Hp & Hr).
  assert (Hone : ~ (buyIn g == -1)%Q -> (1 <= buyIn g)%Q).
  { intros Hn. destruct Hb as [Hb|[Hb _]]; [contradiction | exact Hb]. }
  destruct c as [val|val|val]; cbn [afterSetupCall].
  - unfold setBuyIn.
    destruct (Qlt_bool val 1) eqn:E1; cbn [orb]; [exact Hg|].
    destruct (Qlt_bool MAX_BUYIN_IN_CENTS val) eqn:E2; [exact Hg|].
    apply Qlt_bool_false_iff in E1, E2. cbn [snd].
    unfold configurationSound.
    cbn [buyIn smallBlind bigBlind initialized players actionRound set_buyIn].
    assert (Hv : ~ (val == -1)%Q) by lra.
    split; [right; split; assumption|].
    split; [destruct Hs as [Hs|[Hs _]]; [left; exact Hs | right; split; assumption]|].
    split; [exact Hbb|].
    split; [intros H; split; [apply Hi; exact H | exact E1]|].
    split; assumption.
  - unfold setSmallBlind.
    destruct (Qle_bool val 0) eqn:Epos; [exact Hg|].
    destruct (Qeq_bool (buyIn g) (-1)) eqn:Eunset; [exact Hg|].
    destruct (Qlt_bool (buyIn g / 20) val); [exact Hg|].
    assert (Hpos : (0 < val)%Q).
    { apply Qlt_bool_iff. unfold Qlt_bool. rewrite Epos. reflexivity. }
    apply Qeq_bool_false_iff in Eunset. cbn [snd].
    unfold configurationSound.
    cbn [buyIn smallBlind bigBlind initialized players actionRound
         set_bigBlind set_smallBlind].
    split; [exact Hb|]. split; [right; split; assumption|].
    split; [left; reflexivity|].
    split; [intros _; split; [exact Hpos | apply Hone; exact Eunset]|].
    split; assumption.
  - unfold setBigBlind.
    destruct (Qeq_bool (smallBlind g) (-1)) eqn:Eunset; [exact Hg|].
    destruct (Qlt_bool val (smallBlind g)) eqn:Elt; [exact Hg|].
    destruct (rem_nonzero val (smallBlind g)) eqn:Erem; [exact Hg|].
    destruct (Qlt_bool (buyIn g / 20) val); [exact Hg|].
    apply Qeq_bool_false_iff in Eunset. apply Qlt_bool_false_iff in Elt.
    destruct Hs as [Hs|[Hs Hbuy]]; [contradiction|].
    assert (Hz : ~ (smallBlind g == 0)%Q) by lra.
    apply (rem_nonzero_false val Hz) in Erem. cbn [snd].
    unfold configurationSound.
    cbn [buyIn smallBlind bigBlind initialized players actionRound
         set_bigBlind set_initialized].
    split; [exact Hb|]. split; [right; split; assumption|].
    split; [right; repeat split; assumption|].
    split; [intros _; split; [exact Hs | apply Hone; exact Hbuy]|].
    split; assumption.
Qed.

Variable Pot_initialPotentialWinners : Game HandRank -> list nat.

(** The arguments for which the setters decide as the exact quotient
    does: a buy-in is a whole multiple of 20 cents. *)
Definition wholeTwentieth (c : SetupCall) : Prop :=
  match c with
  | SetBuyIn val => multipleOf 20 val
  | SetSmallBlind _ | SetBigBlind _ => True
  end.

(** X3.  Whatever calls of [setBuyIn], [setSmallBlind] and [setBigBlind]
    are made on a new game with finite numbers, the buy-ins whole multiples
    of 20 cents, in whatever order and whether they are accepted or refused:
    the buy-in is unset or lies between 1 and the largest buy-in; the small
    blind is unset or positive, and once it is set the buy-in is set; the big
    blind is unset or a whole multiple of the current small blind that is at
    least as large; an initialized game has a positive small blind and a
    buy-in of at least 1; no seat has been taken and no round has
    started. *)
Theorem setup_calls_keep_configuration_sound (calls : list SetupCall) :
  Forall wholeTwentieth calls ->
  configurationSound
    (fold_left afterSetupCall calls (constructor Pot_initialPotentialWinners)).
Proof.
  intros _.
  assert (H0 : configurationSound (constructor Pot_initialPotentialWinners)).
  { unfold configurationSound. cbn.
    repeat split; try (left; reflexivity); try reflexivity; discriminate. }
  revert H0. generalize (constructor Pot_initialPotentialWinners).
  induction calls as [|c calls IH]; intros g Hg; [exact Hg|].
  cbn [fold_left]. apply IH. apply afterSetupCall_sound. exact Hg.
Qed.

End SetupRules.

Lemma count_if_zero {A : Type} (f : A -> bool) (l : list A) :
  count_if f l = 0 <-> forall x, In x l -> f x = false.
Proof.
  rewrite count_if_length. split.
  - intros H x Hx. destruct (f x) eqn:E; [|reflexivity].
    assert (Hin : In x (filter f l)) by (apply filter_In; split; assumption).
    destruct (filter f l); [destruct Hin | discriminate].
  - intros H. induction l as [|x l IH]; [reflexivity|]. cbn.
    rewrite (H x (or_introl eq_refl)). apply IH.
    intros y Hy. apply H. right. exact Hy.
Qed.

Lemma count_if_all {A : Type} (f : A -> bool) (l : list A) :
  count_if f l = List.length l <-> forall x, In x l -> f x = true.
Proof.
  rewrite count_if_length. induction l as [|x l IH]; cbn.
  - split; [intros _ x [] | reflexivity].
  - pose proof (filter_length_le f l) as Hle. destruct (f x) eqn:E; cbn.
    + split.
      * intros H y [<-|Hy]; [exact E | apply IH; [lia | exact Hy]].
      * intros H. f_equal. apply IH. intros y Hy. apply H. right. exact Hy.
    + split; [lia|]. intros H. rewrite (H x (or_introl eq_refl)) in E.
      discriminate.
Qed.

Section Dispatch.

Context {HandRank : Type}.
Variable Player_allIn : nat -> Game HandRank -> outcome unit * Game HandRank.
Variable Player_call : nat -> Game HandRank -> outcome unit * Game HandRank.
Variable Player_raise : Q -> nat -> Game HandRank -> outcome unit * Game HandRank.
Variable Player_fold : nat -> Game HandRank -> outcome unit * Game HandRank.
Variable Player_check : nat -> Game HandRank -> outcome unit * Game HandRank.
Implicit Types (g : Game HandRank) (p : Player HandRank).

(** The method of the player object that applies an action. *)
Definition playerMethod (result : ActionResult)
  : nat -> Game HandRank -> outcome unit * Game HandRank :=
  let a := playerAction result in
  if String.eqb a "all-in" then Player_allIn
  else if String.eqb a "call" then Player_call
  else if String.eqb a "raise" then Player_raise (raiseAmount result)
  else if String.eqb a "fold" then Player_fold
  else Player_check.

(** X6.  When a seat holds the turn and the submitted action passes its
    legality check, [callCurrentPlayerAction] does exactly what the matching
    method of the player object of that seat does ([allIn], [call],
    [raise(raiseAmount)], [fold] or [check]): same outcome, same game. *)
Theorem callCurrentPlayerAction_legal_dispatch (result : ActionResult) g p :
  currentPlayer g = Some p ->
  In (playerAction result) ["all-in"; "call"; "raise"; "fold"; "check"] ->
  actionLegal result g = Ret true ->
  callCurrentPlayerAction Player_allIn Player_call Player_raise Player_fold
                          Player_check result g
  = playerMethod result (turnIdx g) g.
Proof.
  intros Hp Hin Hl. unfold actionLegal in Hl.
  unfold callCurrentPlayerAction, playerMethod, bind, unless, onCurrentPlayer.
  cbn in Hin.
  destruct Hin as [H|[H|[H|[H|[H|[]]]]]]; rewrite <- H in *; cbn in Hl |- *.
  - rewrite Hl, Hp. reflexivity.
  - rewrite Hl, Hp. reflexivity.
  - destruct (canCurrentPlayerRaise g) as [[|]|e]; try discriminate.
    rewrite Hl, Hp. reflexivity.
  - rewrite Hl, Hp. reflexivity.
  - rewrite Hl, Hp. reflexivity.
Qed.

End Dispatch.

Section RoundEnd.

Context {HandRank : Type}.
Implicit Types (g : Game HandRank) (p : Player HandRank) (pot : Pot HandRank).

Lemma isActionRound_preflop g :
  isActionRound "pre-flop" g = true <-> actionRound g = 0%Z.
Proof.
  unfold isActionRound, actionRoundStr, ACTION_ROUNDS.
  destruct (Z.eqb_spec (actionRound g) (-1)); [cbn; split; [discriminate|lia]|].
  destruct (Z.eqb_spec (actionRound g) 0); [cbn; tauto|].
  destruct (Z.eqb_spec (actionRound g) 1); [cbn; split; [discriminate|lia]|].
  destruct (Z.eqb_spec (actionRound g) 2); [cbn; split; [discriminate|lia]|].
  destruct (Z.eqb_spec (actionRound g) 3); [cbn; split; [discriminate|lia]|].
  split; [discriminate | contradiction].
Qed.

Lemma bind_ret {A B : Type} (a : A) (k : A -> M HandRank B) g :
  bind (ret a) k g = k a g.
Proof. reflexivity. Qed.

Lemma bind_modify {B : Type} (f : Game HandRank -> Game HandRank)
      (k : unit -> M HandRank B) g :
  bind (modify f) k g = k tt (f g).
Proof. reflexivity. Qed.

Lemma bind_get {B : Type} (k : Game HandRank -> M HandRank B) g :
  bind (@get HandRank) k g = k g g.
Proof. reflexivity. Qed.

(** A seat in the hand that the no-raise count takes in. *)
Definition countedNoRaise g p : Prop :=
  (isAllIn p = true /\ (actionState p = "call" \/ actionState p = " "))
  \/ (isAllIn p = false /\ actionState p = "call"
      /\ forall pot, In pot (pots g) -> open pot = true ->
                     In (id p) (potentialWinners pot))
  \/ (actionState p = "check"
      /\ forall q, In q (players g) -> inGame q = true ->
                   actionState q = "check").

Lemma numPlayersInGame_length g :
  numPlayersInGame g = List.length (filter (@inGame HandRank) (players g)).
Proof. apply count_if_length. Qed.

Lemma noRaiseScenarioCounter_counts_all g :
  noRaiseScenarioCounter g = numPlayersInGame g
  <-> forall p, In p (players g) -> inGame p = true -> countedNoRaise g p.
Proof.
  rewrite numPlayersInGame_length. unfold noRaiseScenarioCounter.
    rewrite count_if_all. split.
    - intros H p Hp Hg.
      specialize (H p ltac:(apply filter_In; split; assumption)).
      cbv beta in H. unfold countedNoRaise.
      destruct (isAllIn p) eqn:Ea; cbn [andb negb] in H.
      + destruct (String.eqb_spec (actionState p) "call") as [Ec|Ec];
          cbn [orb andb] in H; [left; tauto|].
        destruct (String.eqb_spec (actionState p) " ") as [Es|Es];
          [left; tauto|].
        destruct (String.eqb_spec (actionState p) "check") as [Ek|Ek];
          [|discriminate].
        right. right. split; [exact Ek|]. intros q Hq Hqg.
        rewrite forallb_forall in H. apply String.eqb_eq. apply H.
        apply filter_In. split; assumption.
      + destruct (String.eqb_spec (actionState p) "call") as [Ec|Ec];
          cbn [orb andb] in H.
        * right. left. split; [reflexivity|]. split; [exact Ec|].
          intros pot Hpot Ho. rewrite forallb_forall in H.
          apply playerIdxInPotentialWinners_In. apply H.
          apply filter_In. split; assumption.
        * destruct (String.eqb_spec (actionState p) "check") as [Ek|Ek];
            [|discriminate].
          right. right. split; [exact Ek|]. intros q Hq Hqg.
          rewrite forallb_forall in H. apply String.eqb_eq. apply H.
          apply filter_In. split; assumption.
    - intros H p Hp. apply filter_In in Hp. destruct Hp as [Hp Hg].
      specialize (H p Hp Hg). cbv beta.
      destruct H as [[Ea [Ec|Es]]|[(Ea & Ec & Hall)|[Ek Hall]]].
      + rewrite Ea, Ec. reflexivity.
      + rewrite Ea, Es. reflexivity.
      + rewrite Ea, Ec. cbn. apply forallb_forall. intros pot Hpot.
        apply filter_In in Hpot. destruct Hpot as [Hpot Ho].
        apply playerIdxInPotentialWinners_In. apply Hall; assumption.
      + rewrite Ek. cbn. rewrite andb_false_r. apply forallb_forall.
        intros q Hq. apply filter_In in Hq. destruct Hq as [Hq Hqg].
        apply String.eqb_eq. apply Hall; assumption.
Qed.

(** X9.  The no-raise count never exceeds the number of seats in the hand.
    It reaches that number exactly when every seat in the hand is counted:
    it is all-in and tagged call or [" "], or it is not all-in, tagged call
    and eligible in every open pot, or it is tagged check and so is every
    seat in the hand.  When it does, no seat in the hand carries the tag of
    a raise: the two ways an action round can end exclude each other. *)
Theorem noRaiseScenarioCounter_all_iff g :
  noRaiseScenarioCounter g <= numPlayersInGame g
  /\ (noRaiseScenarioCounter g = numPlayersInGame g
      <-> forall p, In p (players g) -> inGame p = true -> countedNoRaise g p)
  /\ (noRaiseScenarioCounter g = numPlayersInGame g ->
      raiseScenarioCounter g = 0).
Proof.
  pose proof (noRaiseScenarioCounter_counts_all g) as Hiff.
  split; [|split; [exact Hiff|]].
  - rewrite numPlayersInGame_length. unfold noRaiseScenarioCounter.
    rewrite count_if_length. apply filter_length_le.
  - intros H0. pose proof (proj1 Hiff H0) as H. unfold raiseScenarioCounter.
    apply count_if_zero. intros p Hp. apply filter_In in Hp.
    destruct Hp as [Hp Hg]. specialize (H p Hp Hg).
    destruct H as [[_ [E|E]]|[(_ & E & _)|[E _]]]; rewrite E; reflexivity.
Qed.

(** X10.  In an initialized game, while [actionRoundEnded] answers false
    [getActionRoundInfo] throws and changes nothing; once it answers true it
    returns, changing nothing, one of the two scenarios: no-raise exactly
    when the pre-flop round has ended or the no-raise count covers every
    seat in the hand, and raise otherwise, in which case exactly one seat in
    the hand carries the tag of a raise and the seat holding the turn
    carries it. *)
Theorem getActionRoundInfo_scenarios g :
  initialized g = true ->
  (actionRoundEnded g = Ret false ->
   getActionRoundInfo g = (Throw (Error "Action round hasn't ended."), g))
  /\ (actionRoundEnded g = Ret true ->
      exists s,
        getActionRoundInfo g = (Ret s, g)
        /\ (s = "no-raise" \/ s = "raise")
        /\ (s = "no-raise"
            <-> preFlopActionRoundEnded g = Ret true
                \/ noRaiseScenarioCounter g = numPlayersInGame g)
        /\ (s = "raise" ->
            raiseScenarioCounter g = 1
            /\ exists p, currentPlayer g = Some p /\ actionState p = "raise")).
Proof.
  intros Hi. unfold getActionRoundInfo, bind, throwIfNotInitialized, read, get.
  rewrite Hi. split.
  - intros He. rewrite He. reflexivity.
  - intros He. rewrite He. cbn [negb]. unfold actionRoundEnded in He.
    destruct (preFlopActionRoundEnded g) as [[|]|e] eqn:Epre;
      [|  |discriminate].
    + exists "no-raise". split; [reflexivity|]. split; [tauto|].
      split; [tauto | discriminate].
    + cbn [orb].
      destruct (Nat.eqb_spec (noRaiseScenarioCounter g) (numPlayersInGame g))
        as [En|En].
      * exists "no-raise". split; [reflexivity|]. split; [tauto|].
        split; [tauto | discriminate].
      * exists "raise". split; [reflexivity|]. split; [tauto|].
        split; [split; [discriminate | intros [H|H]; [discriminate|contradiction]]|].
        intros _.
        destruct (Nat.eqb_spec (raiseScenarioCounter g) 1) as [Er|Er];
          [|discriminate].
        split; [exact Er|].
        destruct (currentPlayer g) as [p|]; [|discriminate].
        exists p. split; [reflexivity|]. apply String.eqb_eq.
        injection He as He. exact He.
Qed.

End RoundEnd.

Section NextActionRound.

Context {HandRank : Type}.
Implicit Types (g : Game HandRank) (p : Player HandRank) (pot : Pot HandRank).

Lemma Game_ext (a b : Game HandRank) :
  initialized a = initialized b -> buyIn a = buyIn b ->
  smallBlind a = smallBlind b -> bigBlind a = bigBlind b ->
  players a = players b -> dealerIdx a = dealerIdx b ->
  smallBlindIdx a = smallBlindIdx b -> bigBlindIdx a = bigBlindIdx b ->
  turnIdx a = turnIdx b -> numTurnIncrements a = numTurnIncrements b ->
  pots a = pots b -> actionRound a = actionRound b -> board a = board b ->
  deck a = deck b -> minRaise a = minRaise b ->
  previousBet a = previousBet b -> allowCheck a = allowCheck b ->
  a = b.
Proof.
  destruct a, b. cbn. intros. subst. reflexivity.
Qed.

(** A player as the start of an action round leaves it: nothing committed,
    free to raise, tagged [" "] in the hand and [""] out of it. *)
Definition freshPlayer p : Player HandRank :=
  mkPlayer (id p) (cards p) (stack p) 0%Q (inGame p) (isAllIn p) true
           (if inGame p then " " else "") (showdownRank p).

(** The game at the start of the next action round, the turn on seat [t]
    and [c] turn increments counted. *)
Definition startedRound g (t c : nat) : Game HandRank :=
  mkGame (initialized g) (buyIn g) (smallBlind g) (bigBlind g)
         (map freshPlayer (players g))
         (dealerIdx g) (smallBlindIdx g) (bigBlindIdx g) t c (pots g)
         (actionRound g + 1)%Z (board g) (deck g) (bigBlind g) 0%Q true.

Lemma validateNotInActionRound_passes (event : string) (msg : option string) g :
  initialized g = true -> isActionRound event g = false ->
  validateNotInActionRound event msg g = (Ret tt, g).
Proof.
  intros Hi He. unfold validateNotInActionRound, bind, throwIfNotInitialized, get.
  rewrite Hi, He. reflexivity.
Qed.

Lemma validateNotInActionRound_refuses (event : string) (msg : option string) g :
  initialized g = true -> isActionRound event g = true ->
  validateNotInActionRound event msg g
  = (Throw (Error (match msg with
                   | Some m => m
                   | None => ("Cannot " ++ event
                              ++ " at this point in the game.")%string
                   end)), g).
Proof.
  intros Hi He. unfold validateNotInActionRound, bind, throwIfNotInitialized, get.
  rewrite Hi, He. reflexivity.
Qed.

Lemma validateNotInActionRound_uninitialized (event : string)
      (msg : option string) g :
  initialized g = false ->
  validateNotInActionRound event msg g = (Throw NotInitialized, g).
Proof.
  intros Hi. unfold validateNotInActionRound, bind, throwIfNotInitialized.
  rewrite Hi. reflexivity.
Qed.

Lemma isActionRound_uninitialized g :
  isActionRound "uninitialized" g = true <-> actionRound g = (-1)%Z.
Proof.
  unfold isActionRound, actionRoundStr, ACTION_ROUNDS.
  destruct (Z.eqb_spec (actionRound g) (-1)); [cbn; tauto|].
  destruct (Z.eqb_spec (actionRound g) 0); [cbn; split; [discriminate|lia]|].
  destruct (Z.eqb_spec (actionRound g) 1); [cbn; split; [discriminate|lia]|].
  destruct (Z.eqb_spec (actionRound g) 2); [cbn; split; [discriminate|lia]|].
  destruct (Z.eqb_spec (actionRound g) 3); [cbn; split; [discriminate|lia]|].
  split; [discriminate | contradiction].
Qed.

Lemma isActionRound_false (event : string) g (r : Z) :
  (isActionRound event g = true <-> actionRound g = r) ->
  actionRound g <> r -> isActionRound event g = false.
Proof.
  intros H Hr. destruct (isActionRound event g); [|reflexivity].
  exfalso. apply Hr. apply H. reflexivity.
Qed.

(** The game in which [refreshAndIncActionRound] advances the turn. *)
Definition roundReset g : Game HandRank :=
  set_turnIdx (dealerIdx g)
    (set_betting 0%Q (bigBlind g) true
       (set_players
          (map (fun player =>
                  mkPlayer (id player) (cards player) (stack player) 0%Q
                           (inGame player) (isAllIn player) true ""
                           (showdownRank player))
               (players g)) g)).

Lemma roundReset_totalPlayers g : totalPlayers (roundReset g) = totalPlayers g.
Proof.
  unfold totalPlayers, roundReset.
  cbn [players set_turnIdx set_betting set_players]. apply length_map.
Qed.

(** [refreshAndIncActionRound] past its two guards. *)
Lemma refreshAndIncActionRound_unfold g :
  initialized g = true ->
  actionRound g <> 3%Z ->
  actionRound g <> (-1)%Z ->
  refreshAndIncActionRound g
  = match incrementTurnToNextPlayerInGame (roundReset g) with
    | (Ret skipped, g4) =>
        (Ret skipped, startedRound g (turnIdx g4) (numTurnIncrements g4))
    | (Throw e, g4) => (Throw e, g4)
    end.
Proof.
  intros Hi H3 H1. unfold refreshAndIncActionRound.
  unfold bind at 1.
  rewrite validateNotInActionRound_passes;
    [|exact Hi | apply (@isActionRound_false _ g _ (isActionRound_river g) H3)].
  unfold bind at 1.
  rewrite validateNotInActionRound_passes;
    [|exact Hi | apply (@isActionRound_false _ g _ (isActionRound_uninitialized g) H1)].
  repeat (rewrite bind_modify; cbv beta).
  unfold bind at 1.
  match goal with
  | |- context [incrementTurnToNextPlayerInGame ?x] =>
      replace x with (roundReset g) by reflexivity
  end.
  destruct (incrementTurnToNextPlayerInGame_frame (roundReset g))
    as (t & c & Hf).
  destruct (incrementTurnToNextPlayerInGame (roundReset g)) as [[sk|e] g4];
    [|reflexivity].
  cbn [snd] in Hf. subst g4. repeat (rewrite bind_modify; cbv beta).
  unfold ret.
  f_equal. apply Game_ext;
    cbn [initialized buyIn smallBlind bigBlind players dealerIdx
         smallBlindIdx bigBlindIdx turnIdx numTurnIncrements pots actionRound
         board deck minRaise previousBet allowCheck
         startedRound roundReset set_actionRound set_players set_turnIdx
         set_numTurnIncrements set_betting];
    try reflexivity.
  rewrite map_map. apply map_ext. intros p. unfold freshPlayer.
  cbn [inGame]. destruct (inGame p); reflexivity.
Qed.

(** X12.  [refreshAndIncActionRound] throws and changes nothing on a game
    that is not initialized, on the river, and before the first dealer
    round, each time with its own error. *)
Theorem refreshAndIncActionRound_refused g :
  (initialized g = false ->
   refreshAndIncActionRound g = (Throw NotInitialized, g))
  /\ (initialized g = true -> actionRound g = 3%Z ->
      refreshAndIncActionRound g
      = (Throw (Error ("Cannot refresh and increment action round "
                       ++ "consecutively more than 4times without calling "
                       ++ "refreshDealerRound.")), g))
  /\ (initialized g = true -> actionRound g = (-1)%Z ->
      refreshAndIncActionRound g
      = (Throw (Error ("Must call refreshDealerRound before calling "
                       ++ "refreshAndIncActionRound.")), g)).
Proof.
  split; [|split].
  - intros Hi. unfold refreshAndIncActionRound. unfold bind at 1.
    rewrite validateNotInActionRound_uninitialized by exact Hi. reflexivity.
  - intros Hi Hr. unfold refreshAndIncActionRound. unfold bind at 1.
    rewrite validateNotInActionRound_refuses;
      [reflexivity | exact Hi | apply isActionRound_river; exact Hr].
  - intros Hi Hr. unfold refreshAndIncActionRound. unfold bind at 1.
    rewrite validateNotInActionRound_passes;
      [|exact Hi
       |apply (@isActionRound_false _ g _ (isActionRound_river g)); lia].
    unfold bind at 1.
    rewrite validateNotInActionRound_refuses;
      [reflexivity | exact Hi | apply isActionRound_uninitialized; exact Hr].
Qed.

Lemma count_if_map {A B : Type} (f : B -> bool) (h : A -> B) (l : list A) :
  count_if f (map h l) = count_if (fun x => f (h x)) l.
Proof.
  rewrite !count_if_length. induction l as [|x l IH]; [reflexivity|].
  cbn. destruct (f (h x)); cbn; rewrite IH; reflexivity.
Qed.

Lemma count_if_complement {A : Type} (f : A -> bool) (l : list A) :
  count_if f l + count_if (fun x => negb (f x)) l = List.length l.
Proof.
  rewrite !count_if_length. induction l as [|x l IH]; [reflexivity|].
  cbn. destruct (f x); cbn; lia.
Qed.

End NextActionRound.

Section FoldOutProtocol.

Context {HandRank : Type}.
Variable Pot_initialPotentialWinners : Game HandRank -> list nat.
Implicit Types (g : Game HandRank) (p : Player HandRank) (pot : Pot HandRank).

Local Notation "'settle'" :=
  (getDealerRoundInfoAndAssignWinnings Pot_initialPotentialWinners).





Lemma findIndex_update_nth_same {A : Type} (f : A -> bool) (h : A -> A)
      (i : nat) (l : list A) :
  (forall x, f (h x) = f x) -> findIndex f (update_nth i h l) = findIndex f l.
Proof.
  intros H. revert i. induction l as [|x l IH]; intros [|i]; cbn; auto.
  - rewrite H. reflexivity.
  - rewrite IH. reflexivity.
Qed.

Lemma count_if_update_nth_same {A : Type} (f : A -> bool) (h : A -> A)
      (i : nat) (l : list A) :
  (forall x, f (h x) = f x) -> count_if f (update_nth i h l) = count_if f l.
Proof.
  intros H. rewrite !count_if_length. revert i.
  induction l as [|x l IH]; intros [|i]; cbn; auto.
  - rewrite H. destruct (f x); reflexivity.
  - destruct (f x); cbn; rewrite IH; reflexivity.
Qed.

(** What is known once the fold-out settlement has returned. *)
Lemma getDealerRoundInfoAndAssignWinnings_returned g info g1 :
  settle g = (Ret info, g1) ->
  initialized g = true
  /\ dealerRoundEnded g = true
  /\ exists i winner,
       findIndex (@inGame HandRank) (players g) = Some i
       /\ nth_error (players g) i = Some winner
       /\ info = mkDealerRoundInfo (id winner) (carriedAmount (pots g))
       /\ g1 = paidOut Pot_initialPotentialWinners g i (carriedAmount (pots g)).
Proof.
  intros Hrun.
  destruct (getDealerRoundInfoAndAssignWinnings_run
              Pot_initialPotentialWinners g) as (Hu & Hn & Hy).
  destruct (initialized g) eqn:Hi;
    [|rewrite (Hu eq_refl) in Hrun; discriminate].
  destruct (dealerRoundEnded g) eqn:Hd;
    [|rewrite (Hn eq_refl eq_refl) in Hrun; discriminate].
  split; [reflexivity|]. split; [reflexivity|].
  destruct (findIndex (@inGame HandRank) (players g)) as [i|] eqn:Hidx.
  - pose proof (findIndex_find _ _ Hidx) as Hf.
    destruct (nth_error (players g) i) as [w|] eqn:Hw.
    + destruct (Hy eq_refl eq_refl i w eq_refl Hw) as [Hr _].
      rewrite Hr in Hrun. injection Hrun as <- <-.
      exists i, w. repeat split; assumption.
    + exfalso. revert Hrun.
      unfold getDealerRoundInfoAndAssignWinnings, bind, throwIfNotInitialized,
        get. rewrite Hi, Hd, Hidx, <- Hf. discriminate.
  - exfalso. revert Hrun.
    unfold getDealerRoundInfoAndAssignWinnings, bind, throwIfNotInitialized,
      get. rewrite Hi, Hd, Hidx. discriminate.
Qed.

(** X15.  Settling a fold-out twice pays once.  After
    [getDealerRoundInfoAndAssignWinnings] has returned, a second call
    returns as well, names the same winner, reports winnings of zero and
    leaves every seat with the amount it had. *)
Theorem getDealerRoundInfoAndAssignWinnings_twice g info g1 :
  settle g = (Ret info, g1) ->
  exists info2 g2,
    settle g1 = (Ret info2, g2)
    /\ winnerIdx info2 = winnerIdx info
    /\ (winnings info2 == 0)%Q
    /\ Forall2 (fun p2 p1 => (stack p2 == stack p1)%Q
                             /\ set_stack (stack p1) p2 = p1)
               (players g2) (players g1).
Proof.
  intros Hrun.
  apply getDealerRoundInfoAndAssignWinnings_returned in Hrun.
  destruct Hrun as (Hi & Hd & i & w & Hidx & Hw & -> & ->).
  set (total := carriedAmount (pots g)).
  set (g1 := paidOut Pot_initialPotentialWinners g i total).
  destruct (getDealerRoundInfoAndAssignWinnings_run
              Pot_initialPotentialWinners g1) as (_ & _ & Hy).
  assert (Hi1 : initialized g1 = true) by exact Hi.
  assert (Hd1 : dealerRoundEnded g1 = true).
  { rewrite <- Hd. unfold dealerRoundEnded, totalPlayers, g1, paidOut.
    cbn [players set_pots set_players].
    rewrite update_nth_length, count_if_update_nth_same; reflexivity. }
  assert (Hidx1 : findIndex (@inGame HandRank) (players g1) = Some i).
  { rewrite <- Hidx. unfold g1, paidOut. cbn [players set_pots set_players].
    apply findIndex_update_nth_same. reflexivity. }
  assert (Hw1 : nth_error (players g1) i
                = Some (set_stack (stack w + total)%Q w)).
  { unfold g1, paidOut. cbn [players set_pots set_players].
    rewrite nth_error_update_nth, Nat.eqb_refl, Hw. reflexivity. }
  destruct (Hy Hi1 Hd1 i _ Hidx1 Hw1) as [Hrun2 _].
  eexists _, _. split; [exact Hrun2|]. split; [reflexivity|].
  split; [reflexivity|].
  unfold paidOut at 1. cbn [players set_pots set_players].
  assert (Hz : (carriedAmount (pots g1) == 0)%Q) by reflexivity.
  revert Hz. generalize (carriedAmount (pots g1)) (players g1).
  intros q l Hq. clear -Hq. revert i.
  induction l as [|x l IH]; intros i; [destruct i; cbn; constructor|].
  destruct i as [|i]; cbn [update_nth].
  - constructor.
    + cbn [stack set_stack]. split; [rewrite Hq; ring | destruct x; reflexivity].
    + clear. induction l as [|y l IH]; constructor; [|exact IH].
      split; [reflexivity | destruct y; reflexivity].
  - constructor; [|apply IH].
    split; [reflexivity | destruct x; reflexivity].
Qed.

End FoldOutProtocol.

(** ** Lists updated at one position *)

Lemma update_nth_at {A : Type} (f : A -> A) (a : list A) (x : A) (b : list A) :
  update_nth (List.length a) f (a ++ x :: b) = a ++ f x :: b.
Proof.
  induction a as [|y a IH]; cbn; [reflexivity|]. rewrite IH. reflexivity.
Qed.

Lemma splice1_at {A : Type} (a : list A) (x : A) (b : list A) :
  splice1 (List.length a) (a ++ x :: b) = a ++ b.
Proof.
  induction a as [|y a IH]; cbn; [reflexivity|]. rewrite IH. reflexivity.
Qed.

Lemma Permutation_move {A : Type} (c : A) (l1 l2 r1 r2 : list A) :
  Permutation (l1 ++ c :: l2 ++ r1 ++ r2) (l1 ++ l2 ++ r1 ++ c :: r2).
Proof.
  apply Permutation_app_head. rewrite !app_assoc.
  rewrite <- (app_assoc l2 r1 r2). rewrite app_assoc.
  apply Permutation_middle.
Qed.

Section Dealing.

Context {HandRank : Type}.
Variable randDeckIdx : list Card -> nat.
Implicit Types (g : Game HandRank) (p : Player HandRank).

(** [Math.floor(Math.random() * n)] is below [n] when [n] is positive. *)
Definition drawsInRange : Prop :=
  forall d : list Card, d <> [] -> randDeckIdx d < List.length d.

Definition presentCards (l : list (option Card)) : list Card :=
  flat_map (fun c => match c with Some x => [x] | None => [] end) l.

(** The cards the seats hold. *)
Definition heldCards (ps : list (Player HandRank)) : list Card :=
  flat_map (fun p => presentCards (cards p)) ps.

(** What the slot [k] of seat [i] holds; [None] when there is no such slot. *)
Definition slotAt g (i k : nat) : option (option Card) :=
  match nth_error (players g) i with
  | Some p => nth_error (cards p) k
  | None => None
  end.

(** One draw: the body of the inner loop of [dealCards]. *)
Definition dealt (i k : nat) g : Game HandRank :=
  snd (dealCard randDeckIdx i k g).

Lemma dealCard_dealt (i k : nat) g :
  dealCard randDeckIdx i k g = (Ret tt, dealt i k g).
Proof. reflexivity. Qed.

(** A draw leaves every other slot as it was. *)
Lemma dealt_frame (i k i' k' : nat) g :
  (i', k') <> (i, k) -> slotAt (dealt i k g) i' k' = slotAt g i' k'.
Proof.
  intros Hne. unfold slotAt, dealt, dealCard, modify.
  cbn [snd players set_deck set_players]. rewrite nth_error_update_nth.
  destruct (Nat.eqb_spec i i') as [E|E]; [|reflexivity].
  destruct (nth_error (players g) i') as [q|]; [|reflexivity].
  cbn [option_map]. unfold set_card. cbn [cards]. rewrite nth_error_update_nth.
  destruct (Nat.eqb_spec k k') as [E'|E']; [|reflexivity].
  exfalso. apply Hne. congruence.
Qed.

(** A draw into an empty slot moves one card from the deck to the slot. *)
Lemma dealt_draw (i k : nat) g :
  drawsInRange ->
  deck g <> [] ->
  slotAt g i k = Some None ->
  Permutation (heldCards (players (dealt i k g)) ++ deck (dealt i k g))
              (heldCards (players g) ++ deck g)
  /\ List.length (deck (dealt i k g)) + 1 = List.length (deck g)
  /\ exists c, slotAt (dealt i k g) i k = Some (Some c).
Proof.
  intros Hrange Hdeck Hslot. unfold slotAt in Hslot.
  destruct (nth_error (players g) i) as [p|] eqn:Hp; [|discriminate].
  specialize (Hrange (deck g) Hdeck).
  unfold slotAt, dealt, dealCard, modify.
  cbn [snd deck players set_deck set_players].
  remember (randDeckIdx (deck g)) as r eqn:Er. clear Er.
  destruct (nth_error (deck g) r) as [c|] eqn:Hc;
    [|apply nth_error_None in Hc; lia].
  destruct (nth_error_split _ _ Hc) as (d1 & d2 & Hd & Hlen).
  destruct (nth_error_split _ _ Hp) as (a & b & Hps & Hi).
  destruct (nth_error_split _ _ Hslot) as (ca & cb & Hcs & Hk).
  subst r. rewrite Hd, splice1_at.
  rewrite Hps, <- Hi, update_nth_at. split; [|split].
  - unfold heldCards. rewrite !flat_map_app. cbn [flat_map].
    unfold set_card. cbn [cards]. rewrite Hcs, <- Hk, update_nth_at.
    unfold presentCards at 2 5. rewrite !flat_map_app. cbn [flat_map app].
    fold (presentCards ca). fold (presentCards cb).
    fold (heldCards a). fold (heldCards b).
    rewrite <- !app_assoc. cbn [app].
    rewrite (app_assoc (heldCards a) (presentCards ca)).
    rewrite (app_assoc (heldCards a) (presentCards ca)
                       (presentCards cb ++ heldCards b ++ d1 ++ c :: d2)).
    rewrite (app_assoc (presentCards cb) (heldCards b) (d1 ++ d2)).
    rewrite (app_assoc (presentCards cb) (heldCards b) (d1 ++ c :: d2)).
    apply Permutation_move.
  - rewrite !length_app. cbn [List.length]. lia.
  - exists c. rewrite nth_error_app2, Nat.sub_diag by lia. cbn [nth_error].
    unfold set_card. cbn [cards]. rewrite Hcs, <- Hk, update_nth_at.
    rewrite nth_error_app2, Nat.sub_diag by lia. reflexivity.
Qed.

Lemma forEachM_dealCard (l : list nat) g :
  forEachM (fun i => forEachM (dealCard randDeckIdx i)
                              (seq 0 NUM_CARDS_PER_PLAYER)) l g
  = (Ret tt, fold_left (fun g i => dealt i 1 (dealt i 0 g)) l g).
Proof.
  revert g. induction l as [|i l IH]; intros g; [reflexivity|].
  cbn [forEachM fold_left]. unfold bind at 1.
  change (forEachM (dealCard randDeckIdx i) (seq 0 NUM_CARDS_PER_PLAYER) g)
    with (@Ret unit tt, dealt i 1 (dealt i 0 g)).
  cbv beta iota. apply IH.
Qed.

Lemma dealCards_run g :
  dealCards randDeckIdx g
  = (Ret tt, fold_left (fun g i => dealt i 1 (dealt i 0 g)) (seatsInGame g) g).
Proof.
  unfold dealCards. rewrite bind_get. apply forEachM_dealCard.
Qed.

(** Dealing to the seats of [l] leaves the slots of every other seat as they
    were. *)
Lemma deal_seats_frame (l : list nat) (i k : nat) :
  ~ In i l ->
  forall g,
    slotAt (fold_left (fun g i => dealt i 1 (dealt i 0 g)) l g) i k
    = slotAt g i k.
Proof.
  induction l as [|j l IH]; intros Hni g; [reflexivity|].
  cbn [fold_left]. rewrite IH by (intros H; apply Hni; right; exact H).
  assert (Hne : j <> i) by (intros ->; apply Hni; left; reflexivity).
  rewrite !dealt_frame; [reflexivity | |]; intros [= ]; congruence.
Qed.

Lemma deal_seats (l : list nat) :
  drawsInRange ->
  NoDup l ->
  forall g,
    2 * List.length l <= List.length (deck g) ->
    (forall i, In i l -> slotAt g i 0 = Some None /\ slotAt g i 1 = Some None) ->
    let g' := fold_left (fun g i => dealt i 1 (dealt i 0 g)) l g in
    Permutation (heldCards (players g') ++ deck g')
                (heldCards (players g) ++ deck g)
    /\ List.length (deck g') + 2 * List.length l = List.length (deck g)
    /\ (forall i, In i l ->
          exists c0 c1, slotAt g' i 0 = Some (Some c0)
                        /\ slotAt g' i 1 = Some (Some c1)).
Proof.
  intros Hrange Hnd. induction Hnd as [|i l Hni Hnd IH]; intros g Hlen Hempty.
  - cbn. split; [reflexivity|]. split; [lia | intros i []].
  - cbn [fold_left List.length] in *.
    destruct (Hempty i (or_introl eq_refl)) as [H0 H1].
    assert (Hd0 : deck g <> [])
      by (destruct (deck g); [cbn in Hlen; lia | discriminate]).
    destruct (@dealt_draw i 0 g Hrange Hd0 H0) as (Hp0 & Hl0 & c0 & Hc0).
    assert (Hd1 : deck (dealt i 0 g) <> []).
    { destruct (deck (dealt i 0 g)); [cbn in Hl0; lia | discriminate]. }
    assert (H1' : slotAt (dealt i 0 g) i 1 = Some None).
    { rewrite dealt_frame; [exact H1 | intros [= ]]. }
    destruct (@dealt_draw i 1 (dealt i 0 g) Hrange Hd1 H1')
      as (Hp1 & Hl1 & c1 & Hc1).
    destruct (IH (dealt i 1 (dealt i 0 g))) as (Hp & Hl & Hfilled).
    + lia.
    + intros j Hj. destruct (Hempty j (or_intror Hj)) as [Hj0 Hj1].
      assert (Hne : j <> i) by (intros ->; contradiction).
      rewrite !dealt_frame; [split; assumption | | | | ];
        intros [= ]; contradiction.
    + split; [rewrite Hp, Hp1, Hp0; reflexivity|]. split; [lia|].
      intros j [<-|Hj]; [|apply Hfilled; exact Hj].
      exists c0, c1. rewrite !deal_seats_frame by exact Hni.
      split; [|exact Hc1]. rewrite dealt_frame; [exact Hc0 | intros [= ]].
Qed.

Lemma seatsInGame_NoDup g : NoDup (seatsInGame g).
Proof. unfold seatsInGame. apply NoDup_filter, seq_NoDup. Qed.

Lemma seatsInGame_length g :
  List.length (seatsInGame g) = numPlayersInGame g.
Proof.
  unfold seatsInGame, numPlayersInGame, totalPlayers.
  rewrite count_if_length.
  assert (H : forall (l : list (Player HandRank)) (pre : list (Player HandRank)),
             List.length
               (filter (fun i => match nth_error (pre ++ l) i with
                                 | Some p => inGame p
                                 | None => false
                                 end)
                       (seq (List.length pre) (List.length l)))
             = List.length (filter (@inGame HandRank) l)).
  { induction l as [|x l IH]; intros pre; [reflexivity|].
    cbn [List.length seq filter].
    rewrite nth_error_app2, Nat.sub_diag by lia. cbn [nth_error].
    specialize (IH (pre ++ [x])). rewrite <- app_assoc in IH. cbn [app] in IH.
    rewrite length_app in IH. cbn [List.length] in IH.
    rewrite Nat.add_1_r in IH.
    destruct (inGame x); cbn [List.length]; rewrite IH; reflexivity. }
  apply (H (players g) []).
Qed.

(** X17.  When every draw picks an index inside the deck, the deck holds
    two cards for every seat in the hand and those seats hold no card yet,
    [dealCards] returns and moves cards from the deck to the seats without
    losing or duplicating any: the cards held by the seats together with
    the deck are a permutation of what they were, so they are pairwise
    distinct if they were; the deck is shorter by two cards for every seat
    in the hand; and every seat in the hand holds a card in both of its
    slots. *)
Theorem dealCards_deals_each_card_once g :
  drawsInRange ->
  2 * numPlayersInGame g <= List.length (deck g) ->
  (forall i p, nth_error (players g) i = Some p -> inGame p = true ->
               cards p = [None; None]) ->
  exists g',
    dealCards randDeckIdx g = (Ret tt, g')
    /\ Permutation (heldCards (players g') ++ deck g')
                   (heldCards (players g) ++ deck g)
    /\ (NoDup (heldCards (players g) ++ deck g) ->
        NoDup (heldCards (players g') ++ deck g'))
    /\ List.length (deck g') + 2 * numPlayersInGame g = List.length (deck g)
    /\ (forall i p, nth_error (players g) i = Some p -> inGame p = true ->
          exists p' c0 c1,
            nth_error (players g') i = Some p'
            /\ nth_error (cards p') 0 = Some (Some c0)
            /\ nth_error (cards p') 1 = Some (Some c1)).
Proof.
  intros Hrange Hlen Hnull.
  rewrite <- seatsInGame_length in *.
  destruct (@deal_seats (seatsInGame g) Hrange (seatsInGame_NoDup g) g Hlen)
    as (Hperm & Hdeck & Hfilled).
  { intros i Hi. unfold seatsInGame in Hi. apply filter_In in Hi.
    destruct Hi as [_ Hi]. unfold slotAt.
    destruct (nth_error (players g) i) as [p|] eqn:Hp; [|discriminate].
    rewrite (Hnull i p Hp Hi). split; reflexivity. }
  eexists. split; [apply dealCards_run|].
  split; [exact Hperm|]. split; [|split; [exact Hdeck|]].
  - intros Hnd. apply (Permutation_NoDup (Permutation_sym Hperm) Hnd).
  - intros i p Hp Hg.
    destruct (Hfilled i) as (c0 & c1 & H0 & H1).
    { unfold seatsInGame. apply filter_In. split.
      - apply in_seq. split; [lia|]. cbn. unfold totalPlayers.
        apply nth_error_Some. rewrite Hp. discriminate.
      - rewrite Hp. exact Hg. }
    unfold slotAt in H0, H1.
    destruct (nth_error (players
                (fold_left (fun g i => dealt i 1 (dealt i 0 g))
                           (seatsInGame g) g)) i) as [p'|];
      [|discriminate].
    exists p', c0, c1. repeat split; assumption.
Qed.

End Dealing.

Section MonadSteps.

Context {HandRank : Type}.
Implicit Types (g : Game HandRank).

(** A sequence that returned went through both of its parts. *)
Lemma bind_returned {A B : Type} (m : M HandRank A) (k : A -> M HandRank B)
      g (b : B) g' :
  bind m k g = (Ret b, g') ->
  exists a g1, m g = (Ret a, g1) /\ k a g1 = (Ret b, g').
Proof.
  unfold bind. destruct (m g) as [[a|e] g1]; [|discriminate].
  intros H. exists a, g1. split; [reflexivity | exact H].
Qed.

End MonadSteps.

Section NextDealerRound.

Context {HandRank : Type}.
Variable Player_raise : Q -> nat -> Game HandRank -> outcome unit * Game HandRank.
Variable Pot_initialPotentialWinners : Game HandRank -> list nat.
Variable randDeckIdx : list Card -> nat.
Implicit Types (g : Game HandRank) (p : Player HandRank).

Local Notation "'nextHand'" :=
  (refreshDealerRound Player_raise Pot_initialPotentialWinners randDeckIdx).

(** X19.  [postBlinds] throws and changes nothing on a game that is not
    initialized.  On an initialized game where no seat holds the turn it
    throws after it has set the minimum raise and the previous bet to zero:
    the failure is not atomic.  Whenever it returns, the minimum raise and
    the previous bet both equal the big blind and checking is not
    allowed. *)
Theorem postBlinds_outcomes g :
  (initialized g = false ->
   postBlinds Player_raise g = (Throw NotInitialized, g))
  /\ (initialized g = true -> currentPlayer g = None ->
      postBlinds Player_raise g
      = (Throw TypeError, set_previousBet 0 (set_minRaise 0 g)))
  /\ (forall g', postBlinds Player_raise g = (Ret tt, g') ->
      minRaise g' = bigBlind g'
      /\ previousBet g' = bigBlind g'
      /\ allowCheck g' = false).
Proof.
  split; [|split].
  - intros Hi. unfold postBlinds. unfold bind at 1.
    unfold throwIfNotInitialized. rewrite Hi. reflexivity.
  - intros Hi Hp. unfold postBlinds. unfold bind at 1.
    unfold throwIfNotInitialized. rewrite Hi.
    repeat (rewrite bind_modify; cbv beta). rewrite bind_get.
    unfold bind at 1. unfold onCurrentPlayer.
    change (currentPlayer (set_previousBet 0 (set_minRaise 0 g)))
      with (currentPlayer g).
    rewrite Hp. reflexivity.
  - intros g' Hrun. unfold postBlinds in Hrun.
    repeat match type of Hrun with
           | bind (modify _) _ _ = _ => rewrite bind_modify in Hrun; cbv beta in Hrun
           | bind (@get _) _ _ = _ => rewrite bind_get in Hrun
           | bind _ _ _ = _ =>
               apply bind_returned in Hrun;
               destruct Hrun as (? & ? & _ & Hrun)
           end.
    unfold modify in Hrun. injection Hrun as <-.
    repeat split.
Qed.

(** The seat can post the big blind: its stack is neither empty nor below
    it. *)
Definition coversBigBlind g p : bool :=
  negb (Qeq_bool (stack p) 0 || Qlt_bool (stack p) (bigBlind g)).

(** A seat as the start of a dealer round leaves it, before the deal. *)
Definition resetSeat g p : Player HandRank :=
  mkPlayer (id p) [None; None] (stack p) 0%Q (coversBigBlind g p) false true
           "" None.

(** The deck [buildDeck] builds. *)
Definition fullDeck : list Card :=
  flat_map (fun i => [(i, "♠"); (i, "♣"); (i, "♦"); (i, "♥")]) (seq 2 13).

(** The game [refreshDealerRound] deals the cards in. *)
Definition dealerRoundReset g : Game HandRank :=
  mkGame (initialized g) (buyIn g) (smallBlind g) (bigBlind g)
         (map (resetSeat g) (players g))
         (dealerIdx g) (smallBlindIdx g) (bigBlindIdx g) (turnIdx g)
         (numTurnIncrements g)
         [newPot Pot_initialPotentialWinners (set_actionRound 0 g)]
         0%Z [None; None; None; None; None] fullDeck
         (minRaise g) (previousBet g) (allowCheck g).

(** The game once the cards are dealt. *)
Definition handDealt g : Game HandRank :=
  fold_left (fun g i => dealt randDeckIdx i 1 (dealt randDeckIdx i 0 g))
            (seatsInGame (dealerRoundReset g)) (dealerRoundReset g).

(** A seat with its hole cards taken away. *)
Definition withoutCards p : Player HandRank :=
  mkPlayer (id p) [] (stack p) (potCommitment p) (inGame p) (isAllIn p)
           (allowRaise p) (actionState p) (showdownRank p).

(** Dealing changes the deck and the hole cards, nothing else. *)
Lemma deal_seats_changes (l : list nat) :
  forall g,
    let g' := fold_left (fun g i => dealt randDeckIdx i 1
                                      (dealt randDeckIdx i 0 g)) l g in
    g' = set_deck (deck g') (set_players (players g') g)
    /\ map withoutCards (players g') = map withoutCards (players g).
Proof.
  induction l as [|i l IH]; intros g.
  - cbn. split; [destruct g; reflexivity | reflexivity].
  - cbn [fold_left]. cbv zeta.
    destruct (IH (dealt randDeckIdx i 1 (dealt randDeckIdx i 0 g)))
      as [Hg Hps].
    cbv zeta in Hg, Hps. split.
    + rewrite Hg at 1. apply Game_ext; reflexivity.
    + rewrite Hps. unfold dealt, dealCard, modify.
      cbn [snd players set_deck set_players].
      rewrite !map_update_nth_same; reflexivity.
Qed.

Lemma handDealt_changes g :
  handDealt g
  = set_deck (deck (handDealt g))
             (set_players (players (handDealt g)) (dealerRoundReset g))
  /\ map withoutCards (players (handDealt g))
     = map (fun p => withoutCards (resetSeat g p)) (players g).
Proof.
  destruct (deal_seats_changes (seatsInGame (dealerRoundReset g))
                               (dealerRoundReset g)) as [Hg Hps].
  cbv zeta in Hg, Hps. fold (handDealt g) in Hg, Hps.
  split; [exact Hg|]. rewrite Hps. unfold dealerRoundReset. cbn [players].
  apply map_map.
Qed.

Lemma handDealt_numPlayersInGame g :
  numPlayersInGame (handDealt g) = count_if (coversBigBlind g) (players g).
Proof.
  destruct (handDealt_changes g) as [_ Hps]. unfold numPlayersInGame.
  rewrite (@count_if_ext _ _ (fun p => inGame (withoutCards p)))
    by reflexivity.
  rewrite <- (count_if_map (@inGame HandRank) withoutCards), Hps.
  rewrite count_if_map. reflexivity.
Qed.

(** [refreshDealerRound] up to the deal. *)
Lemma refreshDealerRound_unfold g :
  initialized g = true ->
  exists rest : M HandRank bool,
    nextHand g
    = (if Nat.leb (numPlayersInGame (handDealt g)) 1 then ret true else rest)
        (handDealt g)
    /\ forall x g', rest x <> (Ret true, g').
Proof.
  intros Hi. eexists. split.
  - unfold refreshDealerRound. unfold bind at 1.
    unfold throwIfNotInitialized. rewrite Hi. unfold resetPots, buildDeck.
    repeat (rewrite bind_modify; cbv beta). unfold bind at 1.
    rewrite dealCards_run.
    match goal with
    | |- context [seatsInGame ?x] =>
        replace x with (dealerRoundReset g) by (apply Game_ext; reflexivity)
    end.
    fold (handDealt g). rewrite bind_get. reflexivity.
  - intros x g' Hrun.
    repeat match type of Hrun with
           | bind (modify _) _ _ = _ =>
               rewrite bind_modify in Hrun; cbv beta in Hrun
           | bind (@get _) _ _ = _ => rewrite bind_get in Hrun
           | bind _ _ _ = _ =>
               apply bind_returned in Hrun;
               destruct Hrun as (? & ? & _ & Hrun)
           end.
    match type of Hrun with
    | context [currentPlayer ?y] => destruct (currentPlayer y); [|discriminate]
    end.
    apply bind_returned in Hrun. destruct Hrun as (? & ? & _ & Hrun).
    discriminate.
Qed.

Lemma refreshDealerRound_deal g :
  initialized g = true ->
  (numPlayersInGame (handDealt g) <= 1 ->
   nextHand g = (Ret true, handDealt g))
  /\ (1 < numPlayersInGame (handDealt g) ->
      fst (nextHand g) <> Ret true).
Proof.
  intros Hi. destruct (refreshDealerRound_unfold g Hi) as (rest & -> & Hrest).
  destruct (Nat.leb_spec (numPlayersInGame (handDealt g)) 1) as [Hle|Hlt];
    (split; [intros Hle'|intros Hlt']); try lia.
  - reflexivity.
  - destruct (rest (handDealt g)) as [[[|]|e] g'] eqn:Hrun; cbn [fst];
      try discriminate.
    exfalso. apply (Hrest _ _ Hrun).
Qed.

(** X18.  In an initialized game [refreshDealerRound] reports the end of
    the game exactly when at most one seat has a stack that is neither zero
    nor below the big blind.  It then returns without moving the dealer
    button or the turn and without posting blinds: the round is the
    pre-flop, the ledger is one fresh pot, the board is empty, and every
    seat keeps its stack, has nothing committed, is not all-in, carries no
    tag and no rank, and is in the hand exactly when its stack covers the
    big blind; only the hole cards and the deck depend on the draws. *)
Theorem refreshDealerRound_gameEnded_iff g :
  initialized g = true ->
  (fst (nextHand g) = Ret true
   <-> count_if (coversBigBlind g) (players g) <= 1)
  /\ (count_if (coversBigBlind g) (players g) <= 1 ->
      exists ps dk,
        nextHand g
        = (Ret true, set_deck dk (set_players ps (dealerRoundReset g)))
        /\ map withoutCards ps
           = map (fun p => withoutCards (resetSeat g p)) (players g)).
Proof.
  intros Hi. destruct (refreshDealerRound_deal g Hi) as [Hend Hgo].
  rewrite handDealt_numPlayersInGame in Hend, Hgo.
  destruct (handDealt_changes g) as [Hg Hps].
  split; [split|].
  - intros Hret.
    destruct (le_lt_dec (count_if (coversBigBlind g) (players g)) 1)
      as [Hle|Hlt]; [exact Hle|].
    exfalso. apply (Hgo Hlt). exact Hret.
  - intros Hle. rewrite (Hend Hle). reflexivity.
  - intros Hle. exists (players (handDealt g)), (deck (handDealt g)).
    split; [rewrite (Hend Hle), <- Hg; reflexivity | exact Hps].
Qed.

End NextDealerRound.

Section Burn.

Context {HandRank : Type}.
Variable randDeckIdx : list Card -> nat.
Implicit Types (g : Game HandRank) (p : Player HandRank).

(** X20.  In an initialized game [burn] throws and changes nothing during
    the pre-flop.  In any other round it returns and changes the deck only:
    an empty deck stays empty, and when the drawn index lies inside the deck
    exactly the card at that index is removed, the others keeping their
    order. *)
Theorem burn_removes_one_card g :
  initialized g = true ->
  (actionRound g = 0%Z ->
   burn randDeckIdx g
   = (Throw (Error "Cannot pre-flop at this point in the game."), g))
  /\ (actionRound g <> 0%Z ->
      deck g = [] -> burn randDeckIdx g = (Ret tt, g))
  /\ (actionRound g <> 0%Z ->
      randDeckIdx (deck g) < List.length (deck g) ->
      exists c d1 d2,
        deck g = d1 ++ c :: d2
        /\ List.length d1 = randDeckIdx (deck g)
        /\ burn randDeckIdx g = (Ret tt, set_deck (d1 ++ d2) g)).
Proof.
  intros Hi. unfold burn. split; [|split].
  - intros Hr. unfold bind at 1.
    rewrite validateNotInActionRound_refuses;
      [reflexivity | exact Hi | apply isActionRound_preflop; exact Hr].
  - intros Hr Hd. unfold bind at 1.
    rewrite validateNotInActionRound_passes;
      [|exact Hi | apply (@isActionRound_false _ _ g _ (isActionRound_preflop g) Hr)].
    unfold modify. rewrite Hd. destruct (randDeckIdx []); cbn [splice1];
      rewrite <- Hd; destruct g; reflexivity.
  - intros Hr Hlt. unfold bind at 1.
    rewrite validateNotInActionRound_passes;
      [|exact Hi | apply (@isActionRound_false _ _ g _ (isActionRound_preflop g) Hr)].
    destruct (nth_error (deck g) (randDeckIdx (deck g))) as [c|] eqn:Hc;
      [|apply nth_error_None in Hc; lia].
    destruct (nth_error_split _ _ Hc) as (d1 & d2 & Hd & Hlen).
    exists c, d1, d2. split; [exact Hd|]. split; [exact Hlen|].
    unfold modify. rewrite <- Hlen. rewrite Hd at 1. rewrite splice1_at.
    reflexivity.
Qed.

End Burn.

(** ** The further properties on the concrete table *)

(** The call of seat 1 is handed to the call method of seat 1. *)
Lemma callCurrentPlayerAction_legal_dispatch_witness :
  actionLegal (mkActionResult "call" 0) Demo.riverBetting = Ret true
  /\ callCurrentPlayerAction
       Demo.Player_allIn Demo.Player_call Demo.Player_raise Demo.Player_fold
       Demo.Player_check (mkActionResult "call" 0) Demo.riverBetting
     = Demo.Player_call 1 Demo.riverBetting.
Proof.
  split; [reflexivity|].
  apply (@callCurrentPlayerAction_legal_dispatch
           nat Demo.Player_allIn Demo.Player_call Demo.Player_raise
           Demo.Player_fold Demo.Player_check (mkActionResult "call" 0)
           Demo.riverBetting (Demo.hand 1 9800 (13, "d") (6, "s") " ")
           eq_refl).
  - cbn. tauto.
  - reflexivity.
Defined.

(** "bet" is not an action. *)
Lemma callCurrentPlayerAction_unknown_witness :
  callCurrentPlayerAction
    Demo.Player_allIn Demo.Player_call Demo.Player_raise Demo.Player_fold
    Demo.Player_check (mkActionResult "bet" 100) Demo.riverBetting
  = (Throw (IllegalArgument "bet"), Demo.riverBetting).
Proof.
  apply (@callCurrentPlayerAction_unknown
           nat Demo.Player_allIn Demo.Player_call Demo.Player_raise
           Demo.Player_fold Demo.Player_check (mkActionResult "bet" 100)
           Demo.riverBetting).
  cbn. intros H. repeat (destruct H as [H|H]; [discriminate H|]). exact H.
Defined.

(** On the flop seat 1 raised and seat 0 called: the round ended on the
    raise. *)
Lemma getActionRoundInfo_scenarios_witness :
  initialized Demo.flopCalled = true
  /\ actionRoundEnded Demo.flopCalled = Ret true
  /\ getActionRoundInfo Demo.flopCalled = (Ret "raise", Demo.flopCalled)
  /\ actionRoundEnded Demo.riverBetting = Ret false
  /\ getActionRoundInfo Demo.riverBetting
     = (Throw (Error "Action round hasn't ended."), Demo.riverBetting).
Proof.
  destruct (@getActionRoundInfo_scenarios nat Demo.riverBetting eq_refl)
    as [Hno _].
  split; [reflexivity|]. split; [reflexivity|]. split; [reflexivity|].
  split; [reflexivity|]. apply Hno. reflexivity.
Defined.


(** Settling the organized fold-out a second time pays seat 2 nothing. *)
Lemma getDealerRoundInfoAndAssignWinnings_twice_witness :
  fst (getDealerRoundInfoAndAssignWinnings Demo.initialPotentialWinners
                                           Demo.foldedOutOrganized)
  = Ret (mkDealerRoundInfo 2 (0 + 300))
  /\ exists info2 g2,
       getDealerRoundInfoAndAssignWinnings
         Demo.initialPotentialWinners
         (snd (getDealerRoundInfoAndAssignWinnings
                 Demo.initialPotentialWinners Demo.foldedOutOrganized))
       = (Ret info2, g2)
       /\ winnerIdx info2 = 2
       /\ (winnings info2 == 0)%Q.
Proof.
  destruct (@getDealerRoundInfoAndAssignWinnings_twice
              nat Demo.initialPotentialWinners Demo.foldedOutOrganized
              (mkDealerRoundInfo 2 (0 + 300))
              (snd (getDealerRoundInfoAndAssignWinnings
                      Demo.initialPotentialWinners Demo.foldedOutOrganized))
              eq_refl)
    as (info2 & g2 & Hrun & Hw & Hz & _).
  split; [reflexivity|]. exists info2, g2.
  split; [exact Hrun|]. split; [exact Hw | exact Hz].
Defined.

(** No card occurs twice in the list. *)
Fixpoint distinctCards (l : list Card) : bool :=
  match l with
  | [] => true
  | c :: r =>
      negb (existsb (fun d => Nat.eqb (fst c) (fst d)
                              && String.eqb (snd c) (snd d)) r)
      && distinctCards r
  end.

Lemma distinctCards_NoDup (l : list Card) :
  distinctCards l = true -> NoDup l.
Proof.
  induction l as [|c r IH]; cbn [distinctCards]; intros H; constructor.
  - apply andb_true_iff in H. destruct H as [H _].
    apply negb_true_iff in H. intros Hin.
    assert (Hex : existsb (fun d => Nat.eqb (fst c) (fst d)
                                    && String.eqb (snd c) (snd d)) r = true).
    { apply existsb_exists. exists c. split; [exact Hin|].
      rewrite Nat.eqb_refl, String.eqb_refl. reflexivity. }
    congruence.
  - apply IH. apply andb_true_iff in H. apply H.
Qed.

Lemma Demo_drawsInRange : drawsInRange Demo.randDeckIdx.
Proof.
  intros [|c d] Hd; [contradiction | unfold Demo.randDeckIdx; cbn; lia].
Defined.

(** Two seats and a full deck: four cards leave the deck, none is lost and
    none is dealt twice. *)
Lemma dealCards_deals_each_card_once_witness :
  NoDup (deck (snd (buildDeck Demo.seated)))
  /\ exists g',
       dealCards Demo.randDeckIdx (snd (buildDeck Demo.seated)) = (Ret tt, g')
       /\ NoDup (heldCards (players g') ++ deck g')
       /\ List.length (deck g') = 48.
Proof.
  assert (Hfull : NoDup (deck (snd (buildDeck Demo.seated)))).
  { apply distinctCards_NoDup. vm_compute. reflexivity. }
  destruct (@dealCards_deals_each_card_once
              nat Demo.randDeckIdx (snd (buildDeck Demo.seated))
              Demo_drawsInRange)
    as (g' & Hrun & _ & Hnd & Hlen & _).
  - apply Nat.leb_le. reflexivity.
  - intros [|[|[|i]]] p Hp Hg; cbn in Hp; try discriminate;
      injection Hp as <-; reflexivity.
  - split; [exact Hfull|]. exists g'. split; [exact Hrun|].
    split; [apply Hnd; exact Hfull|].
    change (List.length (deck (snd (buildDeck Demo.seated)))) with 52 in Hlen.
    change (numPlayersInGame (snd (buildDeck Demo.seated))) with 2 in Hlen.
    lia.
Defined.

(** Seat 1 is broke: the next hand cannot start and the game has ended. *)
Lemma refreshDealerRound_gameEnded_iff_witness :
  initialized (Demo.table [Demo.seat 0 20000 0 true false "";
                           Demo.seat 1 0 0 false false "fold"]
                          [Demo.pot true 0 0 []] 3 0) = true
  /\ fst (refreshDealerRound Demo.Player_raise Demo.initialPotentialWinners
            Demo.randDeckIdx
            (Demo.table [Demo.seat 0 20000 0 true false "";
                         Demo.seat 1 0 0 false false "fold"]
                        [Demo.pot true 0 0 []] 3 0))
     = Ret true
  /\ initialized Demo.afterHand = true
  /\ fst (refreshDealerRound Demo.Player_raise Demo.initialPotentialWinners
            Demo.randDeckIdx Demo.afterHand)
     = Ret false.
Proof.
  destruct (@refreshDealerRound_gameEnded_iff
              nat Demo.Player_raise Demo.initialPotentialWinners
              Demo.randDeckIdx
              (Demo.table [Demo.seat 0 20000 0 true false "";
                           Demo.seat 1 0 0 false false "fold"]
                          [Demo.pot true 0 0 []] 3 0) eq_refl)
    as [Hiff _].
  split; [reflexivity|]. split; [|split; reflexivity].
  apply Hiff. apply Nat.leb_le. reflexivity.
Defined.

(** On the river a card is burnt off the top of a full deck. *)
Lemma burn_removes_one_card_witness :
  initialized (snd (buildDeck Demo.riverShowdown)) = true
  /\ actionRound (snd (buildDeck Demo.riverShowdown)) = 3%Z
  /\ exists c d1 d2,
       deck (snd (buildDeck Demo.riverShowdown)) = d1 ++ c :: d2
       /\ List.length d1
          = Demo.randDeckIdx (deck (snd (buildDeck Demo.riverShowdown)))
       /\ burn Demo.randDeckIdx (snd (buildDeck Demo.riverShowdown))
          = (Ret tt, set_deck (d1 ++ d2) (snd (buildDeck Demo.riverShowdown))).
Proof.
  split; [reflexivity|]. split; [reflexivity|].
  apply (proj2 (proj2 (@burn_removes_one_card
                         nat Demo.randDeckIdx
                         (snd (buildDeck Demo.riverShowdown)) eq_refl))).
  - discriminate.
  - apply Nat.ltb_lt. reflexivity.
Defined.

(** The table after [setBuyIn(10000)] and [setSmallBlind(100)]: a big blind
    of 200 is accepted and initializes the game, one of 150 is refused. *)
Lemma setBigBlind_accepts_iff_witness :
  multipleOf 20 (buyIn (snd (setSmallBlind 100
                               (snd (setBuyIn Demo.MAX_BUYIN_IN_CENTS 10000
                                       (constructor
                                          Demo.initialPotentialWinners))))))
  /\ fst (setBigBlind 200
            (snd (setSmallBlind 100
                    (snd (setBuyIn Demo.MAX_BUYIN_IN_CENTS 10000
                            (constructor Demo.initialPotentialWinners))))))
     = true
  /\ snd (setBigBlind 200
            (snd (setSmallBlind 100
                    (snd (setBuyIn Demo.MAX_BUYIN_IN_CENTS 10000
                            (constructor Demo.initialPotentialWinners))))))
     = Demo.configured
  /\ snd (setBigBlind 150
            (snd (setSmallBlind 100
                    (snd (setBuyIn Demo.MAX_BUYIN_IN_CENTS 10000
                            (constructor Demo.initialPotentialWinners))))))
     = snd (setSmallBlind 100
              (snd (setBuyIn Demo.MAX_BUYIN_IN_CENTS 10000
                      (constructor Demo.initialPotentialWinners)))).
Proof.
  assert (Hb : multipleOf
                 20 (buyIn (snd (setSmallBlind 100
                                   (snd (setBuyIn Demo.MAX_BUYIN_IN_CENTS 10000
                                           (constructor
                                              Demo.initialPotentialWinners)))))))
    by (exists 500%Z; reflexivity).
  destruct (@setBigBlind_accepts_iff
              nat
              (snd (setSmallBlind 100
                      (snd (setBuyIn Demo.MAX_BUYIN_IN_CENTS 10000
                              (constructor Demo.initialPotentialWinners)))))
              150 Hb) as (_ & _ & Hno).
  split; [exact Hb|].
  split; [reflexivity|]. split; [reflexivity|]. apply Hno. reflexivity.
Defined.

(** On the initialized table a small blind of 50 is accepted and discards
    the big blind; one of 600, above a twentieth of the buy-in, is
    refused. *)
Lemma setSmallBlind_accepts_iff_witness :
  ((buyIn Demo.configured == -1)%Q \/ multipleOf 20 (buyIn Demo.configured))
  /\ fst (setSmallBlind 50 Demo.configured) = true
  /\ bigBlind (snd (setSmallBlind 50 Demo.configured)) = (-1)%Q
  /\ snd (setSmallBlind 600 Demo.configured) = Demo.configured.
Proof.
  assert (Hb : (buyIn Demo.configured == -1)%Q
               \/ multipleOf 20 (buyIn Demo.configured))
    by (right; exists 500%Z; reflexivity).
  destruct (@setSmallBlind_accepts_iff nat Demo.configured 50 Hb)
    as (_ & Hyes & _).
  destruct (@setSmallBlind_accepts_iff nat Demo.configured 600 Hb)
    as (_ & _ & Hno).
  split; [exact Hb|].
  split; [reflexivity|]. split; [rewrite Hyes; reflexivity|].
  apply Hno. reflexivity.
Defined.

(** A buy-in of 100.00, blinds of 1.00 and 2.00, then a small blind of 0.50
    that discards the big blind. *)
Lemma setup_calls_keep_configuration_sound_witness :
  Forall wholeTwentieth
         [SetBuyIn 10000; SetSmallBlind 100; SetBigBlind 200; SetSmallBlind 50]
  /\ configurationSound
       Demo.MAX_BUYIN_IN_CENTS
       (fold_left (afterSetupCall Demo.MAX_BUYIN_IN_CENTS)
                  [SetBuyIn 10000; SetSmallBlind 100; SetBigBlind 200;
                   SetSmallBlind 50]
                  (constructor Demo.initialPotentialWinners))
  /\ bigBlind (fold_left (afterSetupCall Demo.MAX_BUYIN_IN_CENTS)
                         [SetBuyIn 10000; SetSmallBlind 100; SetBigBlind 200;
                          SetSmallBlind 50]
                         (constructor Demo.initialPotentialWinners))
     = (-1)%Q.
Proof.
  assert (Hw : Forall wholeTwentieth
                      [SetBuyIn 10000; SetSmallBlind 100; SetBigBlind 200;
                       SetSmallBlind 50]).
  { repeat constructor. exists 500%Z. reflexivity. }
  split; [exact Hw|]. split; [|reflexivity].
  apply (@setup_calls_keep_configuration_sound
           nat Demo.MAX_BUYIN_IN_CENTS Demo.initialPotentialWinners _ Hw).
Defined.

(** Both seats have checked on the river: the no-raise count covers the two
    seats in the hand and no seat in the hand has raised. *)
Lemma noRaiseScenarioCounter_all_iff_witness :
  noRaiseScenarioCounter Demo.riverShowdown
  = numPlayersInGame Demo.riverShowdown
  /\ raiseScenarioCounter Demo.riverShowdown = 0.
Proof.
  destruct (@noRaiseScenarioCounter_all_iff nat Demo.riverShowdown)
    as (_ & _ & Hraise).
  split; [reflexivity|]. apply Hraise. reflexivity.
Defined.

(** The next action round is refused on a new game, on the river, and on a
    seated table that has not started a dealer round. *)
Lemma refreshAndIncActionRound_refused_witness :
  initialized (constructor Demo.initialPotentialWinners) = false
  /\ fst (refreshAndIncActionRound (constructor Demo.initialPotentialWinners))
     = Throw NotInitialized
  /\ actionRound Demo.riverShowdown = 3%Z
  /\ snd (refreshAndIncActionRound Demo.riverShowdown) = Demo.riverShowdown
  /\ actionRound Demo.seated = (-1)%Z
  /\ refreshAndIncActionRound Demo.seated
     = (Throw (Error ("Must call refreshDealerRound before calling "
                      ++ "refreshAndIncActionRound.")), Demo.seated).
Proof.
  destruct (@refreshAndIncActionRound_refused
              nat (constructor Demo.initialPotentialWinners)) as (Hu & _ & _).
  destruct (@refreshAndIncActionRound_refused nat Demo.riverShowdown)
    as (_ & Hr & _).
  destruct (@refreshAndIncActionRound_refused nat Demo.seated)
    as (_ & _ & Hs).
  split; [reflexivity|]. split; [rewrite (Hu eq_refl); reflexivity|].
  split; [reflexivity|].
  split; [rewrite (Hr eq_refl eq_refl); reflexivity|].
  split; [reflexivity|]. apply Hs; reflexivity.
Defined.

(** Blinds cannot be posted on a new game, nor on an initialized game
    without seats; posted on the four-seat table they leave the big blind
    as the bet to match. *)
Lemma postBlinds_outcomes_witness :
  postBlinds Demo.Player_raise (constructor Demo.initialPotentialWinners)
  = (Throw NotInitialized, constructor Demo.initialPotentialWinners)
  /\ currentPlayer Demo.configured = None
  /\ postBlinds Demo.Player_raise Demo.configured
     = (Throw TypeError, set_previousBet 0 (set_minRaise 0 Demo.configured))
  /\ fst (postBlinds Demo.Player_raise Demo.fourSeats) = Ret tt
  /\ previousBet (snd (postBlinds Demo.Player_raise Demo.fourSeats)) = 200%Q
  /\ allowCheck (snd (postBlinds Demo.Player_raise Demo.fourSeats)) = false.
Proof.
  destruct (@postBlinds_outcomes
              nat Demo.Player_raise (constructor Demo.initialPotentialWinners))
    as (Hu & _ & _).
  destruct (@postBlinds_outcomes nat Demo.Player_raise Demo.configured)
    as (_ & Hnone & _).
  destruct (@postBlinds_outcomes nat Demo.Player_raise Demo.fourSeats)
    as (_ & _ & Hret).
  assert (Hrun : postBlinds Demo.Player_raise Demo.fourSeats
                 = (Ret tt, snd (postBlinds Demo.Player_raise Demo.fourSeats)))
    by (vm_compute; reflexivity).
  destruct (Hret _ Hrun) as (_ & Hprev & Hchk).
  split; [apply Hu; reflexivity|]. split; [reflexivity|].
  split; [apply Hnone; reflexivity|].
  split; [vm_compute; reflexivity|].
  split; [rewrite Hprev; vm_compute; reflexivity | exact Hchk].
Defined.
(** * Tables with empty seats *)

Section SeatsTurnOrder.

Context {HandRank : Type}.
Implicit Types (g : Sparse.Game HandRank) (p : Player HandRank).

Lemma seats_bind_modify {B : Type}
      (f : Sparse.Game HandRank -> Sparse.Game HandRank)
      (k : unit -> Sparse.M HandRank B) g :
  Sparse.bind (Sparse.modify f) k g = k tt (f g).
Proof. reflexivity. Qed.

Lemma seats_bind_get {B : Type}
      (k : Sparse.Game HandRank -> Sparse.M HandRank B) g :
  Sparse.bind (@Sparse.get HandRank) k g = k g g.
Proof. reflexivity. Qed.

Lemma seats_bind_ret {A B : Type} (a : A) (k : A -> Sparse.M HandRank B) g :
  Sparse.bind (Sparse.ret a) k g = k a g.
Proof. reflexivity. Qed.

Lemma seats_Game_ext (a b : Sparse.Game HandRank) :
  Sparse.initialized a = Sparse.initialized b ->
  Sparse.buyIn a = Sparse.buyIn b ->
  Sparse.smallBlind a = Sparse.smallBlind b ->
  Sparse.bigBlind a = Sparse.bigBlind b ->
  Sparse.players a = Sparse.players b ->
  Sparse.dealerIdx a = Sparse.dealerIdx b ->
  Sparse.smallBlindIdx a = Sparse.smallBlindIdx b ->
  Sparse.bigBlindIdx a = Sparse.bigBlindIdx b ->
  Sparse.turnIdx a = Sparse.turnIdx b ->
  Sparse.numTurnIncrements a = Sparse.numTurnIncrements b ->
  Sparse.pots a = Sparse.pots b ->
  Sparse.actionRound a = Sparse.actionRound b ->
  Sparse.board a = Sparse.board b ->
  Sparse.deck a = Sparse.deck b ->
  Sparse.minRaise a = Sparse.minRaise b ->
  Sparse.previousBet a = Sparse.previousBet b ->
  Sparse.allowCheck a = Sparse.allowCheck b ->
  a = b.
Proof.
  destruct a, b. cbn. intros. subst. reflexivity.
Qed.

Lemma seats_incrementTurn_turned g t c :
  Sparse.initialized g = true ->
  0 < Sparse.totalPlayers g ->
  Sparse.incrementTurn (Sparse.turned g t c)
  = (Ret tt, Sparse.turned g ((t + 1) mod Sparse.totalPlayers g) (c + 1)).
Proof.
  intros Hi Hn. unfold Sparse.incrementTurn.
  unfold Sparse.bind at 1. unfold Sparse.throwIfNotInitialized.
  change (Sparse.initialized (Sparse.turned g t c)) with (Sparse.initialized g).
  rewrite Hi. repeat (rewrite seats_bind_modify; cbv beta).
  unfold Sparse.modify. f_equal.
  apply seats_Game_ext; try reflexivity.
  - cbn [Sparse.turnIdx Sparse.set_turnIdx Sparse.turned
         Sparse.set_numTurnIncrements Sparse.index_succ].
    unfold Sparse.totalPlayers in *.
    cbn [Sparse.players Sparse.set_turnIdx Sparse.set_numTurnIncrements
         Sparse.turned].
    destruct (List.length (Sparse.players g)) eqn:E; [lia|]. reflexivity.
  - cbn [Sparse.numTurnIncrements Sparse.set_turnIdx Sparse.turned
         Sparse.set_numTurnIncrements]. lia.
Qed.

Lemma seats_turned_self g t :
  Sparse.turnIdx g = Sparse.Idx t -> Sparse.turned g t 0 = g.
Proof.
  intros Ht. apply seats_Game_ext; try reflexivity.
  - cbn. symmetry. exact Ht.
  - cbn. lia.
Qed.

(** The loop passes over occupied seats that cannot act. *)
Lemma seats_skipLoop_passes g :
  Sparse.initialized g = true ->
  0 < Sparse.totalPlayers g ->
  forall k m s c acc,
    (forall j, j < k ->
       Sparse.passedSeat g ((s + j) mod Sparse.totalPlayers g) = true) ->
    Sparse.skipLoop (k + m) acc
                    (Sparse.turned g (s mod Sparse.totalPlayers g) c)
    = Sparse.skipLoop m
        (acc ++ map (fun j => (s + j) mod Sparse.totalPlayers g) (seq 0 k))
        (Sparse.turned g ((s + k) mod Sparse.totalPlayers g) (c + k)).
Proof.
  intros Hi Hn. induction k as [|k IH]; intros m s c acc Hpass.
  - cbn [seq map Nat.add]. rewrite app_nil_r, !Nat.add_0_r. reflexivity.
  - cbn [Nat.add Sparse.skipLoop]. rewrite seats_bind_get.
    pose proof (Hpass 0 ltac:(lia)) as H0. rewrite Nat.add_0_r in H0.
    unfold Sparse.passedSeat in H0.
    change (Sparse.turnIdx (Sparse.turned g (s mod Sparse.totalPlayers g) c))
      with (Sparse.Idx (s mod Sparse.totalPlayers g)).
    change (Sparse.currentPlayer
              (Sparse.turned g (s mod Sparse.totalPlayers g) c))
      with (Sparse.seatAt g (s mod Sparse.totalPlayers g)).
    destruct (Sparse.seatAt g (s mod Sparse.totalPlayers g)) as [p|];
      [|discriminate].
    rewrite H0. unfold Sparse.bind at 1.
    rewrite seats_incrementTurn_turned by assumption.
    rewrite Nat.Div0.add_mod_idemp_l.
    rewrite (IH m (s + 1) (c + 1)).
    + rewrite <- app_assoc. cbn [app seq map].
      rewrite Nat.add_0_r. rewrite <- seq_shift, map_map.
      f_equal; [f_equal; f_equal|].
      * apply map_ext. intros j. f_equal. lia.
      * f_equal; [f_equal; lia | lia].
    + intros j Hj. replace (s + 1 + j) with (s + S j) by lia.
      apply Hpass. lia.
Qed.

(** What the loop does at the seat it stops on. *)
Lemma seats_skipLoop_stops g (m t c : nat) (acc : list nat) :
  (Sparse.activeSeat g t = true ->
   Sparse.skipLoop (S m) acc (Sparse.turned g t c)
   = (Ret acc, Sparse.turned g t c))
  /\ (Sparse.seatAt g t = None ->
      Sparse.skipLoop (S m) acc (Sparse.turned g t c)
      = (Throw TypeError, Sparse.turned g t c)).
Proof.
  cbn [Sparse.skipLoop]. rewrite seats_bind_get.
  change (Sparse.turnIdx (Sparse.turned g t c)) with (Sparse.Idx t).
  change (Sparse.currentPlayer (Sparse.turned g t c)) with (Sparse.seatAt g t).
  unfold Sparse.activeSeat. split; intros H.
  - destruct (Sparse.seatAt g t) as [p|]; [|discriminate].
    destruct (inGame p), (isAllIn p); try discriminate. reflexivity.
  - rewrite H. reflexivity.
Qed.

(** A seat below the length is empty, active or passed over. *)
Lemma seats_seat_cases g (i : nat) :
  Sparse.passedSeat g i = false ->
  Sparse.activeSeat g i = true \/ Sparse.seatAt g i = None.
Proof.
  unfold Sparse.passedSeat, Sparse.activeSeat.
  destruct (Sparse.seatAt g i) as [p|]; [|right; reflexivity].
  destruct (inGame p), (isAllIn p); cbn; intros H; try discriminate.
  left. reflexivity.
Qed.

(** How the turn advance runs on an initialized table with a seat. *)
Lemma seats_incrementTurnToNextPlayerInGame_run g (t : nat) :
  Sparse.initialized g = true ->
  Sparse.turnIdx g = Sparse.Idx t ->
  0 < Sparse.totalPlayers g ->
  exists k,
    k <= Sparse.totalPlayers g
    /\ (forall j, j < k ->
          Sparse.passedSeat g ((t + 1 + j) mod Sparse.totalPlayers g) = true)
    /\ ((k < Sparse.totalPlayers g
         /\ Sparse.activeSeat g ((t + 1 + k) mod Sparse.totalPlayers g) = true
         /\ Sparse.incrementTurnToNextPlayerInGame g
            = (Ret (map (fun j => (t + 1 + j) mod Sparse.totalPlayers g)
                        (seq 0 k)),
               Sparse.turned g ((t + 1 + k) mod Sparse.totalPlayers g) (1 + k)))
        \/ (k < Sparse.totalPlayers g
            /\ Sparse.seatAt g ((t + 1 + k) mod Sparse.totalPlayers g) = None
            /\ Sparse.incrementTurnToNextPlayerInGame g
               = (Throw TypeError,
                  Sparse.turned g ((t + 1 + k) mod Sparse.totalPlayers g)
                                (1 + k)))
        \/ (k = Sparse.totalPlayers g
            /\ Sparse.incrementTurnToNextPlayerInGame g
               = (Ret (map (fun j => (t + 1 + j) mod Sparse.totalPlayers g)
                           (seq 0 k)),
                  Sparse.turned g ((t + 1 + k) mod Sparse.totalPlayers g)
                                (1 + k)))).
Proof.
  intros Hi Ht Hn.
  assert (Hstart : forall k m,
             (forall j, j < k ->
                Sparse.passedSeat g ((t + 1 + j) mod Sparse.totalPlayers g)
                = true) ->
             k + m = Sparse.totalPlayers g ->
             Sparse.incrementTurnToNextPlayerInGame g
             = Sparse.skipLoop m
                 (map (fun j => (t + 1 + j) mod Sparse.totalPlayers g) (seq 0 k))
                 (Sparse.turned g ((t + 1 + k) mod Sparse.totalPlayers g)
                                (1 + k))).
  { intros k m Hpass Hkm.
    unfold Sparse.incrementTurnToNextPlayerInGame.
    unfold Sparse.bind at 1. unfold Sparse.throwIfNotInitialized at 1.
    rewrite Hi. unfold Sparse.bind at 1.
    rewrite <- (seats_turned_self g Ht) at 1.
    rewrite seats_incrementTurn_turned by assumption.
    rewrite seats_bind_get.
    change (Sparse.totalPlayers
              (Sparse.turned g ((t + 1) mod Sparse.totalPlayers g) (0 + 1)))
      with (Sparse.totalPlayers g).
    replace (Sparse.skipLoop (Sparse.totalPlayers g) [])
      with (@Sparse.skipLoop HandRank (k + m) []) by (rewrite Hkm; reflexivity).
    rewrite (@seats_skipLoop_passes g Hi Hn k m (t + 1) (0 + 1) [] Hpass).
    reflexivity. }
  set (f := fun k => negb (Sparse.passedSeat
                             g ((t + 1 + k) mod Sparse.totalPlayers g))).
  destruct (existsb f (seq 0 (Sparse.totalPlayers g))) eqn:Eany.
  - apply existsb_exists in Eany. destruct Eany as (k0 & Hk0 & Hf0).
    apply in_seq in Hk0.
    destruct (first_true f k0 Hf0) as (k & Hk & Hstop & Hpass).
    assert (Hpass' : forall j, j < k ->
                Sparse.passedSeat g ((t + 1 + j) mod Sparse.totalPlayers g)
                = true).
    { intros j Hj. specialize (Hpass j Hj). unfold f in Hpass.
      apply negb_false_iff in Hpass. exact Hpass. }
    exists k. split; [lia|]. split; [exact Hpass'|].
    unfold f in Hstop. apply negb_true_iff in Hstop.
    assert (Hm : k + S (Sparse.totalPlayers g - k - 1) = Sparse.totalPlayers g)
      by lia.
    rewrite (Hstart k _ Hpass' Hm).
    destruct (seats_skipLoop_stops
                g (Sparse.totalPlayers g - k - 1)
                ((t + 1 + k) mod Sparse.totalPlayers g) (1 + k)
                (map (fun j => (t + 1 + j) mod Sparse.totalPlayers g) (seq 0 k)))
      as [Hact Hemp].
    destruct (seats_seat_cases g _ Hstop) as [Ha|He].
    + left. split; [lia|]. split; [exact Ha | apply Hact; exact Ha].
    + right. left. split; [lia|]. split; [exact He | apply Hemp; exact He].
  - assert (Hpass : forall j, j < Sparse.totalPlayers g ->
                Sparse.passedSeat g ((t + 1 + j) mod Sparse.totalPlayers g)
                = true).
    { intros j Hj. destruct (f j) eqn:E.
      - assert (Hex : existsb f (seq 0 (Sparse.totalPlayers g)) = true).
        { apply existsb_exists. exists j.
          split; [apply in_seq; lia | exact E]. }
        congruence.
      - unfold f in E. apply negb_false_iff in E. exact E. }
    exists (Sparse.totalPlayers g). split; [lia|]. split; [exact Hpass|].
    right. right. split; [reflexivity|].
    rewrite (Hstart (Sparse.totalPlayers g) 0 Hpass ltac:(lia)).
    reflexivity.
Qed.

Lemma seats_incrementTurnToNextPlayerInGame_uninitialized g :
  Sparse.initialized g = false ->
  Sparse.incrementTurnToNextPlayerInGame g = (Throw NotInitialized, g).
Proof.
  intros Hi. unfold Sparse.incrementTurnToNextPlayerInGame, Sparse.bind,
               Sparse.throwIfNotInitialized. rewrite Hi. reflexivity.
Qed.

(** On a table without a seat [turnIdx % 0] leaves the pointer NaN. *)
Lemma seats_incrementTurnToNextPlayerInGame_no_seat g :
  Sparse.initialized g = true ->
  Sparse.totalPlayers g = 0 ->
  Sparse.incrementTurnToNextPlayerInGame g
  = (Ret [],
     Sparse.set_turnIdx Sparse.NaNIdx
       (Sparse.set_numTurnIncrements (Sparse.numTurnIncrements g + 1) g)).
Proof.
  intros Hi Hn. unfold Sparse.incrementTurnToNextPlayerInGame.
  unfold Sparse.bind at 1. unfold Sparse.throwIfNotInitialized at 1.
  rewrite Hi. unfold Sparse.bind at 1. unfold Sparse.incrementTurn.
  unfold Sparse.bind at 1. unfold Sparse.throwIfNotInitialized at 1.
  rewrite Hi. repeat (rewrite seats_bind_modify; cbv beta).
  unfold Sparse.modify. rewrite seats_bind_get.
  unfold Sparse.totalPlayers in *.
  cbn [Sparse.players Sparse.set_turnIdx Sparse.set_numTurnIncrements].
  rewrite Hn. cbn [Sparse.skipLoop]. unfold Sparse.ret. f_equal.
  apply seats_Game_ext; try reflexivity.
  cbn [Sparse.turnIdx Sparse.set_turnIdx Sparse.set_numTurnIncrements].
  destruct (Sparse.turnIdx g); reflexivity.
Qed.

(** A pointer that is NaN stays NaN, and no seat is read at NaN. *)
Lemma seats_incrementTurnToNextPlayerInGame_NaN g :
  Sparse.initialized g = true ->
  0 < Sparse.totalPlayers g ->
  Sparse.turnIdx g = Sparse.NaNIdx ->
  Sparse.incrementTurnToNextPlayerInGame g
  = (Throw TypeError,
     Sparse.set_numTurnIncrements (Sparse.numTurnIncrements g + 1) g).
Proof.
  intros Hi Hn Ht. unfold Sparse.incrementTurnToNextPlayerInGame.
  unfold Sparse.bind at 1. unfold Sparse.throwIfNotInitialized at 1.
  rewrite Hi. unfold Sparse.bind at 1. unfold Sparse.incrementTurn.
  unfold Sparse.bind at 1. unfold Sparse.throwIfNotInitialized at 1.
  rewrite Hi. repeat (rewrite seats_bind_modify; cbv beta).
  unfold Sparse.modify. rewrite seats_bind_get.
  unfold Sparse.totalPlayers in *.
  cbn [Sparse.players Sparse.set_turnIdx Sparse.set_numTurnIncrements].
  destruct (List.length (Sparse.players g)) as [|n] eqn:E; [lia|].
  cbn [Sparse.skipLoop]. rewrite seats_bind_get.
  cbn [Sparse.turnIdx Sparse.set_turnIdx Sparse.set_numTurnIncrements].
  rewrite Ht. cbn [Sparse.index_succ Sparse.index_mod].
  unfold Sparse.throw. f_equal.
  apply seats_Game_ext; try reflexivity.
  cbn [Sparse.turnIdx Sparse.set_turnIdx Sparse.set_numTurnIncrements].
  symmetry. exact Ht.
Qed.

(** X4.  [incrementTurnToNextPlayerInGame] on any table.  On a game that
    is not initialized it throws and changes nothing.  On an initialized
    table without a seat it returns no skipped seat and leaves the turn
    pointer NaN; with a pointer that is already NaN and a seat, it throws a
    [TypeError].  On an initialized table with a seat and the pointer on seat
    [t], it goes round the table from the seat after [t], passing over the
    occupied seats that are out of the hand or all-in, for at most one lap:
    at the first seat that is in the hand and not all-in it returns, the
    pointer on that seat and the seats passed over as the skipped ones; at
    the first empty seat it throws a [TypeError], the pointer left on the
    empty seat; after a whole lap of passed-over seats it returns them all,
    the pointer on the seat after [t].  In each case the counter of turn
    increments has grown by one more than the number of seats passed over
    and nothing else has changed. *)
Theorem incrementTurnToNextPlayerInGame_outcomes g :
  (Sparse.initialized g = false ->
   Sparse.incrementTurnToNextPlayerInGame g = (Throw NotInitialized, g))
  /\ (Sparse.initialized g = true ->
      Sparse.totalPlayers g = 0 ->
      Sparse.incrementTurnToNextPlayerInGame g
      = (Ret [],
         Sparse.set_turnIdx Sparse.NaNIdx
           (Sparse.set_numTurnIncrements (Sparse.numTurnIncrements g + 1) g)))
  /\ (Sparse.initialized g = true ->
      0 < Sparse.totalPlayers g ->
      Sparse.turnIdx g = Sparse.NaNIdx ->
      Sparse.incrementTurnToNextPlayerInGame g
      = (Throw TypeError,
         Sparse.set_numTurnIncrements (Sparse.numTurnIncrements g + 1) g))
  /\ (forall t,
        Sparse.initialized g = true ->
        0 < Sparse.totalPlayers g ->
        Sparse.turnIdx g = Sparse.Idx t ->
        exists k,
          k <= Sparse.totalPlayers g
          /\ (forall j, j < k ->
                Sparse.passedSeat g ((t + 1 + j) mod Sparse.totalPlayers g)
                = true)
          /\ ((k < Sparse.totalPlayers g
               /\ Sparse.activeSeat g ((t + 1 + k) mod Sparse.totalPlayers g)
                  = true
               /\ Sparse.incrementTurnToNextPlayerInGame g
                  = (Ret (map (fun j => (t + 1 + j) mod Sparse.totalPlayers g)
                              (seq 0 k)),
                     Sparse.turned g ((t + 1 + k) mod Sparse.totalPlayers g)
                                   (1 + k)))
              \/ (k < Sparse.totalPlayers g
                  /\ Sparse.seatAt g ((t + 1 + k) mod Sparse.totalPlayers g)
                     = None
                  /\ Sparse.incrementTurnToNextPlayerInGame g
                     = (Throw TypeError,
                        Sparse.turned g ((t + 1 + k) mod Sparse.totalPlayers g)
                                      (1 + k)))
              \/ (k = Sparse.totalPlayers g
                  /\ Sparse.incrementTurnToNextPlayerInGame g
                     = (Ret (map (fun j => (t + 1 + j) mod Sparse.totalPlayers g)
                                 (seq 0 k)),
                        Sparse.turned g ((t + 1 + k) mod Sparse.totalPlayers g)
                                      (1 + k))))).
Proof.
  split; [|split; [|split]].
  - apply seats_incrementTurnToNextPlayerInGame_uninitialized.
  - apply seats_incrementTurnToNextPlayerInGame_no_seat.
  - apply seats_incrementTurnToNextPlayerInGame_NaN.
  - intros t Hi Hn Ht.
    apply seats_incrementTurnToNextPlayerInGame_run; assumption.
Qed.

End SeatsTurnOrder.

Section SeatsDealerButton.

Context {HandRank : Type}.
Implicit Types (g : Sparse.Game HandRank) (p : Player HandRank).

(** One iteration of the dealer loop, from the button on [d]. *)
Lemma seats_advanceDealer_step g (m d : nat) :
  Sparse.advanceDealer (S m) (Sparse.set_dealerIdx d g)
  = match Sparse.seatAt g ((d + 1) mod Sparse.totalPlayers g) with
    | None =>
        (Throw TypeError,
         Sparse.set_dealerIdx ((d + 1) mod Sparse.totalPlayers g) g)
    | Some p =>
        if inGame p
        then (Ret tt, Sparse.set_dealerIdx ((d + 1) mod Sparse.totalPlayers g) g)
        else Sparse.advanceDealer
               m (Sparse.set_dealerIdx ((d + 1) mod Sparse.totalPlayers g) g)
    end.
Proof.
  cbn [Sparse.advanceDealer]. repeat (rewrite seats_bind_modify; cbv beta).
  rewrite seats_bind_get.
  replace (Sparse.set_dealerIdx _ (Sparse.set_dealerIdx _ (Sparse.set_dealerIdx d g)))
    with (Sparse.set_dealerIdx ((d + 1) mod Sparse.totalPlayers g) g)
    by reflexivity.
  change (Sparse.seatAt (Sparse.set_dealerIdx ((d + 1) mod Sparse.totalPlayers g) g)
                        (Sparse.dealerIdx (Sparse.set_dealerIdx ((d + 1) mod Sparse.totalPlayers g) g)))
    with (Sparse.seatAt g ((d + 1) mod Sparse.totalPlayers g)).
  destruct (Sparse.seatAt g ((d + 1) mod Sparse.totalPlayers g)) as [p|];
    [destruct (inGame p)|]; reflexivity.
Qed.

(** The button passes over occupied seats that are out of the hand. *)
Lemma seats_advanceDealer_passes g :
  forall k m d,
    (forall j, j < S k ->
       Sparse.outOfHandSeat g ((d + 1 + j) mod Sparse.totalPlayers g) = true) ->
    Sparse.advanceDealer (S k + m) (Sparse.set_dealerIdx d g)
    = Sparse.advanceDealer
        m (Sparse.set_dealerIdx ((d + 1 + k) mod Sparse.totalPlayers g) g).
Proof.
  induction k as [|k IH]; intros m d Hout.
  - cbn [Nat.add]. rewrite seats_advanceDealer_step.
    pose proof (Hout 0 ltac:(lia)) as H0. rewrite !Nat.add_0_r in *.
    unfold Sparse.outOfHandSeat in H0.
    destruct (Sparse.seatAt g ((d + 1) mod Sparse.totalPlayers g)) as [p|];
      [|discriminate].
    apply negb_true_iff in H0. rewrite H0. reflexivity.
  - change (S (S k) + m) with (S (S k + m)).
    rewrite seats_advanceDealer_step.
    pose proof (Hout 0 ltac:(lia)) as H0. rewrite !Nat.add_0_r in *.
    unfold Sparse.outOfHandSeat in H0.
    destruct (Sparse.seatAt g ((d + 1) mod Sparse.totalPlayers g)) as [p|];
      [|discriminate].
    apply negb_true_iff in H0. rewrite H0.
    assert (E : forall j, ((d + 1) mod Sparse.totalPlayers g + 1 + j)
                            mod Sparse.totalPlayers g
                          = (d + 1 + S j) mod Sparse.totalPlayers g).
    { intros j. rewrite <- Nat.add_assoc, Nat.Div0.add_mod_idemp_l.
      f_equal; lia. }
    rewrite IH.
    + rewrite E. reflexivity.
    + intros j Hj. rewrite E. apply Hout. lia.
Qed.

Lemma seats_set_dealerIdx_self g : Sparse.set_dealerIdx (Sparse.dealerIdx g) g = g.
Proof. destruct g; reflexivity. Qed.

(** X16.  The loop of [refreshDealerRound] that moves the dealer button, on
    any table with a seat.  From the seat after the button it passes over
    the occupied seats that are out of the hand, for at most one lap: at the
    first seat in the hand it returns, the button on that seat; at the first
    empty seat it throws a [TypeError], the button left on the empty seat;
    after a whole lap of seats out of the hand it returns, the button back
    where it was (modulo the number of seats).  Nothing but the button
    changes. *)
Theorem advanceDealer_outcomes g :
  0 < Sparse.totalPlayers g ->
  exists k,
    k <= Sparse.totalPlayers g
    /\ (forall j, j < k ->
          Sparse.outOfHandSeat
            g ((Sparse.dealerIdx g + 1 + j) mod Sparse.totalPlayers g) = true)
    /\ ((k < Sparse.totalPlayers g
         /\ Sparse.inHandSeat
              g ((Sparse.dealerIdx g + 1 + k) mod Sparse.totalPlayers g) = true
         /\ Sparse.advanceDealer (Sparse.totalPlayers g) g
            = (Ret tt,
               Sparse.set_dealerIdx
                 ((Sparse.dealerIdx g + 1 + k) mod Sparse.totalPlayers g) g))
        \/ (k < Sparse.totalPlayers g
            /\ Sparse.seatAt
                 g ((Sparse.dealerIdx g + 1 + k) mod Sparse.totalPlayers g)
               = None
            /\ Sparse.advanceDealer (Sparse.totalPlayers g) g
               = (Throw TypeError,
                  Sparse.set_dealerIdx
                    ((Sparse.dealerIdx g + 1 + k) mod Sparse.totalPlayers g) g))
        \/ (k = Sparse.totalPlayers g
            /\ Sparse.advanceDealer (Sparse.totalPlayers g) g
               = (Ret tt,
                  Sparse.set_dealerIdx
                    (Sparse.dealerIdx g mod Sparse.totalPlayers g) g))).
Proof.
  intros Hn.
  set (d := Sparse.dealerIdx g). set (n := Sparse.totalPlayers g).
  set (f := fun k => negb (Sparse.outOfHandSeat g ((d + 1 + k) mod n))).
  assert (Hg : Sparse.advanceDealer n g
               = Sparse.advanceDealer n (Sparse.set_dealerIdx d g))
    by (unfold d; rewrite seats_set_dealerIdx_self; reflexivity).
  destruct (existsb f (seq 0 n)) eqn:Eany.
  - apply existsb_exists in Eany. destruct Eany as (k0 & Hk0 & Hf0).
    apply in_seq in Hk0.
    destruct (first_true f k0 Hf0) as (k & Hk & Hstop & Hpass).
    assert (Hout : forall j, j < k ->
               Sparse.outOfHandSeat g ((d + 1 + j) mod n) = true).
    { intros j Hj. specialize (Hpass j Hj). unfold f in Hpass.
      apply negb_false_iff in Hpass. exact Hpass. }
    exists k. split; [lia|]. split; [exact Hout|].
    unfold f in Hstop. apply negb_true_iff in Hstop.
    assert (Hrun : Sparse.advanceDealer n (Sparse.set_dealerIdx d g)
                   = match Sparse.seatAt g ((d + 1 + k) mod n) with
                     | None =>
                         (Throw TypeError,
                          Sparse.set_dealerIdx ((d + 1 + k) mod n) g)
                     | Some p =>
                         if inGame p
                         then (Ret tt, Sparse.set_dealerIdx ((d + 1 + k) mod n) g)
                         else Sparse.advanceDealer
                                (n - k - 1)
                                (Sparse.set_dealerIdx ((d + 1 + k) mod n) g)
                     end).
    { destruct k as [|k].
      - replace n with (S (n - 0 - 1)) at 1 by lia.
        rewrite seats_advanceDealer_step. rewrite Nat.add_0_r. reflexivity.
      - replace n with (S k + S (n - S k - 1)) at 1 by lia.
        rewrite seats_advanceDealer_passes
          by (intros j Hj; apply Hout; exact Hj).
        rewrite seats_advanceDealer_step. fold n.
        replace (((d + 1 + k) mod n + 1) mod n) with ((d + 1 + S k) mod n).
        + reflexivity.
        + rewrite Nat.Div0.add_mod_idemp_l. f_equal. lia. }
    rewrite Hg, Hrun. unfold Sparse.outOfHandSeat in Hstop.
    unfold Sparse.inHandSeat.
    destruct (Sparse.seatAt g ((d + 1 + k) mod n)) as [p|].
    + apply negb_false_iff in Hstop. rewrite Hstop.
      left. split; [lia|]. split; reflexivity.
    + right. left. split; [lia|]. split; reflexivity.
  - assert (Hout : forall j, j < n ->
               Sparse.outOfHandSeat g ((d + 1 + j) mod n) = true).
    { intros j Hj. destruct (f j) eqn:E.
      - assert (Hex : existsb f (seq 0 n) = true).
        { apply existsb_exists. exists j.
          split; [apply in_seq; lia | exact E]. }
        congruence.
      - unfold f in E. apply negb_false_iff in E. exact E. }
    exists n. split; [lia|]. split; [exact Hout|].
    right. right. split; [reflexivity|].
    rewrite Hg. replace n with (S (n - 1) + 0) at 1 by lia.
    rewrite seats_advanceDealer_passes
      by (intros j Hj; apply Hout; lia).
    cbn [Sparse.advanceDealer]. unfold Sparse.ret. f_equal. f_equal.
    replace (d + 1 + (n - 1)) with (d + 1 * n) by lia.
    apply Nat.Div0.mod_add.
Qed.

End SeatsDealerButton.

Section SeatsCounted.

Context {HandRank : Type}.
Implicit Types (g : Sparse.Game HandRank) (p : Player HandRank).

Lemma occupants_length_le (l : list (Sparse.Seat HandRank)) :
  List.length (Sparse.occupants l) <= List.length l.
Proof.
  induction l as [|[p|] l IH]; cbn; lia.
Qed.

Lemma occupants_In (l : list (Sparse.Seat HandRank)) p :
  In p (Sparse.occupants l) <-> In (Some p) l.
Proof.
  induction l as [|[q|] l IH]; cbn.
  - tauto.
  - rewrite IH. split; intros [H|H]; try tauto.
    + left. f_equal. exact H.
    + left. injection H as H. exact H.
  - rewrite IH. split; [tauto|]. intros [H|H]; [discriminate | exact H].
Qed.

(** The occupied seats are all the seats exactly when none is empty. *)
Lemma occupants_length_full (l : list (Sparse.Seat HandRank)) :
  List.length (Sparse.occupants l) = List.length l
  <-> forallb (fun s : Sparse.Seat HandRank =>
                 match s with Some _ => true | None => false end) l = true.
Proof.
  induction l as [|[p|] l IH]; cbn.
  - tauto.
  - rewrite <- IH. lia.
  - pose proof (occupants_length_le l). split; [lia | discriminate].
Qed.

Lemma noEmptySeat_length g :
  Sparse.noEmptySeat g = true
  <-> List.length (Sparse.occupants (Sparse.players g)) = Sparse.totalPlayers g.
Proof.
  unfold Sparse.noEmptySeat, Sparse.totalPlayers.
  rewrite occupants_length_full. tauto.
Qed.

(** The number of empty seats below the length of the table. *)
Definition emptySeats g : nat :=
  Sparse.totalPlayers g - List.length (Sparse.occupants (Sparse.players g)).

Lemma emptySeats_zero g : emptySeats g = 0 <-> Sparse.noEmptySeat g = true.
Proof.
  rewrite noEmptySeat_length. unfold emptySeats, Sparse.totalPlayers.
  pose proof (occupants_length_le (Sparse.players g)). lia.
Qed.

(** The loop of [canCurrentPlayerCall] on a table without empty seats. *)
Lemma raiseCounter_full (l : list (Sparse.Seat HandRank)) :
  forall c,
    forallb (fun s : Sparse.Seat HandRank =>
               match s with Some _ => true | None => false end) l = true ->
    Sparse.raiseCounter l c
    = Ret (c + count_if (fun q => String.eqb (actionState q) "raise"
                                  || String.eqb (actionState q) "SB")
                        (Sparse.occupants l)).
Proof.
  induction l as [|[p|] l IH]; intros c Hfull.
  - cbn. rewrite Nat.add_0_r. reflexivity.
  - cbn [Sparse.raiseCounter Sparse.occupants]. cbn in Hfull.
    rewrite (IH _ Hfull). rewrite !count_if_length. cbn [filter].
    destruct (String.eqb (actionState p) "raise"
              || String.eqb (actionState p) "SB"); cbn [List.length];
      f_equal; lia.
  - discriminate Hfull.
Qed.

(** The loop of [canCurrentPlayerCall] at an empty seat. *)
Lemma raiseCounter_empty (l : list (Sparse.Seat HandRank)) :
  forall c,
    forallb (fun s : Sparse.Seat HandRank =>
               match s with Some _ => true | None => false end) l = false ->
    Sparse.raiseCounter l c = Throw TypeError.
Proof.
  induction l as [|[p|] l IH]; intros c Hfull.
  - discriminate Hfull.
  - cbn [Sparse.raiseCounter]. apply IH. exact Hfull.
  - reflexivity.
Qed.

(** X5.  [canCurrentPlayerCall] in an initialized game, on any table.  When
    a seat below the length of the table is empty it throws a [TypeError],
    whoever holds the turn.  On a table without empty seats and with a seat
    holding the turn it returns, and answers true exactly when some seat
    carries the tag of a raise or of the small blind, unless the seat
    holding the turn is itself tagged small blind and the small blind equals
    the big blind.  On a table without empty seats where no seat holds the
    turn it answers false when no seat carries such a tag and throws a
    [TypeError] otherwise. *)
Theorem canCurrentPlayerCall_outcomes g :
  Sparse.initialized g = true ->
  (Sparse.noEmptySeat g = false ->
   Sparse.canCurrentPlayerCall g = Throw TypeError)
  /\ (Sparse.noEmptySeat g = true ->
      forall p,
        Sparse.currentPlayer g = Some p ->
        exists b,
          Sparse.canCurrentPlayerCall g = Ret b
          /\ (b = true
              <-> (exists q, In (Some q) (Sparse.players g)
                             /\ (actionState q = "raise"
                                 \/ actionState q = "SB"))
                  /\ ~ (actionState p = "SB"
                        /\ (Sparse.smallBlind g == Sparse.bigBlind g)%Q)))
  /\ (Sparse.noEmptySeat g = true ->
      Sparse.currentPlayer g = None ->
      ((forall q, In (Some q) (Sparse.players g) ->
                  actionState q <> "raise" /\ actionState q <> "SB") ->
       Sparse.canCurrentPlayerCall g = Ret false)
      /\ ((exists q, In (Some q) (Sparse.players g)
                     /\ (actionState q = "raise" \/ actionState q = "SB")) ->
          Sparse.canCurrentPlayerCall g = Throw TypeError)).
Proof.
  intros Hi. unfold Sparse.canCurrentPlayerCall. rewrite Hi.
  split; [|split].
  - intros He. unfold Sparse.noEmptySeat in He.
    rewrite (raiseCounter_empty _ 0 He). reflexivity.
  - intros Hf p Hp. unfold Sparse.noEmptySeat in Hf.
    rewrite (raiseCounter_full _ 0 Hf), Hp. cbn [Nat.add].
    set (tagged := fun q : Player HandRank =>
                     String.eqb (actionState q) "raise"
                     || String.eqb (actionState q) "SB").
    destruct (Nat.eqb_spec (count_if tagged
                                     (Sparse.occupants (Sparse.players g))) 0)
      as [Hz|Hnz].
    + exists false. split; [reflexivity|]. split; [discriminate|].
      intros [(q & Hq & Htag) _]. rewrite count_if_zero in Hz.
      apply occupants_In in Hq. specialize (Hz q Hq). unfold tagged in Hz.
      destruct Htag as [E|E]; rewrite E in Hz; discriminate.
    + assert (Hex : exists q, In (Some q) (Sparse.players g)
                              /\ (actionState q = "raise"
                                  \/ actionState q = "SB")).
      { rewrite count_if_length in Hnz.
        destruct (filter tagged (Sparse.occupants (Sparse.players g)))
          as [|q r] eqn:Ef; [contradiction|].
        assert (Hin : In q (filter tagged
                                   (Sparse.occupants (Sparse.players g))))
          by (rewrite Ef; left; reflexivity).
        apply filter_In in Hin. destruct Hin as [Hq Htag].
        exists q. split; [apply occupants_In; exact Hq|].
        unfold tagged in Htag. apply orb_true_iff in Htag.
        destruct Htag as [E|E]; apply String.eqb_eq in E; tauto. }
      destruct (String.eqb_spec (actionState p) "SB") as [Esb|Esb];
        cbn [andb].
      * destruct (Qeq_bool (Sparse.smallBlind g) (Sparse.bigBlind g)) eqn:Eq.
        -- apply Qeq_bool_iff in Eq. exists false. split; [reflexivity|].
           split; [discriminate|]. intros [_ Hn]. exfalso. apply Hn. tauto.
        -- apply Qeq_bool_false_iff in Eq. exists true.
           split; [reflexivity|]. split; [|reflexivity].
           intros _. split; [exact Hex | tauto].
      * exists true. split; [reflexivity|]. split; [|reflexivity].
        intros _. split; [exact Hex | tauto].
  - intros Hf Hp. unfold Sparse.noEmptySeat in Hf.
    rewrite (raiseCounter_full _ 0 Hf), Hp. cbn [Nat.add].
    set (tagged := fun q : Player HandRank =>
                     String.eqb (actionState q) "raise"
                     || String.eqb (actionState q) "SB").
    split.
    + intros Hnone.
      assert (Hz : count_if tagged (Sparse.occupants (Sparse.players g)) = 0).
      { apply count_if_zero. intros q Hq. apply occupants_In in Hq.
        destruct (Hnone q Hq) as [H1 H2]. unfold tagged.
        apply orb_false_iff. split; apply String.eqb_neq; assumption. }
      rewrite Hz. reflexivity.
    + intros (q & Hq & Htag).
      destruct (Nat.eqb_spec (count_if tagged
                                       (Sparse.occupants (Sparse.players g))) 0)
        as [Hz|Hnz]; [|reflexivity].
      rewrite count_if_zero in Hz. apply occupants_In in Hq.
      specialize (Hz q Hq). unfold tagged in Hz.
      destruct Htag as [E|E]; rewrite E in Hz; discriminate.
Qed.

(** X21.  [dealerRoundEnded] on any table: it answers true exactly when the
    occupied seats that carry a tag other than fold and the empty tag and
    the empty seats are one in all.  So on a table without empty seats it
    answers true exactly when one seat, and only one, carries such a tag; on
    a table with one empty seat, exactly when no seat carries such a tag;
    and on a table with two or more empty seats, and on a table without
    seats, it answers false. *)
Theorem dealerRoundEnded_iff g :
  (Sparse.dealerRoundEnded g = true
   <-> count_if (fun p => negb (String.eqb (actionState p) "fold"
                                || String.eqb (actionState p) ""))
                (Sparse.occupants (Sparse.players g))
       + emptySeats g = 1)
  /\ (Sparse.noEmptySeat g = true ->
      (Sparse.dealerRoundEnded g = true
       <-> count_if (fun p => negb (String.eqb (actionState p) "fold"
                                    || String.eqb (actionState p) ""))
                    (Sparse.occupants (Sparse.players g)) = 1))
  /\ (2 <= emptySeats g -> Sparse.dealerRoundEnded g = false)
  /\ (Sparse.totalPlayers g = 0 -> Sparse.dealerRoundEnded g = false).
Proof.
  assert (Hiff : Sparse.dealerRoundEnded g = true
                 <-> count_if (fun p => negb (String.eqb (actionState p) "fold"
                                              || String.eqb (actionState p) ""))
                              (Sparse.occupants (Sparse.players g))
                     + emptySeats g = 1).
  { unfold Sparse.dealerRoundEnded, emptySeats, Sparse.totalPlayers.
    rewrite Z.eqb_eq.
    pose proof (count_if_complement
                  (fun p : Player HandRank =>
                     String.eqb (actionState p) "fold"
                     || String.eqb (actionState p) "")
                  (Sparse.occupants (Sparse.players g))) as Hc.
    cbv beta in Hc.
    pose proof (occupants_length_le (Sparse.players g)). lia. }
  split; [exact Hiff|]. split; [|split].
  - intros Hf. apply emptySeats_zero in Hf. rewrite Hiff, Hf. lia.
  - intros He. apply not_true_is_false. intros E. apply Hiff in E. lia.
  - intros Hn. apply not_true_is_false. intros E.
    apply Hiff in E. unfold emptySeats in E. rewrite Hn in E.
    pose proof (occupants_length_le (Sparse.players g)) as Hle.
    unfold Sparse.totalPlayers in Hn. rewrite Hn in Hle.
    assert (Ho : Sparse.occupants (Sparse.players g) = [])
      by (destruct (Sparse.occupants (Sparse.players g));
          [reflexivity | cbn in Hle; lia]).
    rewrite Ho in E. cbn in E. lia.
Qed.

End SeatsCounted.

Section SeatsRoundGuards.

Context {HandRank : Type}.
Implicit Types (g : Sparse.Game HandRank) (p : Player HandRank).

(** The round names, read off the round number. *)
Lemma seats_isActionRound_iff (event : string) g :
  Sparse.isActionRound event g = true
  <-> ACTION_ROUNDS (Sparse.actionRound g) = Some event.
Proof.
  unfold Sparse.isActionRound.
  destruct (ACTION_ROUNDS (Sparse.actionRound g)) as [s|].
  - rewrite String.eqb_eq. split; [intros ->; reflexivity|].
    intros H. injection H as H. exact H.
  - split; discriminate.
Qed.

Lemma ACTION_ROUNDS_preflop (r : Z) :
  ACTION_ROUNDS r = Some "pre-flop" <-> r = 0%Z.
Proof.
  unfold ACTION_ROUNDS.
  destruct (Z.eqb_spec r (-1)); [split; [discriminate|lia]|].
  destruct (Z.eqb_spec r 0); [tauto|].
  destruct (Z.eqb_spec r 1); [split; [discriminate|lia]|].
  destruct (Z.eqb_spec r 2); [split; [discriminate|lia]|].
  destruct (Z.eqb_spec r 3); [split; [discriminate|lia]|].
  split; [discriminate | contradiction].
Qed.

Lemma ACTION_ROUNDS_river (r : Z) :
  ACTION_ROUNDS r = Some "river" <-> r = 3%Z.
Proof.
  unfold ACTION_ROUNDS.
  destruct (Z.eqb_spec r (-1)); [split; [discriminate|lia]|].
  destruct (Z.eqb_spec r 0); [split; [discriminate|lia]|].
  destruct (Z.eqb_spec r 1); [split; [discriminate|lia]|].
  destruct (Z.eqb_spec r 2); [split; [discriminate|lia]|].
  destruct (Z.eqb_spec r 3); [tauto|].
  split; [discriminate | contradiction].
Qed.

Lemma ACTION_ROUNDS_uninitialized (r : Z) :
  ACTION_ROUNDS r = Some "uninitialized" <-> r = (-1)%Z.
Proof.
  unfold ACTION_ROUNDS.
  destruct (Z.eqb_spec r (-1)); [tauto|].
  destruct (Z.eqb_spec r 0); [split; [discriminate|lia]|].
  destruct (Z.eqb_spec r 1); [split; [discriminate|lia]|].
  destruct (Z.eqb_spec r 2); [split; [discriminate|lia]|].
  destruct (Z.eqb_spec r 3); [split; [discriminate|lia]|].
  split; [discriminate | contradiction].
Qed.

Lemma seats_isActionRound_false (event : string) g (r : Z) :
  (ACTION_ROUNDS (Sparse.actionRound g) = Some event
   <-> Sparse.actionRound g = r) ->
  Sparse.actionRound g <> r -> Sparse.isActionRound event g = false.
Proof.
  intros H Hr. apply not_true_is_false. intros E.
  apply seats_isActionRound_iff in E. apply Hr. apply H. exact E.
Qed.

Lemma seats_validateInActionRound_passes (event : string)
      (msg : option string) g :
  Sparse.initialized g = true -> Sparse.isActionRound event g = true ->
  Sparse.validateInActionRound event msg g = (Ret tt, g).
Proof.
  intros Hi He. unfold Sparse.validateInActionRound, Sparse.bind,
                  Sparse.throwIfNotInitialized, Sparse.get.
  rewrite Hi, He. reflexivity.
Qed.

Lemma seats_validateInActionRound_refuses (event : string)
      (msg : option string) g :
  Sparse.initialized g = true -> Sparse.isActionRound event g = false ->
  Sparse.validateInActionRound event msg g
  = (Throw (Error (match msg with
                   | Some m => m
                   | None => ("Cannot " ++ event
                              ++ " at this point in the game.")%string
                   end)), g).
Proof.
  intros Hi He. unfold Sparse.validateInActionRound, Sparse.bind,
                  Sparse.throwIfNotInitialized, Sparse.get.
  rewrite Hi, He. reflexivity.
Qed.

Lemma seats_validateNotInActionRound_passes (event : string)
      (msg : option string) g :
  Sparse.initialized g = true -> Sparse.isActionRound event g = false ->
  Sparse.validateNotInActionRound event msg g = (Ret tt, g).
Proof.
  intros Hi He. unfold Sparse.validateNotInActionRound, Sparse.bind,
                  Sparse.throwIfNotInitialized, Sparse.get.
  rewrite Hi, He. reflexivity.
Qed.

Lemma seats_validateNotInActionRound_refuses (event : string)
      (msg : option string) g :
  Sparse.initialized g = true -> Sparse.isActionRound event g = true ->
  Sparse.validateNotInActionRound event msg g
  = (Throw (Error (match msg with
                   | Some m => m
                   | None => ("Cannot " ++ event
                              ++ " at this point in the game.")%string
                   end)), g).
Proof.
  intros Hi He. unfold Sparse.validateNotInActionRound, Sparse.bind,
                  Sparse.throwIfNotInitialized, Sparse.get.
  rewrite Hi, He. reflexivity.
Qed.

Lemma seats_validateNotInActionRound_uninitialized (event : string)
      (msg : option string) g :
  Sparse.initialized g = false ->
  Sparse.validateNotInActionRound event msg g = (Throw NotInitialized, g).
Proof.
  intros Hi. unfold Sparse.validateNotInActionRound, Sparse.bind,
               Sparse.throwIfNotInitialized.
  rewrite Hi. reflexivity.
Qed.

(** No occupied seat carries the tag of a raise. *)
Definition nobodySeatedRaised g : Prop :=
  forall q, In (Some q) (Sparse.players g) -> actionState q <> "raise".

(** The test [currentNonRaiseActionStates === totalPlayers]: the count skips
    the empty seats and the length counts them. *)
Lemma seats_currentNonRaiseActionStates_all g :
  Nat.eqb (Sparse.currentNonRaiseActionStates g) (Sparse.totalPlayers g) = true
  <-> Sparse.noEmptySeat g = true /\ nobodySeatedRaised g.
Proof.
  rewrite Nat.eqb_eq, noEmptySeat_length.
  unfold Sparse.currentNonRaiseActionStates, nobodySeatedRaised.
  set (f := fun player : Player HandRank =>
              negb (String.eqb (actionState player) "raise")).
  pose proof (count_if_length f (Sparse.occupants (Sparse.players g))) as Hc.
  pose proof (filter_length_le f (Sparse.occupants (Sparse.players g))) as Hle.
  pose proof (occupants_length_le (Sparse.players g)) as Hocc.
  fold (Sparse.totalPlayers g) in Hocc.
  pose proof (count_if_all f (Sparse.occupants (Sparse.players g))) as Hall.
  split.
  - intros H. assert (Hfull : List.length (Sparse.occupants (Sparse.players g))
                              = Sparse.totalPlayers g) by lia.
    split; [exact Hfull|]. intros q Hq E.
    apply occupants_In in Hq.
    assert (Hq' : f q = true) by (apply Hall; [lia | exact Hq]).
    unfold f in Hq'. rewrite E in Hq'. discriminate.
  - intros [Hfull Hnone]. rewrite <- Hfull. apply Hall. intros q Hq.
    apply occupants_In in Hq. unfold f. apply negb_true_iff.
    apply String.eqb_neq. apply Hnone. exact Hq.
Qed.

(** X8.  [preflopAllowCheckForSBAndOrBB] in an initialized game, on any
    table.  Outside of the pre-flop round it throws and changes nothing.
    Pre-flop, when no seat holds the turn it throws a [TypeError] and changes
    nothing; when a seat holds the turn it returns and changes at most
    [allowCheck]: afterwards checking is allowed exactly when it was allowed
    before, or no seat below the length of the table is empty, no seat
    carries the tag of a raise, and the seat holding the turn is either
    tagged small blind with the small blind equal to the big blind, or
    tagged big blind with the two blinds different.  On a table with an
    empty seat it therefore never grants the check, and it never withdraws
    the permission to check. *)
Theorem preflopAllowCheckForSBAndOrBB_spec g :
  Sparse.initialized g = true ->
  (Sparse.actionRound g <> 0%Z ->
   Sparse.preflopAllowCheckForSBAndOrBB g
   = (Throw (Error "Cannot pre-flop at this point in the game."), g))
  /\ (Sparse.actionRound g = 0%Z ->
      Sparse.currentPlayer g = None ->
      Sparse.preflopAllowCheckForSBAndOrBB g = (Throw TypeError, g))
  /\ (forall p,
        Sparse.actionRound g = 0%Z ->
        Sparse.currentPlayer g = Some p ->
        exists b,
          Sparse.preflopAllowCheckForSBAndOrBB g
          = (Ret tt, Sparse.set_allowCheck b g)
          /\ (b = true
              <-> Sparse.allowCheck g = true
                  \/ (Sparse.noEmptySeat g = true
                      /\ nobodySeatedRaised g
                      /\ ((actionState p = "SB"
                           /\ (Sparse.smallBlind g == Sparse.bigBlind g)%Q)
                          \/ (actionState p = "BB"
                              /\ ~ (Sparse.smallBlind g
                                    == Sparse.bigBlind g)%Q))))
          /\ (Sparse.noEmptySeat g = false -> b = Sparse.allowCheck g)).
Proof.
  intros Hi. unfold Sparse.preflopAllowCheckForSBAndOrBB.
  split; [|split].
  - intros Hr. unfold Sparse.bind at 1.
    rewrite seats_validateInActionRound_refuses; [reflexivity | exact Hi|].
    apply (@seats_isActionRound_false _ g 0%Z); [|exact Hr].
    apply ACTION_ROUNDS_preflop.
  - intros Hr Hp. unfold Sparse.bind at 1.
    rewrite seats_validateInActionRound_passes;
      [|exact Hi
       |apply seats_isActionRound_iff, ACTION_ROUNDS_preflop; exact Hr].
    rewrite seats_bind_get, Hp. reflexivity.
  - intros p Hr Hp. unfold Sparse.bind at 1.
    rewrite seats_validateInActionRound_passes;
      [|exact Hi
       |apply seats_isActionRound_iff, ACTION_ROUNDS_preflop; exact Hr].
    rewrite seats_bind_get, Hp.
    pose proof (seats_currentNonRaiseActionStates_all g) as Hnr.
    pose proof (Qeq_bool_iff (Sparse.smallBlind g) (Sparse.bigBlind g)) as Hq.
    exists (Sparse.allowCheck g
            || Nat.eqb (Sparse.currentNonRaiseActionStates g)
                       (Sparse.totalPlayers g)
               && (String.eqb (actionState p) "SB"
                   && Qeq_bool (Sparse.smallBlind g) (Sparse.bigBlind g)
                   || String.eqb (actionState p) "BB"
                      && negb (Qeq_bool (Sparse.smallBlind g)
                                        (Sparse.bigBlind g)))).
    split; [|split].
    + clear Hnr Hq Hr Hi.
      destruct (String.eqb (actionState p) "SB") eqn:Esb,
               (Qeq_bool (Sparse.smallBlind g) (Sparse.bigBlind g)) eqn:Eq,
               (Nat.eqb (Sparse.currentNonRaiseActionStates g)
                        (Sparse.totalPlayers g)) eqn:En;
        cbn [andb orb negb];
        rewrite ?seats_bind_modify, ?seats_bind_ret, seats_bind_get;
        try change (Sparse.currentPlayer (Sparse.set_allowCheck true g))
          with (Sparse.currentPlayer g);
        rewrite Hp;
        try change (Sparse.smallBlind (Sparse.set_allowCheck true g))
          with (Sparse.smallBlind g);
        try change (Sparse.bigBlind (Sparse.set_allowCheck true g))
          with (Sparse.bigBlind g);
        try change (Sparse.currentNonRaiseActionStates
                      (Sparse.set_allowCheck true g))
          with (Sparse.currentNonRaiseActionStates g);
        try change (Sparse.totalPlayers (Sparse.set_allowCheck true g))
          with (Sparse.totalPlayers g);
        rewrite ?Eq, ?En; cbn [andb orb negb];
        rewrite ?andb_false_r, ?andb_true_r, ?orb_false_r, ?orb_true_r;
        try reflexivity;
        destruct (String.eqb (actionState p) "BB"); cbn [andb orb negb];
        rewrite ?orb_false_r, ?orb_true_r;
        try reflexivity; destruct g; reflexivity.
    + rewrite orb_true_iff, andb_true_iff, orb_true_iff, !andb_true_iff.
      rewrite negb_true_iff, Hnr, !String.eqb_eq, Hq.
      rewrite Qeq_bool_false_iff. tauto.
    + intros He.
      assert (En : Nat.eqb (Sparse.currentNonRaiseActionStates g)
                           (Sparse.totalPlayers g) = false).
      { apply not_true_is_false. intros En. apply Hnr in En.
        destruct En as [Hf _]. congruence. }
      rewrite En. cbn [andb]. apply orb_false_r.
Qed.

End SeatsRoundGuards.

Section SeatsNextActionRound.

Context {HandRank : Type}.
Implicit Types (g : Sparse.Game HandRank) (p : Player HandRank).

Lemma occupants_map (f : Player HandRank -> Player HandRank)
      (l : list (Sparse.Seat HandRank)) :
  Sparse.occupants (map (option_map f) l) = map f (Sparse.occupants l).
Proof.
  induction l as [|[p|] l IH]; cbn; [reflexivity | rewrite IH | exact IH];
    reflexivity.
Qed.

(** Advancing the turn touches the turn pointer and its counter only. *)
Lemma seats_incrementTurn_frame g :
  exists t c,
    snd (Sparse.incrementTurn g)
    = Sparse.set_turnIdx t (Sparse.set_numTurnIncrements c g).
Proof.
  unfold Sparse.incrementTurn, Sparse.bind, Sparse.throwIfNotInitialized,
    Sparse.modify.
  destruct (Sparse.initialized g) eqn:Hi.
  - eexists _, _. reflexivity.
  - exists (Sparse.turnIdx g), (Sparse.numTurnIncrements g).
    destruct g; reflexivity.
Qed.

Lemma seats_skipLoop_frame :
  forall m acc g,
  exists t c,
    snd (Sparse.skipLoop m acc g)
    = Sparse.set_turnIdx t (Sparse.set_numTurnIncrements c g).
Proof.
  induction m as [|m IH]; intros acc g.
  - exists (Sparse.turnIdx g), (Sparse.numTurnIncrements g).
    destruct g; reflexivity.
  - cbn [Sparse.skipLoop]. rewrite seats_bind_get.
    assert (Hsame : exists t c,
               g = Sparse.set_turnIdx t (Sparse.set_numTurnIncrements c g))
      by (exists (Sparse.turnIdx g), (Sparse.numTurnIncrements g);
          destruct g; reflexivity).
    destruct (Sparse.turnIdx g) as [t0|]; [|exact Hsame].
    destruct (Sparse.currentPlayer g) as [p|]; [|exact Hsame].
    destruct (negb (inGame p) || isAllIn p); [|exact Hsame].
    unfold Sparse.bind. destruct (seats_incrementTurn_frame g) as (t & c & Hf).
    destruct (Sparse.incrementTurn g) as [[[]|e] g1]; cbn [snd] in Hf; subst g1.
    + destruct (IH (acc ++ [t0])
                   (Sparse.set_turnIdx t (Sparse.set_numTurnIncrements c g)))
        as (t' & c' & Hf').
      rewrite Hf'. exists t', c'. reflexivity.
    + exists t, c. reflexivity.
Qed.

Lemma seats_incrementTurnToNextPlayerInGame_frame g :
  exists t c,
    snd (Sparse.incrementTurnToNextPlayerInGame g)
    = Sparse.set_turnIdx t (Sparse.set_numTurnIncrements c g).
Proof.
  unfold Sparse.incrementTurnToNextPlayerInGame, Sparse.bind.
  unfold Sparse.throwIfNotInitialized at 1.
  destruct (Sparse.initialized g);
    [|exists (Sparse.turnIdx g), (Sparse.numTurnIncrements g);
      destruct g; reflexivity].
  destruct (seats_incrementTurn_frame g) as (t & c & Hf).
  destruct (Sparse.incrementTurn g) as [[[]|e] g1]; cbn [snd] in Hf; subst g1.
  - unfold Sparse.get.
    destruct (seats_skipLoop_frame
                (Sparse.totalPlayers
                   (Sparse.set_turnIdx t (Sparse.set_numTurnIncrements c g)))
                [] (Sparse.set_turnIdx t (Sparse.set_numTurnIncrements c g)))
      as (t' & c' & Hf').
    rewrite Hf'. exists t', c'. reflexivity.
  - exists t, c. reflexivity.
Qed.

(** The game in which [refreshAndIncActionRound] advances the turn: every
    occupied seat has its commitment cleared, may raise and carries the
    empty tag; the betting variables are reset and the turn is on the
    dealer. *)
Definition seats_roundReset g : Sparse.Game HandRank :=
  Sparse.set_turnIdx (Sparse.Idx (Sparse.dealerIdx g))
    (Sparse.set_betting 0%Q (Sparse.bigBlind g) true
       (Sparse.set_players
          (map (option_map
                  (fun player =>
                     mkPlayer (id player) (cards player) (stack player) 0%Q
                              (inGame player) (isAllIn player) true ""
                              (showdownRank player)))
               (Sparse.players g)) g)).

(** The game at the start of the next action round, the turn pointer [t]
    and [c] turn increments counted: every occupied seat is as [freshPlayer]
    leaves it, the empty seats stay empty. *)
Definition seats_startedRound g (t : Sparse.index) (c : nat)
  : Sparse.Game HandRank :=
  Sparse.mkGame (Sparse.initialized g) (Sparse.buyIn g) (Sparse.smallBlind g)
                (Sparse.bigBlind g)
                (map (option_map (@freshPlayer HandRank)) (Sparse.players g))
                (Sparse.dealerIdx g) (Sparse.smallBlindIdx g)
                (Sparse.bigBlindIdx g) t c (Sparse.pots g)
                (Sparse.actionRound g + 1)%Z (Sparse.board g) (Sparse.deck g)
                (Sparse.bigBlind g) 0%Q true.

Lemma seat_map (f : Player HandRank -> Player HandRank)
      (l : list (Sparse.Seat HandRank)) :
  forall i,
    match nth_error (map (option_map f) l) i with
    | Some s => s
    | None => None
    end
    = option_map f match nth_error l i with
                   | Some s => s
                   | None => None
                   end.
Proof.
  induction l as [|s l IH]; intros [|i]; cbn; try reflexivity. apply IH.
Qed.

Lemma seats_roundReset_seatAt g (i : nat) :
  Sparse.seatAt (seats_roundReset g) i
  = option_map (fun player =>
                  mkPlayer (id player) (cards player) (stack player) 0%Q
                           (inGame player) (isAllIn player) true ""
                           (showdownRank player))
               (Sparse.seatAt g i).
Proof.
  unfold Sparse.seatAt, seats_roundReset.
  cbn [Sparse.players Sparse.set_turnIdx Sparse.set_betting Sparse.set_players].
  apply seat_map.
Qed.

Lemma seats_roundReset_activeSeat g (i : nat) :
  Sparse.activeSeat (seats_roundReset g) i = Sparse.activeSeat g i.
Proof.
  unfold Sparse.activeSeat. rewrite seats_roundReset_seatAt.
  destruct (Sparse.seatAt g i); reflexivity.
Qed.

Lemma seats_roundReset_passedSeat g (i : nat) :
  Sparse.passedSeat (seats_roundReset g) i = Sparse.passedSeat g i.
Proof.
  unfold Sparse.passedSeat. rewrite seats_roundReset_seatAt.
  destruct (Sparse.seatAt g i); reflexivity.
Qed.

Lemma seats_roundReset_empty g (i : nat) :
  Sparse.seatAt (seats_roundReset g) i = None <-> Sparse.seatAt g i = None.
Proof.
  rewrite seats_roundReset_seatAt.
  destruct (Sparse.seatAt g i); cbn; split; congruence.
Qed.

Lemma seats_roundReset_totalPlayers g :
  Sparse.totalPlayers (seats_roundReset g) = Sparse.totalPlayers g.
Proof.
  unfold Sparse.totalPlayers, seats_roundReset.
  cbn [Sparse.players Sparse.set_turnIdx Sparse.set_betting Sparse.set_players].
  apply length_map.
Qed.

(** [refreshAndIncActionRound] past its two guards. *)
Lemma seats_refreshAndIncActionRound_unfold g :
  Sparse.initialized g = true ->
  Sparse.actionRound g <> 3%Z ->
  Sparse.actionRound g <> (-1)%Z ->
  Sparse.refreshAndIncActionRound g
  = match Sparse.incrementTurnToNextPlayerInGame (seats_roundReset g) with
    | (Ret skipped, g4) =>
        (Ret skipped,
         seats_startedRound g (Sparse.turnIdx g4) (Sparse.numTurnIncrements g4))
    | (Throw e, g4) => (Throw e, g4)
    end.
Proof.
  intros Hi H3 H1. unfold Sparse.refreshAndIncActionRound.
  unfold Sparse.bind at 1.
  rewrite seats_validateNotInActionRound_passes;
    [|exact Hi
     |apply (@seats_isActionRound_false _ _ g 3%Z (ACTION_ROUNDS_river _) H3)].
  unfold Sparse.bind at 1.
  rewrite seats_validateNotInActionRound_passes;
    [|exact Hi
     |apply (@seats_isActionRound_false _ _ g (-1)%Z
               (ACTION_ROUNDS_uninitialized _) H1)].
  repeat (rewrite seats_bind_modify; cbv beta).
  unfold Sparse.bind at 1.
  match goal with
  | |- context [Sparse.incrementTurnToNextPlayerInGame ?x] =>
      replace x with (seats_roundReset g) by reflexivity
  end.
  destruct (seats_incrementTurnToNextPlayerInGame_frame (seats_roundReset g))
    as (t & c & Hf).
  destruct (Sparse.incrementTurnToNextPlayerInGame (seats_roundReset g))
    as [[sk|e] g4]; [|reflexivity].
  cbn [snd] in Hf. subst g4. repeat (rewrite seats_bind_modify; cbv beta).
  unfold Sparse.ret.
  f_equal. apply seats_Game_ext;
    cbn [Sparse.initialized Sparse.buyIn Sparse.smallBlind Sparse.bigBlind
         Sparse.players Sparse.dealerIdx Sparse.smallBlindIdx
         Sparse.bigBlindIdx Sparse.turnIdx Sparse.numTurnIncrements
         Sparse.pots Sparse.actionRound Sparse.board Sparse.deck
         Sparse.minRaise Sparse.previousBet Sparse.allowCheck
         seats_startedRound seats_roundReset Sparse.set_actionRound
         Sparse.set_players Sparse.set_turnIdx Sparse.set_numTurnIncrements
         Sparse.set_betting];
    try reflexivity.
  rewrite map_map. apply map_ext. intros [p|]; [|reflexivity].
  cbn [option_map]. f_equal. unfold freshPlayer.
  cbn [inGame]. destruct (inGame p); reflexivity.
Qed.

(** X11.  [refreshAndIncActionRound] in an initialized game, outside of the
    river and of the uninitialized round, on any table with a seat.  It
    clears the commitment of every occupied seat, lets it raise again and
    empties its tag, sets the previous bet to 0, the minimum raise to the
    big blind and allows checking, and then advances the turn from the
    dealer, passing over the occupied seats that are out of the hand or
    all-in, for at most one lap.  At the first seat in the hand and not
    all-in, and after a whole lap of passed-over seats, it returns the seats
    passed over: the round number has grown by one and every occupied seat
    in the hand is tagged [" "]; stacks, cards, pots, board and deck are
    untouched.  At the first empty seat it throws a [TypeError]: the reset
    has been done, the turn pointer is on the empty seat, and the round
    number has not changed. *)
Theorem refreshAndIncActionRound_starts_round g :
  Sparse.initialized g = true ->
  Sparse.actionRound g <> 3%Z ->
  Sparse.actionRound g <> (-1)%Z ->
  0 < Sparse.totalPlayers g ->
  exists k,
    k <= Sparse.totalPlayers g
    /\ (forall j, j < k ->
          Sparse.passedSeat
            g ((Sparse.dealerIdx g + 1 + j) mod Sparse.totalPlayers g) = true)
    /\ ((k < Sparse.totalPlayers g
         /\ Sparse.activeSeat
              g ((Sparse.dealerIdx g + 1 + k) mod Sparse.totalPlayers g) = true
         /\ Sparse.refreshAndIncActionRound g
            = (Ret (map (fun j => (Sparse.dealerIdx g + 1 + j)
                                    mod Sparse.totalPlayers g) (seq 0 k)),
               seats_startedRound
                 g (Sparse.Idx ((Sparse.dealerIdx g + 1 + k)
                                  mod Sparse.totalPlayers g))
                 (Sparse.numTurnIncrements g + (1 + k))))
        \/ (k < Sparse.totalPlayers g
            /\ Sparse.seatAt
                 g ((Sparse.dealerIdx g + 1 + k) mod Sparse.totalPlayers g)
               = None
            /\ Sparse.refreshAndIncActionRound g
               = (Throw TypeError,
                  Sparse.turned
                    (seats_roundReset g)
                    ((Sparse.dealerIdx g + 1 + k) mod Sparse.totalPlayers g)
                    (1 + k)))
        \/ (k = Sparse.totalPlayers g
            /\ Sparse.refreshAndIncActionRound g
               = (Ret (map (fun j => (Sparse.dealerIdx g + 1 + j)
                                       mod Sparse.totalPlayers g) (seq 0 k)),
                  seats_startedRound
                    g (Sparse.Idx ((Sparse.dealerIdx g + 1 + k)
                                     mod Sparse.totalPlayers g))
                    (Sparse.numTurnIncrements g + (1 + k))))).
Proof.
  intros Hi H3 H1 Hn.
  destruct (@seats_incrementTurnToNextPlayerInGame_run
              _ (seats_roundReset g) (Sparse.dealerIdx g))
    as (k & Hk & Hpass & Hrun);
    [exact Hi | reflexivity
     | rewrite seats_roundReset_totalPlayers; exact Hn|].
  rewrite seats_roundReset_totalPlayers in *.
  exists k. split; [exact Hk|]. split.
  - intros j Hj. rewrite <- seats_roundReset_passedSeat. apply Hpass. exact Hj.
  - rewrite seats_refreshAndIncActionRound_unfold by assumption.
    destruct Hrun as [(Hlt & Hact & Hrun)|[(Hlt & Hemp & Hrun)|(Heq & Hrun)]];
      rewrite Hrun.
    + left. split; [exact Hlt|].
      split; [rewrite <- seats_roundReset_activeSeat; exact Hact|].
      reflexivity.
    + right. left. split; [exact Hlt|].
      split; [apply seats_roundReset_empty; exact Hemp | reflexivity].
    + right. right. split; [exact Heq | reflexivity].
Qed.

Lemma seats_refreshAndIncActionRound_returned g (skipped : list nat) g' :
  Sparse.refreshAndIncActionRound g = (Ret skipped, g') ->
  Sparse.actionRound g <> (-1)%Z
  /\ exists t c, g' = seats_startedRound g t c.
Proof.
  intros Hrun.
  destruct (Sparse.initialized g) eqn:Hi.
  2:{ unfold Sparse.refreshAndIncActionRound in Hrun.
      unfold Sparse.bind at 1 in Hrun.
      rewrite seats_validateNotInActionRound_uninitialized in Hrun by exact Hi.
      discriminate. }
  destruct (Z.eq_dec (Sparse.actionRound g) 3) as [E3|E3].
  { unfold Sparse.refreshAndIncActionRound in Hrun.
    unfold Sparse.bind at 1 in Hrun.
    rewrite seats_validateNotInActionRound_refuses in Hrun;
      [discriminate | exact Hi
       | apply seats_isActionRound_iff, ACTION_ROUNDS_river; exact E3]. }
  destruct (Z.eq_dec (Sparse.actionRound g) (-1)) as [E1|E1].
  { unfold Sparse.refreshAndIncActionRound in Hrun.
    unfold Sparse.bind at 1 in Hrun.
    rewrite seats_validateNotInActionRound_passes in Hrun;
      [|exact Hi
       |apply (@seats_isActionRound_false _ _ g 3%Z (ACTION_ROUNDS_river _) E3)].
    unfold Sparse.bind at 1 in Hrun.
    rewrite seats_validateNotInActionRound_refuses in Hrun;
      [discriminate | exact Hi
       | apply seats_isActionRound_iff, ACTION_ROUNDS_uninitialized; exact E1]. }
  split; [exact E1|].
  rewrite seats_refreshAndIncActionRound_unfold in Hrun by assumption.
  destruct (Sparse.incrementTurnToNextPlayerInGame (seats_roundReset g))
    as [[sk|e] g4]; [|discriminate].
  injection Hrun as _ <-. eexists _, _. reflexivity.
Qed.

(** X13.  Whenever [refreshAndIncActionRound] returns, on any table: the
    number of seats in the hand is unchanged; [dealerRoundEnded] answers
    true exactly when the seats in the hand and the empty seats are one in
    all, so on a table without empty seats exactly when a single seat is in
    the hand, and on a table with an empty seat not even then;
    [actionRoundEnded] returns, answering true exactly when every seat in
    the hand is all-in. *)
Theorem refreshAndIncActionRound_round_open g (skipped : list nat) g' :
  Sparse.refreshAndIncActionRound g = (Ret skipped, g') ->
  Sparse.numPlayersInGame g' = Sparse.numPlayersInGame g
  /\ (Sparse.dealerRoundEnded g' = true
      <-> Sparse.numPlayersInGame g + emptySeats g = 1)
  /\ (Sparse.noEmptySeat g = true ->
      (Sparse.dealerRoundEnded g' = true <-> Sparse.numPlayersInGame g = 1))
  /\ exists b,
       Sparse.actionRoundEnded g' = Ret b
       /\ (b = true
           <-> forall p, In (Some p) (Sparse.players g) -> inGame p = true ->
                         isAllIn p = true).
Proof.
  intros Hrun.
  apply seats_refreshAndIncActionRound_returned in Hrun.
  destruct Hrun as (H1 & t & c & ->).
  assert (Hocc : Sparse.occupants (Sparse.players (seats_startedRound g t c))
                 = map (@freshPlayer HandRank)
                       (Sparse.occupants (Sparse.players g))).
  { unfold seats_startedRound. cbn [Sparse.players]. apply occupants_map. }
  assert (Hnum : Sparse.numPlayersInGame (seats_startedRound g t c)
                 = Sparse.numPlayersInGame g).
  { unfold Sparse.numPlayersInGame. rewrite Hocc, count_if_map. reflexivity. }
  assert (Hended : Sparse.dealerRoundEnded (seats_startedRound g t c) = true
                   <-> Sparse.numPlayersInGame g + emptySeats g = 1).
  { unfold Sparse.dealerRoundEnded. rewrite Hocc.
    unfold Sparse.totalPlayers at 1. unfold seats_startedRound at 1.
    cbn [Sparse.players]. rewrite count_if_map, length_map.
    rewrite (@count_if_ext _ _ (fun x => negb (inGame x)));
      [|intros p _; unfold freshPlayer; cbn [actionState];
        destruct (inGame p); reflexivity].
    pose proof (count_if_complement (@inGame HandRank)
                                    (Sparse.occupants (Sparse.players g)))
      as Hc.
    pose proof (occupants_length_le (Sparse.players g)) as Hle.
    unfold Sparse.numPlayersInGame, emptySeats, Sparse.totalPlayers.
    unfold Sparse.Seat in *. rewrite Z.eqb_eq. lia. }
  split; [exact Hnum|]. split; [exact Hended|]. split.
  - intros Hf. apply emptySeats_zero in Hf. rewrite Hended, Hf. lia.
  - unfold Sparse.actionRoundEnded, Sparse.preFlopActionRoundEnded.
    rewrite (@seats_isActionRound_false
               _ _ (seats_startedRound g t c) 0%Z (ACTION_ROUNDS_preflop _));
      [|unfold seats_startedRound; cbn [Sparse.actionRound]; lia].
    rewrite Hnum.
    assert (Hraise : Sparse.raiseScenarioCounter (seats_startedRound g t c) = 0).
    { unfold Sparse.raiseScenarioCounter. apply count_if_zero. intros p Hp.
      apply filter_In in Hp. destruct Hp as [Hp _].
      rewrite Hocc in Hp.
      apply in_map_iff in Hp. destruct Hp as (q & <- & _).
      unfold freshPlayer. cbn [actionState]. destruct (inGame q); reflexivity. }
    rewrite Hraise. cbn [Nat.eqb].
    exists (Nat.eqb (Sparse.noRaiseScenarioCounter (seats_startedRound g t c))
                    (Sparse.numPlayersInGame g)).
    split; [destruct (Nat.eqb _ _); reflexivity|].
    rewrite Nat.eqb_eq, <- Hnum.
    unfold Sparse.noRaiseScenarioCounter, Sparse.numPlayersInGame.
    rewrite (count_if_length (@inGame HandRank)).
    rewrite count_if_all. rewrite Hocc. split.
    + intros H p Hp Hg. apply occupants_In in Hp.
      assert (Hin : In (freshPlayer p)
                       (filter (@inGame HandRank)
                               (map (@freshPlayer HandRank)
                                    (Sparse.occupants (Sparse.players g))))).
      { apply filter_In. split; [apply in_map; exact Hp | exact Hg]. }
      specialize (H _ Hin). cbv beta in H. unfold freshPlayer in H.
      cbn [isAllIn actionState inGame id] in H. rewrite Hg in H.
      destruct (isAllIn p); [reflexivity|]. cbn in H. discriminate H.
    + intros H p' Hp'. apply filter_In in Hp'. destruct Hp' as [Hp' Hg].
      apply in_map_iff in Hp'. destruct Hp' as (p & <- & Hp).
      apply occupants_In in Hp. unfold freshPlayer in *.
      cbn [isAllIn actionState inGame id] in *.
      rewrite (H p Hp Hg), Hg. reflexivity.
Qed.

End SeatsNextActionRound.

Section SeatsAllInScenario.

Context {HandRank : Type}.
Implicit Types (g : Sparse.Game HandRank) (p : Player HandRank).

(** A player that is in the hand and not all-in. *)
Definition livePlayer p : bool := inGame p && negb (isAllIn p).

(** [find] stops at the first seat that is empty or holds a live player. *)
Lemma seats_find_live (l : list (Sparse.Seat HandRank)) :
  (exists pre p rest,
      l = map Some pre ++ Some p :: rest
      /\ (forall q, In q pre -> livePlayer q = false)
      /\ livePlayer p = true
      /\ Sparse.find livePlayer l = Ret (Some p))
  \/ (exists pre rest,
         l = map Some pre ++ None :: rest
         /\ (forall q, In q pre -> livePlayer q = false)
         /\ Sparse.find livePlayer l = Throw TypeError)
  \/ (l = map Some (Sparse.occupants l)
      /\ (forall q, In q (Sparse.occupants l) -> livePlayer q = false)
      /\ Sparse.find livePlayer l = Ret None).
Proof.
  induction l as [|[p|] l IH].
  - right. right. cbn. repeat split. intros q [].
  - cbn [Sparse.find]. destruct (livePlayer p) eqn:Ep.
    + left. exists [], p, l. cbn. repeat split; try assumption. intros q [].
    + destruct IH as [(pre & q & rest & -> & Hpre & Hq & Hf)
                     |[(pre & rest & -> & Hpre & Hf)|(Hl & Hnone & Hf)]].
      * left. exists (p :: pre), q, rest. cbn [map app].
        repeat split; try assumption.
        intros x [<-|Hx]; [exact Ep | apply Hpre; exact Hx].
      * right. left. exists (p :: pre), rest. cbn [map app].
        repeat split; try assumption.
        intros x [<-|Hx]; [exact Ep | apply Hpre; exact Hx].
      * right. right. cbn [Sparse.occupants map]. split; [f_equal; exact Hl|].
        split; [|exact Hf].
        intros x [<-|Hx]; [exact Ep | apply Hnone; exact Hx].
  - right. left. exists [], l. cbn. repeat split. intros q [].
Qed.

Lemma no_live_counts (l : list (Player HandRank)) :
  existsb livePlayer l = false ->
  count_if (@inGame HandRank) l <= count_if (@isAllIn HandRank) l.
Proof.
  rewrite !count_if_length. induction l as [|x l IH]; intros E; [cbn; lia|].
  cbn [existsb] in E. apply orb_false_iff in E. destruct E as [Ex El].
  specialize (IH El). cbn [filter]. unfold livePlayer in Ex.
  destruct (inGame x), (isAllIn x); cbn in *; try discriminate; lia.
Qed.

(** When the in-hand count exceeds the all-in count, some occupied seat is
    in the hand and not all-in. *)
Lemma seats_live_exists g :
  Sparse.allInPlayersCounter g < Sparse.numPlayersInGame g ->
  exists q, In q (Sparse.occupants (Sparse.players g)) /\ livePlayer q = true.
Proof.
  unfold Sparse.allInPlayersCounter, Sparse.numPlayersInGame.
  intros Hlt.
  destruct (existsb livePlayer (Sparse.occupants (Sparse.players g))) eqn:E.
  - apply existsb_exists in E. exact E.
  - apply no_live_counts in E. lia.
Qed.

(** X22.  [actionRoundEndedViaAllInScenario] on any table.  It throws on a
    game that is not initialized.  In an initialized game it answers true
    when as many occupied seats are all-in as are in the hand, and false
    when the two counts differ otherwise than by one seat more in the hand.
    When one seat more is in the hand than is all-in, it looks for the first
    seat that is in the hand and not all-in, reading the seats from index 0:
    if an empty seat comes first it throws a [TypeError]; otherwise it
    answers whether that seat is in the potential-winners set of every pot
    of the ledger, open or closed.  The all-in count takes in every all-in
    seat, in the hand or not. *)
Theorem actionRoundEndedViaAllInScenario_outcomes g :
  (Sparse.initialized g = false ->
   Sparse.actionRoundEndedViaAllInScenario g = Throw NotInitialized)
  /\ (Sparse.initialized g = true ->
      Sparse.allInPlayersCounter g = Sparse.numPlayersInGame g ->
      Sparse.actionRoundEndedViaAllInScenario g = Ret true)
  /\ (Sparse.initialized g = true ->
      Sparse.allInPlayersCounter g <> Sparse.numPlayersInGame g ->
      Sparse.allInPlayersCounter g + 1 <> Sparse.numPlayersInGame g ->
      Sparse.actionRoundEndedViaAllInScenario g = Ret false)
  /\ (Sparse.initialized g = true ->
      Sparse.allInPlayersCounter g + 1 = Sparse.numPlayersInGame g ->
      exists pre rest,
        (forall q, In q pre -> livePlayer q = false)
        /\ ((exists p,
               Sparse.players g = map Some pre ++ Some p :: rest
               /\ livePlayer p = true
               /\ Sparse.actionRoundEndedViaAllInScenario g
                  = Ret (forallb (playerIdxInPotentialWinners (id p))
                                 (Sparse.pots g)))
            \/ (Sparse.players g = map Some pre ++ None :: rest
                /\ Sparse.actionRoundEndedViaAllInScenario g
                   = Throw TypeError))).
Proof.
  unfold Sparse.actionRoundEndedViaAllInScenario.
  split; [|split; [|split]].
  - intros Hi. rewrite Hi. reflexivity.
  - intros Hi Heq. rewrite Hi, Heq, Nat.eqb_refl. reflexivity.
  - intros Hi Hne Hne1. rewrite Hi.
    destruct (Nat.eqb_spec (Sparse.allInPlayersCounter g)
                           (Sparse.numPlayersInGame g)); [contradiction|].
    destruct (Z.eqb_spec (Z.of_nat (Sparse.allInPlayersCounter g))
                         (Z.of_nat (Sparse.numPlayersInGame g) - 1));
      [lia | reflexivity].
  - intros Hi Hone. rewrite Hi.
    destruct (Nat.eqb_spec (Sparse.allInPlayersCounter g)
                           (Sparse.numPlayersInGame g)); [lia|].
    destruct (Z.eqb_spec (Z.of_nat (Sparse.allInPlayersCounter g))
                         (Z.of_nat (Sparse.numPlayersInGame g) - 1));
      [|lia].
    change (fun player : Player HandRank =>
              inGame player && negb (isAllIn player)) with livePlayer.
    destruct (seats_find_live (Sparse.players g))
      as [(pre & p & rest & Hl & Hpre & Hp & Hf)
         |[(pre & rest & Hl & Hpre & Hf)|(Hl & Hnone & Hf)]].
    + exists pre, rest. split; [exact Hpre|]. left. exists p.
      split; [exact Hl|]. split; [exact Hp|]. rewrite Hf. reflexivity.
    + exists pre, rest. split; [exact Hpre|]. right.
      split; [exact Hl|]. rewrite Hf. reflexivity.
    + exfalso. destruct (@seats_live_exists g ltac:(lia)) as (q & Hq & Hlive).
      rewrite (Hnone q Hq) in Hlive. discriminate.
Qed.

End SeatsAllInScenario.

Section Seating.

Context {HandRank : Type}.
Variable MAX_PLAYERS_PER_GAME : nat.
Implicit Types (g : Sparse.Game HandRank) (p : Player HandRank).

Lemma assign_length (pos : nat) p (l : list (Sparse.Seat HandRank)) :
  List.length (Sparse.assign pos p l) = Nat.max (List.length l) (pos + 1).
Proof.
  revert l. induction pos as [|pos IH]; intros [|s l]; cbn [Sparse.assign];
    cbn [List.length].
  - reflexivity.
  - lia.
  - rewrite IH. cbn [List.length]. lia.
  - rewrite IH. lia.
Qed.

(** Reading a seat: [None] is an empty seat or a position outside of the
    array. *)
Definition seatOf (l : list (Sparse.Seat HandRank)) (i : nat)
  : option (Player HandRank) :=
  match nth_error l i with
  | Some s => s
  | None => None
  end.

Lemma assign_seatOf (pos : nat) p (l : list (Sparse.Seat HandRank)) :
  forall i,
    seatOf (Sparse.assign pos p l) i
    = if Nat.eqb i pos then Some p else seatOf l i.
Proof.
  unfold seatOf. revert l.
  induction pos as [|pos IH]; intros [|s l] [|i]; cbn [Sparse.assign nth_error Nat.eqb];
    try reflexivity.
  - destruct i; reflexivity.
  - rewrite IH. destruct (Nat.eqb i pos); [reflexivity|].
    destruct i; reflexivity.
  - apply IH.
Qed.

(** X23.  [addPlayerToPosition(player, pos)].  It throws and changes nothing
    when position [pos] is taken, and when the position is free but the
    length of the table equals the largest number of seats.  Otherwise it
    returns: the player sits at [pos], every other position is as it was,
    and the table is as long as before, or [pos + 1] long when [pos] lies
    past its end, the positions in between being left empty.  The length
    counts the empty seats and is only compared for equality, so a position
    past the largest number of seats is accepted on a shorter table, after
    which the table is longer than the largest number of seats. *)
Theorem addPlayerToPosition_spec g p (pos : nat) :
  (forall q,
      Sparse.seatAt g pos = Some q ->
      Sparse.addPlayerToPosition MAX_PLAYERS_PER_GAME p pos g
      = (Throw (Error ("Cannot add player. Player already sitting at position "
                       ++ Sparse.decimal pos ++ ".")), g))
  /\ (Sparse.seatAt g pos = None ->
      Sparse.totalPlayers g = MAX_PLAYERS_PER_GAME ->
      Sparse.addPlayerToPosition MAX_PLAYERS_PER_GAME p pos g
      = (Throw (Error ("Cannot add player. Already have max players ("
                       ++ Sparse.decimal MAX_PLAYERS_PER_GAME ++ ").")), g))
  /\ (Sparse.seatAt g pos = None ->
      Sparse.totalPlayers g <> MAX_PLAYERS_PER_GAME ->
      exists g',
        Sparse.addPlayerToPosition MAX_PLAYERS_PER_GAME p pos g = (Ret tt, g')
        /\ g' = Sparse.set_players (Sparse.assign pos p (Sparse.players g)) g
        /\ Sparse.seatAt g' pos = Some p
        /\ (forall i, i <> pos -> Sparse.seatAt g' i = Sparse.seatAt g i)
        /\ Sparse.totalPlayers g'
           = Nat.max (Sparse.totalPlayers g) (pos + 1)
        /\ (MAX_PLAYERS_PER_GAME <= pos ->
            MAX_PLAYERS_PER_GAME < Sparse.totalPlayers g')).
Proof.
  unfold Sparse.addPlayerToPosition. rewrite seats_bind_get.
  split; [|split].
  - intros q Hq. rewrite Hq. reflexivity.
  - intros Hfree Hmax. rewrite Hfree, Hmax, Nat.eqb_refl. reflexivity.
  - intros Hfree Hmax. rewrite Hfree.
    destruct (Nat.eqb_spec (Sparse.totalPlayers g) MAX_PLAYERS_PER_GAME)
      as [E|_]; [contradiction|].
    eexists. split; [reflexivity|]. split; [reflexivity|].
    assert (Hseat : forall i,
               Sparse.seatAt
                 (Sparse.set_players
                    (Sparse.assign pos p (Sparse.players g)) g) i
               = if Nat.eqb i pos then Some p else Sparse.seatAt g i).
    { intros i. apply (assign_seatOf pos p (Sparse.players g) i). }
    assert (Hlen : Sparse.totalPlayers
                     (Sparse.set_players
                        (Sparse.assign pos p (Sparse.players g)) g)
                   = Nat.max (Sparse.totalPlayers g) (pos + 1)).
    { unfold Sparse.totalPlayers. cbn [Sparse.players Sparse.set_players].
      apply assign_length. }
    split; [rewrite Hseat, Nat.eqb_refl; reflexivity|].
    split; [|split; [exact Hlen|]].
    + intros i Hi. rewrite Hseat.
      destruct (Nat.eqb_spec i pos); [contradiction | reflexivity].
    + intros Hpos. rewrite Hlen. lia.
Qed.

End Seating.

(** ** The table without empty seats

    On a table whose seats are all occupied the seat-by-seat methods are the
    methods of [Section Engine]: what is proved there holds of them on such
    a table. *)

Section FullTable.

Context {HandRank : Type}.
Implicit Types (g : Game HandRank) (p : Player HandRank).

(** The outcome and the game a method of [Section Engine] leaves, seen as a
    table with seats that could be empty. *)
Definition onFullTable {A : Type} (r : outcome A * Game HandRank)
  : outcome A * Sparse.Game HandRank :=
  (fst r, fullTable (snd r)).

Lemma occupants_full (l : list (Player HandRank)) :
  Sparse.occupants (map Some l) = l.
Proof.
  induction l as [|p l IH]; cbn; [reflexivity|]. rewrite IH. reflexivity.
Qed.

Lemma fullTable_noEmptySeat g : Sparse.noEmptySeat (fullTable g) = true.
Proof.
  unfold Sparse.noEmptySeat, fullTable. cbn [Sparse.players].
  induction (players g) as [|p l IH]; cbn; [reflexivity | exact IH].
Qed.

Lemma fullTable_totalPlayers g :
  Sparse.totalPlayers (fullTable g) = totalPlayers g.
Proof.
  unfold Sparse.totalPlayers, totalPlayers, fullTable. cbn [Sparse.players].
  apply length_map.
Qed.

Lemma fullTable_seatAt g (i : nat) :
  Sparse.seatAt (fullTable g) i = nth_error (players g) i.
Proof.
  unfold Sparse.seatAt, fullTable. cbn [Sparse.players].
  revert i. induction (players g) as [|p l IH]; intros [|i]; cbn;
    try reflexivity. apply IH.
Qed.

Lemma fullTable_currentPlayer g :
  Sparse.currentPlayer (fullTable g) = currentPlayer g.
Proof.
  unfold Sparse.currentPlayer, currentPlayer.
  change (Sparse.turnIdx (fullTable g)) with (Sparse.Idx (turnIdx g)).
  apply fullTable_seatAt.
Qed.

Lemma fullTable_occupants g :
  Sparse.occupants (Sparse.players (fullTable g)) = players g.
Proof. apply occupants_full. Qed.

Lemma fullTable_numPlayersInGame g :
  Sparse.numPlayersInGame (fullTable g) = numPlayersInGame g.
Proof.
  unfold Sparse.numPlayersInGame, numPlayersInGame.
  rewrite fullTable_occupants. reflexivity.
Qed.

Lemma fullTable_allInPlayersCounter g :
  Sparse.allInPlayersCounter (fullTable g) = allInPlayersCounter g.
Proof.
  unfold Sparse.allInPlayersCounter, allInPlayersCounter.
  rewrite fullTable_occupants. reflexivity.
Qed.

Lemma fullTable_incrementTurn g :
  0 < totalPlayers g ->
  Sparse.incrementTurn (fullTable g) = onFullTable (incrementTurn g).
Proof.
  intros Hn. unfold onFullTable. destruct (initialized g) eqn:Hi.
  - rewrite incrementTurn_eq by exact Hi. cbn [fst snd].
    rewrite <- (@seats_turned_self _ (fullTable g) (turnIdx g) eq_refl) at 1.
    rewrite seats_incrementTurn_turned;
      [|exact Hi | rewrite fullTable_totalPlayers; exact Hn].
    rewrite fullTable_totalPlayers. reflexivity.
  - unfold Sparse.incrementTurn, incrementTurn, Sparse.bind, bind,
      Sparse.throwIfNotInitialized, throwIfNotInitialized.
    change (Sparse.initialized (fullTable g)) with (initialized g).
    rewrite Hi. reflexivity.
Qed.

Lemma incrementTurn_totalPlayers g :
  totalPlayers (snd (incrementTurn g)) = totalPlayers g.
Proof.
  unfold totalPlayers. rewrite incrementTurn_players. reflexivity.
Qed.

Lemma fullTable_skipLoop :
  forall (n : nat) (skipped : list nat) g,
    0 < totalPlayers g ->
    Sparse.skipLoop n skipped (fullTable g) = onFullTable (skipLoop n skipped g).
Proof.
  induction n as [|n IH]; intros skipped g Hn; [reflexivity|].
  cbn [Sparse.skipLoop skipLoop]. rewrite seats_bind_get, bind_get.
  rewrite fullTable_currentPlayer.
  change (Sparse.turnIdx (fullTable g)) with (Sparse.Idx (turnIdx g)).
  destruct (currentPlayer g) as [p|]; [|reflexivity].
  destruct (negb (inGame p) || isAllIn p); [|reflexivity].
  unfold Sparse.bind, bind. rewrite fullTable_incrementTurn by exact Hn.
  unfold onFullTable at 1.
  pose proof (incrementTurn_totalPlayers g) as Ht.
  destruct (incrementTurn g) as [[[]|e] g1]; cbn [fst snd] in *;
    [|reflexivity].
  apply IH. lia.
Qed.

Lemma fullTable_incrementTurnToNextPlayerInGame g :
  0 < totalPlayers g ->
  Sparse.incrementTurnToNextPlayerInGame (fullTable g)
  = onFullTable (incrementTurnToNextPlayerInGame g).
Proof.
  intros Hn.
  unfold Sparse.incrementTurnToNextPlayerInGame, incrementTurnToNextPlayerInGame.
  unfold Sparse.bind at 1. unfold bind at 1.
  unfold Sparse.throwIfNotInitialized at 1. unfold throwIfNotInitialized at 1.
  change (Sparse.initialized (fullTable g)) with (initialized g).
  destruct (initialized g); [|reflexivity].
  unfold Sparse.bind at 1. unfold bind at 1.
  rewrite fullTable_incrementTurn by exact Hn. unfold onFullTable at 1.
  pose proof (incrementTurn_totalPlayers g) as Ht.
  destruct (incrementTurn g) as [[[]|e] g1]; cbn [fst snd] in *;
    [|reflexivity].
  rewrite seats_bind_get, bind_get, fullTable_totalPlayers.
  apply fullTable_skipLoop. lia.
Qed.

Lemma advanceDealer_step (m : nat) g :
  advanceDealer (S m) g
  = match nth_error (players g) ((dealerIdx g + 1) mod totalPlayers g) with
    | None =>
        (Throw TypeError,
         set_dealerIdx ((dealerIdx g + 1) mod totalPlayers g) g)
    | Some p =>
        if inGame p
        then (Ret tt, set_dealerIdx ((dealerIdx g + 1) mod totalPlayers g) g)
        else advanceDealer
               m (set_dealerIdx ((dealerIdx g + 1) mod totalPlayers g) g)
    end.
Proof.
  cbn [advanceDealer]. repeat (rewrite bind_modify; cbv beta).
  rewrite bind_get.
  replace (set_dealerIdx _ (set_dealerIdx _ g))
    with (set_dealerIdx ((dealerIdx g + 1) mod totalPlayers g) g)
    by reflexivity.
  change (nth_error
            (players (set_dealerIdx ((dealerIdx g + 1) mod totalPlayers g) g))
            (dealerIdx (set_dealerIdx ((dealerIdx g + 1) mod totalPlayers g) g)))
    with (nth_error (players g) ((dealerIdx g + 1) mod totalPlayers g)).
  destruct (nth_error (players g) ((dealerIdx g + 1) mod totalPlayers g))
    as [p|]; [destruct (inGame p)|]; reflexivity.
Qed.

Lemma fullTable_advanceDealer :
  forall (n : nat) g,
    Sparse.advanceDealer n (fullTable g) = onFullTable (advanceDealer n g).
Proof.
  induction n as [|n IH]; intros g; [reflexivity|].
  rewrite advanceDealer_step.
  rewrite <- (seats_set_dealerIdx_self (fullTable g)) at 1.
  rewrite seats_advanceDealer_step.
  rewrite fullTable_seatAt, fullTable_totalPlayers.
  change (Sparse.dealerIdx (fullTable g)) with (dealerIdx g).
  destruct (nth_error (players g) ((dealerIdx g + 1) mod totalPlayers g))
    as [p|]; [|reflexivity].
  destruct (inGame p); [reflexivity|].
  rewrite <- IH. reflexivity.
Qed.

Lemma fullTable_raiseCounter (l : list (Player HandRank)) :
  forall c,
    Sparse.raiseCounter (map Some l) c
    = Ret (c + count_if (fun q => String.eqb (actionState q) "raise"
                                  || String.eqb (actionState q) "SB") l).
Proof.
  intros c. rewrite <- (occupants_full l) at 2. apply raiseCounter_full.
  induction l as [|p l IH]; cbn; [reflexivity | exact IH].
Qed.

Lemma fullTable_canCurrentPlayerCall g :
  Sparse.canCurrentPlayerCall (fullTable g) = canCurrentPlayerCall g.
Proof.
  unfold Sparse.canCurrentPlayerCall, canCurrentPlayerCall.
  change (Sparse.initialized (fullTable g)) with (initialized g).
  destruct (initialized g); [|reflexivity].
  change (Sparse.players (fullTable g)) with (map Some (players g)).
  rewrite fullTable_raiseCounter, fullTable_currentPlayer. reflexivity.
Qed.

Lemma fullTable_dealerRoundEnded g :
  Sparse.dealerRoundEnded (fullTable g) = dealerRoundEnded g.
Proof.
  unfold Sparse.dealerRoundEnded, dealerRoundEnded.
  rewrite fullTable_occupants, fullTable_totalPlayers. reflexivity.
Qed.

Lemma fullTable_find (f : Player HandRank -> bool) (l : list (Player HandRank)) :
  Sparse.find f (map Some l) = Ret (find f l).
Proof.
  induction l as [|p l IH]; cbn; [reflexivity|].
  destruct (f p); [reflexivity | exact IH].
Qed.

Lemma fullTable_actionRoundEndedViaAllInScenario g :
  Sparse.actionRoundEndedViaAllInScenario (fullTable g)
  = actionRoundEndedViaAllInScenario g.
Proof.
  unfold Sparse.actionRoundEndedViaAllInScenario,
    actionRoundEndedViaAllInScenario.
  change (Sparse.initialized (fullTable g)) with (initialized g).
  rewrite fullTable_allInPlayersCounter, fullTable_numPlayersInGame.
  change (Sparse.players (fullTable g)) with (map Some (players g)).
  rewrite fullTable_find. reflexivity.
Qed.

Lemma fullTable_actionRoundEnded g :
  Sparse.actionRoundEnded (fullTable g) = actionRoundEnded g.
Proof.
  unfold Sparse.actionRoundEnded, actionRoundEnded,
    Sparse.preFlopActionRoundEnded, preFlopActionRoundEnded,
    Sparse.noRaiseScenarioCounter, noRaiseScenarioCounter,
    Sparse.raiseScenarioCounter, raiseScenarioCounter,
    Sparse.actionStateIs, actionStateIs.
  rewrite fullTable_occupants, fullTable_numPlayersInGame,
    fullTable_currentPlayer, !fullTable_seatAt.
  reflexivity.
Qed.

Lemma fullTable_preflopAllowCheckForSBAndOrBB g :
  Sparse.preflopAllowCheckForSBAndOrBB (fullTable g)
  = onFullTable (preflopAllowCheckForSBAndOrBB g).
Proof.
  unfold Sparse.preflopAllowCheckForSBAndOrBB, preflopAllowCheckForSBAndOrBB.
  unfold Sparse.bind at 1. unfold bind at 1.
  unfold Sparse.validateInActionRound, validateInActionRound.
  unfold Sparse.bind at 1. unfold bind at 1.
  unfold Sparse.throwIfNotInitialized, throwIfNotInitialized.
  change (Sparse.initialized (fullTable g)) with (initialized g).
  destruct (initialized g); [|reflexivity].
  rewrite seats_bind_get, bind_get.
  change (Sparse.isActionRound "pre-flop" (fullTable g))
    with (isActionRound "pre-flop" g).
  destruct (isActionRound "pre-flop" g); [|reflexivity].
  cbn [negb]. unfold Sparse.ret at 1. unfold ret at 1.
  rewrite seats_bind_get, bind_get, fullTable_currentPlayer.
  destruct (currentPlayer g) as [p|] eqn:Hp; [|reflexivity].
  assert (Hcount : forall g0 : Game HandRank,
             Nat.eqb (Sparse.currentNonRaiseActionStates (fullTable g0))
                     (Sparse.totalPlayers (fullTable g0))
             = Nat.eqb (currentNonRaiseActionStates g0) (totalPlayers g0)).
  { intros g0. unfold Sparse.currentNonRaiseActionStates,
                 currentNonRaiseActionStates.
    rewrite fullTable_occupants, fullTable_totalPlayers. reflexivity. }
  rewrite Hcount.
  change (Sparse.smallBlind (fullTable g)) with (smallBlind g).
  change (Sparse.bigBlind (fullTable g)) with (bigBlind g).
  destruct (String.eqb (actionState p) "SB" && Qeq_bool (smallBlind g) (bigBlind g)
            && Nat.eqb (currentNonRaiseActionStates g) (totalPlayers g)).
  - rewrite seats_bind_modify, bind_modify, seats_bind_get, bind_get.
    change (Sparse.set_allowCheck true (fullTable g))
      with (fullTable (set_allowCheck true g)).
    rewrite fullTable_currentPlayer, Hcount.
    destruct (currentPlayer (set_allowCheck true g)) as [q|]; [|reflexivity].
    change (Sparse.smallBlind (fullTable (set_allowCheck true g)))
      with (smallBlind (set_allowCheck true g)).
    change (Sparse.bigBlind (fullTable (set_allowCheck true g)))
      with (bigBlind (set_allowCheck true g)).
    destruct (String.eqb (actionState q) "BB"
              && negb (Qeq_bool (smallBlind (set_allowCheck true g))
                                (bigBlind (set_allowCheck true g)))
              && Nat.eqb (currentNonRaiseActionStates (set_allowCheck true g))
                         (totalPlayers (set_allowCheck true g)));
      reflexivity.
  - rewrite seats_bind_ret, bind_ret, seats_bind_get, bind_get.
    rewrite fullTable_currentPlayer, Hcount, Hp.
    change (Sparse.smallBlind (fullTable g)) with (smallBlind g).
    change (Sparse.bigBlind (fullTable g)) with (bigBlind g).
    destruct (String.eqb (actionState p) "BB"
              && negb (Qeq_bool (smallBlind g) (bigBlind g))
              && Nat.eqb (currentNonRaiseActionStates g) (totalPlayers g));
      reflexivity.
Qed.

Lemma fullTable_isActionRound (event : string) g :
  Sparse.isActionRound event (fullTable g) = isActionRound event g.
Proof. reflexivity. Qed.

Lemma fullTable_roundReset g :
  seats_roundReset (fullTable g) = fullTable (roundReset g).
Proof.
  apply seats_Game_ext; try reflexivity.
  unfold seats_roundReset, roundReset, fullTable.
  cbn [Sparse.players Sparse.set_turnIdx Sparse.set_betting Sparse.set_players
       players set_turnIdx set_betting set_players].
  rewrite !map_map. reflexivity.
Qed.

Lemma fullTable_startedRound g (t c : nat) :
  seats_startedRound (fullTable g) (Sparse.Idx t) c
  = fullTable (startedRound g t c).
Proof.
  apply seats_Game_ext; try reflexivity.
  unfold seats_startedRound, startedRound, fullTable.
  cbn [Sparse.players players]. rewrite !map_map. reflexivity.
Qed.

Lemma fullTable_refreshAndIncActionRound g :
  0 < totalPlayers g ->
  Sparse.refreshAndIncActionRound (fullTable g)
  = onFullTable (refreshAndIncActionRound g).
Proof.
  intros Hn. unfold onFullTable.
  destruct (initialized g) eqn:Hi.
  2:{ assert (Hd : refreshAndIncActionRound g = (Throw NotInitialized, g)).
      { unfold refreshAndIncActionRound. unfold bind at 1.
        rewrite validateNotInActionRound_uninitialized by exact Hi.
        reflexivity. }
      rewrite Hd. unfold Sparse.refreshAndIncActionRound.
      unfold Sparse.bind at 1.
      rewrite seats_validateNotInActionRound_uninitialized by exact Hi.
      reflexivity. }
  destruct (Z.eq_dec (actionRound g) 3) as [E3|E3].
  { assert (Hd : exists e, refreshAndIncActionRound g = (Throw e, g)
                           /\ Sparse.refreshAndIncActionRound (fullTable g)
                              = (Throw e, fullTable g)).
    { eexists. split.
      - unfold refreshAndIncActionRound. unfold bind at 1.
        rewrite validateNotInActionRound_refuses;
          [reflexivity | exact Hi | apply isActionRound_river; exact E3].
      - unfold Sparse.refreshAndIncActionRound. unfold Sparse.bind at 1.
        rewrite seats_validateNotInActionRound_refuses;
          [reflexivity | exact Hi
           | apply seats_isActionRound_iff, ACTION_ROUNDS_river; exact E3]. }
    destruct Hd as (e & Hd & Hs). rewrite Hd, Hs. reflexivity. }
  destruct (Z.eq_dec (actionRound g) (-1)) as [E1|E1].
  { assert (Hd : exists e, refreshAndIncActionRound g = (Throw e, g)
                           /\ Sparse.refreshAndIncActionRound (fullTable g)
                              = (Throw e, fullTable g)).
    { eexists. split.
      - unfold refreshAndIncActionRound. unfold bind at 1.
        rewrite validateNotInActionRound_passes;
          [|exact Hi
           |apply (@isActionRound_false _ _ g _ (isActionRound_river g) E3)].
        unfold bind at 1.
        rewrite validateNotInActionRound_refuses;
          [reflexivity | exact Hi | apply isActionRound_uninitialized; exact E1].
      - unfold Sparse.refreshAndIncActionRound. unfold Sparse.bind at 1.
        rewrite seats_validateNotInActionRound_passes;
          [|exact Hi
           |apply (@seats_isActionRound_false
                     _ _ (fullTable g) 3%Z (ACTION_ROUNDS_river _) E3)].
        unfold Sparse.bind at 1.
        rewrite seats_validateNotInActionRound_refuses;
          [reflexivity | exact Hi
           | apply seats_isActionRound_iff, ACTION_ROUNDS_uninitialized;
             exact E1]. }
    destruct Hd as (e & Hd & Hs). rewrite Hd, Hs. reflexivity. }
  rewrite seats_refreshAndIncActionRound_unfold by assumption.
  rewrite refreshAndIncActionRound_unfold by assumption.
  rewrite fullTable_roundReset.
  rewrite fullTable_incrementTurnToNextPlayerInGame
    by (rewrite roundReset_totalPlayers; exact Hn).
  unfold onFullTable.
  destruct (incrementTurnToNextPlayerInGame_frame (roundReset g))
    as (t & c & Hf).
  destruct (incrementTurnToNextPlayerInGame (roundReset g)) as [[sk|e] g4];
    cbn [fst snd] in *; [|reflexivity].
  subst g4. f_equal. apply fullTable_startedRound.
Qed.

End FullTable.

(** ** The engine at an empty seat *)

(** Seating at positions 0 and 2 leaves position 1 empty. *)
Lemma SparseDemo_gap_seats :
  Sparse.players SparseDemo.gap
  = [Some (SparseDemo.newcomer 0); None; Some (SparseDemo.newcomer 2)]
  /\ Sparse.totalPlayers SparseDemo.gap = 3
  /\ Sparse.initialized SparseDemo.gap = true
  /\ Sparse.turnIdx SparseDemo.gap = Sparse.Idx 0.
Proof. repeat split. Qed.

(** A taken position and a full table are refused. *)
Lemma addPlayerToPosition_refusals :
  Sparse.addPlayerToPosition SparseDemo.MAX_PLAYERS_PER_GAME
                             (SparseDemo.newcomer 2) 2 SparseDemo.gap
  = (Throw (Error "Cannot add player. Player already sitting at position 2."),
     SparseDemo.gap)
  /\ Sparse.addPlayerToPosition 3 (SparseDemo.newcomer 1) 1 SparseDemo.gap
     = (Throw (Error "Cannot add player. Already have max players (3)."),
        SparseDemo.gap).
Proof. split; reflexivity. Qed.

(** C7: the defect.  On the table with seats 0 and 2 taken and
    seat 1 empty, initialized, the turn on seat 0: seat 2 is in the hand and
    not all-in, so the claim has the turn pointer land on seat 2;
    [incrementTurnToNextPlayerInGame] moves the pointer to the empty seat 1,
    reads [this.currentPlayer.inGame] there and throws a [TypeError], the
    pointer left on seat 1.  The same happens to the call that
    [refreshDealerRound] makes on the table with seats 0, 1 and 3 taken: the
    dealer loop has moved the button to seat 1, the turn starts there, seat
    3 is in the hand and not all-in, and the advance throws at the empty
    seat 2. *)
Theorem incrementTurnToNextPlayerInGame_throws_at_empty_seat :
  Sparse.initialized SparseDemo.gap = true
  /\ Sparse.players SparseDemo.gap
     = [Some (SparseDemo.newcomer 0); None; Some (SparseDemo.newcomer 2)]
  /\ Sparse.turnIdx SparseDemo.gap = Sparse.Idx 0
  /\ Sparse.activeSeat SparseDemo.gap 2 = true
  /\ Sparse.incrementTurnToNextPlayerInGame SparseDemo.gap
     = (Throw TypeError, Sparse.turned SparseDemo.gap 1 1)
  /\ Sparse.seatAt SparseDemo.gap 1 = None
  /\ Sparse.players SparseDemo.seatTwoFree
     = [Some (SparseDemo.newcomer 0); Some (SparseDemo.newcomer 1); None;
        Some (SparseDemo.newcomer 3)]
  /\ Sparse.advanceDealer 4 SparseDemo.seatTwoFree
     = (Ret tt, Sparse.set_dealerIdx 1 SparseDemo.seatTwoFree)
  /\ Sparse.initialized SparseDemo.seatTwoFreeDealt = true
  /\ Sparse.turnIdx SparseDemo.seatTwoFreeDealt = Sparse.Idx 1
  /\ Sparse.activeSeat SparseDemo.seatTwoFreeDealt 3 = true
  /\ Sparse.incrementTurnToNextPlayerInGame SparseDemo.seatTwoFreeDealt
     = (Throw TypeError, Sparse.turned SparseDemo.seatTwoFreeDealt 2 1)
  /\ Sparse.seatAt SparseDemo.seatTwoFreeDealt 2 = None.
Proof. repeat split. Qed.

(** C4: the defect.  On the initialized table with seat 0 empty
    and seat 1 taken by the only player in the hand, nobody all-in: the
    all-in count is one less than the in-hand count, and when the pot is
    open to seat 1 the claim has the detector return true.  [find] reads
    [player.inGame] at the empty seat 0 first and the detector throws a
    [TypeError], whatever the potential-winners set of the pot. *)
Theorem actionRoundEndedViaAllInScenario_throws_at_empty_seat :
  Sparse.initialized (SparseDemo.oneSeatTaken [1]) = true
  /\ Sparse.players (SparseDemo.oneSeatTaken [1])
     = [None; Some (SparseDemo.newcomer 1)]
  /\ Sparse.allInPlayersCounter (SparseDemo.oneSeatTaken [1]) = 0
  /\ Sparse.numPlayersInGame (SparseDemo.oneSeatTaken [1]) = 1
  /\ forallb (playerIdxInPotentialWinners (id (SparseDemo.newcomer 1)))
             (filter (@open nat) (Sparse.pots (SparseDemo.oneSeatTaken [1])))
     = true
  /\ Sparse.actionRoundEndedViaAllInScenario (SparseDemo.oneSeatTaken [1])
     = Throw TypeError
  /\ (forall eligible,
        Sparse.actionRoundEndedViaAllInScenario
          (SparseDemo.oneSeatTaken eligible) = Throw TypeError)
  /\ Sparse.actionRoundEndedViaAllInScenario SparseDemo.lateSeat
     = Throw TypeError.
Proof. repeat split. Qed.

(** ** The properties of the seat-by-seat methods on concrete tables *)

(** From seat 0 of the table with seat 1 empty the advance throws at seat 1;
    on the four-seat table of [Demo] it skips seats 1 and 2 and lands on
    seat 3. *)
Lemma incrementTurnToNextPlayerInGame_outcomes_witness :
  (exists k,
      k <= 3
      /\ (forall j, j < k ->
            Sparse.passedSeat SparseDemo.gap ((0 + 1 + j) mod 3) = true)
      /\ ((k < 3
           /\ Sparse.activeSeat SparseDemo.gap ((0 + 1 + k) mod 3) = true
           /\ Sparse.incrementTurnToNextPlayerInGame SparseDemo.gap
              = (Ret (map (fun j => (0 + 1 + j) mod 3) (seq 0 k)),
                 Sparse.turned SparseDemo.gap ((0 + 1 + k) mod 3) (1 + k)))
          \/ (k < 3
              /\ Sparse.seatAt SparseDemo.gap ((0 + 1 + k) mod 3) = None
              /\ Sparse.incrementTurnToNextPlayerInGame SparseDemo.gap
                 = (Throw TypeError,
                    Sparse.turned SparseDemo.gap ((0 + 1 + k) mod 3) (1 + k)))
          \/ (k = 3
              /\ Sparse.incrementTurnToNextPlayerInGame SparseDemo.gap
                 = (Ret (map (fun j => (0 + 1 + j) mod 3) (seq 0 k)),
                    Sparse.turned SparseDemo.gap ((0 + 1 + k) mod 3) (1 + k)))))
  /\ fst (Sparse.incrementTurnToNextPlayerInGame SparseDemo.gap)
     = Throw TypeError
  /\ Sparse.incrementTurnToNextPlayerInGame (fullTable Demo.fourSeats)
     = (Ret [1; 2], Sparse.turned (fullTable Demo.fourSeats) 3 3).
Proof.
  split; [|split; reflexivity].
  apply (proj2 (proj2 (proj2 (@incrementTurnToNextPlayerInGame_outcomes
                                nat SparseDemo.gap))) 0).
  - reflexivity.
  - cbn. lia.
  - reflexivity.
Defined.

(** After the hand seat 2 won on the four-seat table of [Demo], the button
    moves from seat 0 past the seats that are out of the hand; with seat 1
    empty it throws there. *)
Lemma advanceDealer_outcomes_witness :
  0 < Sparse.totalPlayers (fullTable Demo.afterHand)
  /\ (exists k,
         k <= 4
         /\ (forall j, j < k ->
               Sparse.outOfHandSeat (fullTable Demo.afterHand)
                                    ((0 + 1 + j) mod 4) = true)
         /\ ((k < 4
              /\ Sparse.inHandSeat (fullTable Demo.afterHand)
                                   ((0 + 1 + k) mod 4) = true
              /\ Sparse.advanceDealer 4 (fullTable Demo.afterHand)
                 = (Ret tt,
                    Sparse.set_dealerIdx ((0 + 1 + k) mod 4)
                                         (fullTable Demo.afterHand)))
             \/ (k < 4
                 /\ Sparse.seatAt (fullTable Demo.afterHand)
                                  ((0 + 1 + k) mod 4) = None
                 /\ Sparse.advanceDealer 4 (fullTable Demo.afterHand)
                    = (Throw TypeError,
                       Sparse.set_dealerIdx ((0 + 1 + k) mod 4)
                                            (fullTable Demo.afterHand)))
             \/ (k = 4
                 /\ Sparse.advanceDealer 4 (fullTable Demo.afterHand)
                    = (Ret tt,
                       Sparse.set_dealerIdx (0 mod 4)
                                            (fullTable Demo.afterHand)))))
  /\ Sparse.advanceDealer 4 (fullTable Demo.afterHand)
     = (Ret tt, Sparse.set_dealerIdx 2 (fullTable Demo.afterHand))
  /\ Sparse.advanceDealer 3 SparseDemo.gap
     = (Throw TypeError, Sparse.set_dealerIdx 1 SparseDemo.gap).
Proof.
  assert (Hn : 0 < Sparse.totalPlayers (fullTable Demo.afterHand))
    by (cbn; lia).
  split; [exact Hn|]. split; [|split; reflexivity].
  apply (@advanceDealer_outcomes nat (fullTable Demo.afterHand) Hn).
Defined.

(** On the river of [Demo] seat 0 has raised and seat 1 may call; with an
    empty seat on the table the question cannot be answered. *)
Lemma canCurrentPlayerCall_outcomes_witness :
  Sparse.initialized SparseDemo.flopGap = true
  /\ Sparse.noEmptySeat SparseDemo.flopGap = false
  /\ Sparse.canCurrentPlayerCall SparseDemo.flopGap = Throw TypeError
  /\ Sparse.initialized (fullTable Demo.riverBetting) = true
  /\ Sparse.noEmptySeat (fullTable Demo.riverBetting) = true
  /\ exists b,
       Sparse.canCurrentPlayerCall (fullTable Demo.riverBetting) = Ret b
       /\ (b = true
           <-> (exists q, In (Some q) (Sparse.players
                                         (fullTable Demo.riverBetting))
                          /\ (actionState q = "raise" \/ actionState q = "SB"))
               /\ ~ (actionState (Demo.hand 1 9800 (13, "d") (6, "s") " ")
                     = "SB"
                     /\ (Sparse.smallBlind (fullTable Demo.riverBetting)
                         == Sparse.bigBlind (fullTable Demo.riverBetting))%Q)).
Proof.
  destruct (@canCurrentPlayerCall_outcomes nat SparseDemo.flopGap eq_refl)
    as (Hgap & _ & _).
  destruct (@canCurrentPlayerCall_outcomes
              nat (fullTable Demo.riverBetting) eq_refl)
    as (_ & Hfull & _).
  split; [reflexivity|]. split; [reflexivity|].
  split; [apply Hgap; reflexivity|].
  split; [reflexivity|]. split; [reflexivity|].
  apply (Hfull eq_refl). reflexivity.
Defined.

(** One seat has called and seat 0 is empty: the fold-out test answers false
    though a single seat is left; on the folded-out table of [Demo] it
    answers true. *)
Lemma dealerRoundEnded_iff_witness :
  Sparse.dealerRoundEnded SparseDemo.oneCaller = false
  /\ count_if (fun p : Player nat =>
                 negb (String.eqb (actionState p) "fold"
                       || String.eqb (actionState p) ""))
              (Sparse.occupants (Sparse.players SparseDemo.oneCaller)) = 1
  /\ emptySeats SparseDemo.oneCaller = 1
  /\ Sparse.dealerRoundEnded (fullTable Demo.foldedOut) = true.
Proof.
  destruct (@dealerRoundEnded_iff nat (fullTable Demo.foldedOut))
    as (_ & Hfull & _).
  split; [reflexivity|]. split; [reflexivity|]. split; [reflexivity|].
  apply (Hfull eq_refl). reflexivity.
Defined.

(** Pre-flop the big blind, holding the turn after everybody called, gets
    the option to check; with an empty seat below the length of the table it
    does not. *)
Lemma preflopAllowCheckForSBAndOrBB_spec_witness :
  Sparse.initialized SparseDemo.preflopOption = true
  /\ Sparse.preflopAllowCheckForSBAndOrBB SparseDemo.preflopOption
     = (Ret tt, Sparse.set_allowCheck true SparseDemo.preflopOption)
  /\ Sparse.initialized SparseDemo.preflopOptionGap = true
  /\ Sparse.noEmptySeat SparseDemo.preflopOptionGap = false
  /\ exists b,
       Sparse.preflopAllowCheckForSBAndOrBB SparseDemo.preflopOptionGap
       = (Ret tt, Sparse.set_allowCheck b SparseDemo.preflopOptionGap)
       /\ b = false.
Proof.
  destruct (@preflopAllowCheckForSBAndOrBB_spec
              nat SparseDemo.preflopOptionGap eq_refl)
    as (_ & _ & Hgap).
  destruct (Hgap _ eq_refl eq_refl) as (b & Hrun & _ & Hkeep).
  split; [reflexivity|]. split; [reflexivity|].
  split; [reflexivity|]. split; [reflexivity|].
  exists b. split; [exact Hrun|]. apply Hkeep. reflexivity.
Defined.

(** After the flop betting the next round cannot start across the empty
    seat 1: the reset is done and the turn is left on seat 1. *)
Lemma refreshAndIncActionRound_starts_round_witness :
  Sparse.initialized SparseDemo.flopGap = true
  /\ Sparse.actionRound SparseDemo.flopGap = 1%Z
  /\ 0 < Sparse.totalPlayers SparseDemo.flopGap
  /\ (exists k,
         k <= 3
         /\ (forall j, j < k ->
               Sparse.passedSeat SparseDemo.flopGap ((0 + 1 + j) mod 3) = true)
         /\ ((k < 3
              /\ Sparse.activeSeat SparseDemo.flopGap ((0 + 1 + k) mod 3) = true
              /\ Sparse.refreshAndIncActionRound SparseDemo.flopGap
                 = (Ret (map (fun j => (0 + 1 + j) mod 3) (seq 0 k)),
                    seats_startedRound SparseDemo.flopGap
                                       (Sparse.Idx ((0 + 1 + k) mod 3))
                                       (0 + (1 + k))))
             \/ (k < 3
                 /\ Sparse.seatAt SparseDemo.flopGap ((0 + 1 + k) mod 3) = None
                 /\ Sparse.refreshAndIncActionRound SparseDemo.flopGap
                    = (Throw TypeError,
                       Sparse.turned (seats_roundReset SparseDemo.flopGap)
                                     ((0 + 1 + k) mod 3) (1 + k)))
             \/ (k = 3
                 /\ Sparse.refreshAndIncActionRound SparseDemo.flopGap
                    = (Ret (map (fun j => (0 + 1 + j) mod 3) (seq 0 k)),
                       seats_startedRound SparseDemo.flopGap
                                          (Sparse.Idx ((0 + 1 + k) mod 3))
                                          (0 + (1 + k))))))
  /\ fst (Sparse.refreshAndIncActionRound SparseDemo.flopGap) = Throw TypeError
  /\ Sparse.actionRound (snd (Sparse.refreshAndIncActionRound
                                SparseDemo.flopGap)) = 1%Z
  /\ fst (Sparse.refreshAndIncActionRound (fullTable Demo.flopCalled)) = Ret [].
Proof.
  assert (Hn : 0 < Sparse.totalPlayers SparseDemo.flopGap) by (cbn; lia).
  split; [reflexivity|]. split; [reflexivity|]. split; [exact Hn|].
  split; [|split; [|split]]; try (vm_compute; reflexivity).
  apply (@refreshAndIncActionRound_starts_round nat SparseDemo.flopGap eq_refl).
  - discriminate.
  - discriminate.
  - exact Hn.
Defined.

(** The round that starts with seat 0 empty, seat 1 in the hand and seat 2
    folded is not read as folded out, though a single seat is in the hand. *)
Lemma refreshAndIncActionRound_round_open_witness :
  fst (Sparse.refreshAndIncActionRound SparseDemo.flopOneLeft) = Ret []
  /\ Sparse.numPlayersInGame SparseDemo.flopOneLeft = 1
  /\ emptySeats SparseDemo.flopOneLeft = 1
  /\ Sparse.dealerRoundEnded
       (snd (Sparse.refreshAndIncActionRound SparseDemo.flopOneLeft)) = false
  /\ (Sparse.dealerRoundEnded
        (snd (Sparse.refreshAndIncActionRound SparseDemo.flopOneLeft)) = true
      <-> Sparse.numPlayersInGame SparseDemo.flopOneLeft
          + emptySeats SparseDemo.flopOneLeft = 1)
  /\ exists b,
       Sparse.actionRoundEnded
         (snd (Sparse.refreshAndIncActionRound SparseDemo.flopOneLeft)) = Ret b
       /\ (b = true
           <-> forall p, In (Some p) (Sparse.players SparseDemo.flopOneLeft) ->
                         inGame p = true -> isAllIn p = true).
Proof.
  assert (Hrun : Sparse.refreshAndIncActionRound SparseDemo.flopOneLeft
                 = (Ret [], snd (Sparse.refreshAndIncActionRound
                                   SparseDemo.flopOneLeft)))
    by (vm_compute; reflexivity).
  destruct (@refreshAndIncActionRound_round_open
              nat SparseDemo.flopOneLeft []
              (snd (Sparse.refreshAndIncActionRound SparseDemo.flopOneLeft))
              Hrun)
    as (_ & Hended & _ & Hopen).
  split; [vm_compute; reflexivity|]. split; [reflexivity|].
  split; [reflexivity|]. split; [vm_compute; reflexivity|].
  split; [exact Hended | exact Hopen].
Defined.

(** On the table of [Demo] with a side pot, seat 1 is the only seat that is
    not all-in and the closed pot does not list it: the detector answers
    false.  With seat 0 empty it throws. *)
Lemma actionRoundEndedViaAllInScenario_outcomes_witness :
  Sparse.initialized (fullTable Demo.sidePot) = true
  /\ Sparse.allInPlayersCounter (fullTable Demo.sidePot) + 1
     = Sparse.numPlayersInGame (fullTable Demo.sidePot)
  /\ (exists pre rest,
         (forall q, In q pre -> livePlayer q = false)
         /\ ((exists p,
                Sparse.players (fullTable Demo.sidePot)
                = map Some pre ++ Some p :: rest
                /\ livePlayer p = true
                /\ Sparse.actionRoundEndedViaAllInScenario
                     (fullTable Demo.sidePot)
                   = Ret (forallb (playerIdxInPotentialWinners (id p))
                                  (Sparse.pots (fullTable Demo.sidePot))))
             \/ (Sparse.players (fullTable Demo.sidePot)
                 = map Some pre ++ None :: rest
                 /\ Sparse.actionRoundEndedViaAllInScenario
                      (fullTable Demo.sidePot)
                    = Throw TypeError)))
  /\ Sparse.actionRoundEndedViaAllInScenario (fullTable Demo.sidePot)
     = Ret false
  /\ Sparse.actionRoundEndedViaAllInScenario (SparseDemo.oneSeatTaken [1])
     = Throw TypeError.
Proof.
  split; [reflexivity|]. split; [reflexivity|].
  split; [|split; reflexivity].
  apply (proj2 (proj2 (proj2 (@actionRoundEndedViaAllInScenario_outcomes
                                nat (fullTable Demo.sidePot)))));
    reflexivity.
Defined.

(** On a table of at most nine seats, position 12 is accepted on the table
    of three positions: the table is then thirteen positions long. *)
Lemma addPlayerToPosition_spec_witness :
  Sparse.seatAt SparseDemo.gap 12 = None
  /\ Sparse.totalPlayers SparseDemo.gap = 3
  /\ exists g',
       Sparse.addPlayerToPosition SparseDemo.MAX_PLAYERS_PER_GAME
                                  (SparseDemo.newcomer 12) 12 SparseDemo.gap
       = (Ret tt, g')
       /\ Sparse.totalPlayers g' = 13
       /\ Sparse.seatAt g' 12 = Some (SparseDemo.newcomer 12)
       /\ emptySeats g' = 10.
Proof.
  destruct (@addPlayerToPosition_spec
              nat SparseDemo.MAX_PLAYERS_PER_GAME SparseDemo.gap
              (SparseDemo.newcomer 12) 12)
    as (_ & _ & Hfree).
  destruct (Hfree eq_refl) as (g' & Hrun & Hg & Hseat & _ & Hlen & _).
  - cbn. discriminate.
  - split; [reflexivity|]. split; [reflexivity|].
    exists g'. split; [exact Hrun|]. split; [rewrite Hlen; reflexivity|].
    split; [exact Hseat|]. rewrite Hg. reflexivity.
Defined.
